(** * Verification of the KMC social-network simulator core

    A shallow embedding of the categorical rate tree (cat_nodes.h, the
    [cats] namespace), of the mutation and action routines of the
    [Analyzer] (analyzer_main.cpp) and of the tweet-aging checker
    (TimeDepRateTree::ElementChecker::check), together with the properties
    the specification states about them.

    Conventions.
    - [double] values are modelled by exact rationals [Q]; equalities
      between rates are stated with [==] (Qeq).  Floating rounding is
      outside this idealisation, except where an operation is taken as a
      parameter.
    - [int] values are modelled by [Z]; vector indices that the code only
      ever uses as non-negative are [nat].
    - [google::sparse_hash_set<ElemT>] is a [gset Z]; [std::vector] is a
      [list] with stdpp's lookup and in-place insert.
    - The random generator is an oracle: every draw a routine makes is an
      argument of its model. *)

From Stdlib Require Import ZArith QArith Qround Lia Lqa.
From stdpp Require Import base decidable option list gmap sets.

Local Open Scope Z_scope.
Local Open Scope nat_scope.

(** ** Small rational toolkit *)

Definition Qsum (l : list Q) : Q := foldr Qplus 0%Q l.

(** ** The categorical rate tree (namespace [cats]) *)

Module CatNodes.
Section Nodes.

(** [StateT]: the state every classifier call receives (the network). *)
Context {StateT : Type}.

(** *** LeafNode<ElemT>

    The hash set reserves ElemT(-1) as its deleted key; the elements are
    entity and tweet ids, which are never -1.  [n_elems] and the sizes
    are mathematical integers: the overflow of an [int] counter is not
    modelled. *)

Record LeafNode := mkLeafNode {
  leaf_total_rate : Q;
  elems : gset Z
}.

(** LeafNode(): total_rate = 0, empty set. *)
Definition LeafNode_new : LeafNode := mkLeafNode 0 ∅.

Definition leaf_size (n : LeafNode) : Z := Z.of_nat (size (elems n)).

(** LeafNode::insert: "Returns true if the element was unique", decided
    by comparing the set's size before and after the insertion. *)
Definition leaf_insert (elem : Z) (n : LeafNode) : bool * LeafNode :=
  let prev_size := size (elems n) in
  let elems' := {[elem]} ∪ elems n in
  (bool_decide (prev_size < size elems'), mkLeafNode (leaf_total_rate n) elems').

(** LeafNode::add(N, rate, delta, elem).  [delta] is the reference
    parameter: it is passed in and the (possibly updated) value is
    returned next to the result. *)
Definition leaf_add (N : StateT) (rate : Q) (delta : Q) (elem : Z) (n : LeafNode)
  : bool * Q * LeafNode :=
  let '(unique, n1) := leaf_insert elem n in
  if unique then
    let delta := rate in
    (true, delta, mkLeafNode (leaf_total_rate n1 + delta) (elems n1))
  else (false, delta, n1).

(** HashSet::erase returns the number of erased elements. *)
Definition hash_erase (elem : Z) (s : gset Z) : nat * gset Z :=
  ((if bool_decide (elem ∈ s) then 1 else 0), s ∖ {[elem]}).

(** LeafNode::remove(N, rate, delta, elem). *)
Definition leaf_remove (N : StateT) (rate : Q) (delta : Q) (elem : Z) (n : LeafNode)
  : bool * Q * LeafNode :=
  let '(erased, elems') := hash_erase elem (elems n) in
  if bool_decide (0 < erased) then
    let delta := (- rate)%Q in
    (true, delta, mkLeafNode (leaf_total_rate n + delta) elems')
  else (false, delta, mkLeafNode (leaf_total_rate n) elems').

(** *** TreeNode<SubCat> *)

Record TreeNode (SubCat : Type) := mkTreeNode {
  total_rate : Q;      (* Total weight of the subtree *)
  n_elems : Z;
  cats : list SubCat
}.
Arguments mkTreeNode {SubCat}.
Arguments total_rate {SubCat}.
Arguments n_elems {SubCat}.
Arguments cats {SubCat}.

(** The classifier structure of one layer: [classify] gives the bin of
    an element, [get] the classifier of the layer below for a bin (at
    the last layer: the per-member rate of that bin).  The bin is used
    as a vector index and is therefore a [nat]. *)
Record TreeClassifier (SubC : Type) := mkTreeClassifier {
  classify : StateT -> Z -> nat;
  get : StateT -> nat -> SubC
}.
Arguments mkTreeClassifier {SubC}.
Arguments classify {SubC}.
Arguments get {SubC}.

(** One layer of the template, over the operations of its [SubCat].  A
    result [None] is an abort on a failed DEBUG_CHECK. *)
Section Layer.
Variables SubCat SubC : Type.
Variable sub_new : SubCat.
Variable sub_add sub_remove :
  StateT -> SubC -> Q -> Z -> SubCat -> option (bool * Q * SubCat).

(** TreeNode(): total_rate = 0, n_elems = 0, no bins. *)
Definition TreeNode_new : TreeNode SubCat := mkTreeNode 0 0 [].

(** ensure_bin: cats.resize(bin + 1) when bin >= cats.size(); the new
    slots are default-constructed. *)
Definition ensure_bin (bin : nat) (cs : list SubCat) : list SubCat :=
  if bool_decide (length cs <= bin)
  then cs ++ replicate (bin + 1 - length cs) sub_new
  else cs.

(** TreeNode::add(S, C, ret, elem). *)
Definition tree_add (S : StateT) (C : TreeClassifier SubC) (ret : Q) (elem : Z)
    (t : TreeNode SubCat) : option (bool * Q * TreeNode SubCat) :=
  let delta := 0%Q in
  let bin := classify C S elem in
  let cs := ensure_bin bin (cats t) in
  match sub_add S (get C S bin) delta elem (nth bin cs sub_new) with
  | None => None
  | Some (true, delta, sub) =>
      (* DEBUG_CHECK(delta >= 0, "Negative rate delta on 'add'!") *)
      if Qle_bool 0 delta
      then Some (true, delta,
                 mkTreeNode (total_rate t + delta) (n_elems t + 1) (<[bin := sub]> cs))
      else None
  | Some (false, _, sub) =>
      Some (false, ret, mkTreeNode (total_rate t) (n_elems t) (<[bin := sub]> cs))
  end.

(** TreeNode::remove(S, C, ret, elem). *)
Definition tree_remove (S : StateT) (C : TreeClassifier SubC) (ret : Q) (elem : Z)
    (t : TreeNode SubCat) : option (bool * Q * TreeNode SubCat) :=
  let delta := 0%Q in
  let bin := classify C S elem in
  let cs := ensure_bin bin (cats t) in
  match sub_remove S (get C S bin) delta elem (nth bin cs sub_new) with
  | None => None
  | Some (true, delta, sub) =>
      (* DEBUG_CHECK(delta <= 0, "Positive rate delta on 'remove'!") *)
      if Qle_bool delta 0
      then Some (true, delta,
                 mkTreeNode (total_rate t + delta) (n_elems t - 1) (<[bin := sub]> cs))
      else None
  | Some (false, _, sub) =>
      Some (false, ret, mkTreeNode (total_rate t) (n_elems t) (<[bin := sub]> cs))
  end.
End Layer.

(** *** Bin selection for sampling *)

(** A C++ [int]: the value of a wider integer converted to 32 bits. *)
Definition wrap_int (z : Z) : Z := ((z + 2 ^ 31) mod 2 ^ 32 - 2 ^ 31)%Z.

Section Sampling.
Variable SubCat : Type.
Variable sub_total_rate : SubCat -> Q.

(** The loop of random_uniform_bin over the bins not yet visited:
    [n_cats] is cats.size(), [i] the current index.  Falling out of
    the loop is ASSERT(false, ...), modelled by [None]. *)
Fixpoint uniform_bin_loop (n_cats : Z) (rest : list SubCat) (i : nat) (num : Z)
  : option nat :=
  match rest with
  | [] => None
  | _ :: rest' =>
      let num := wrap_int (num - n_cats) in
      if (num <=? 0)%Z then Some i else uniform_bin_loop n_cats rest' (S i) num
  end.

(** TreeNode::random_uniform_bin; [rand_int n] is the draw
    rng.rand_int(n), an integer of [0, n). *)
Definition random_uniform_bin (rand_int : Z -> Z) (t : TreeNode SubCat) : option nat :=
  let num := rand_int (n_elems t) in
  uniform_bin_loop (Z.of_nat (length (cats t))) (cats t) 0 num.

(** Double arithmetic of random_weighted_bin: product and difference
    are parameters, so that any rounding is covered; exact arithmetic
    is [Qmult] and [Qminus]. *)
Variable fmul fsub : Q -> Q -> Q.

(** The loop of random_weighted_bin; [None] when no bin made [num]
    non-positive. *)
Fixpoint weighted_bin_loop (rest : list SubCat) (i : nat) (num : Q) : option nat :=
  match rest with
  | [] => None
  | c :: rest' =>
      let num := fsub num (sub_total_rate c) in
      if Qle_bool num 0 then Some i else weighted_bin_loop rest' (S i) num
  end.

(** TreeNode::random_weighted_bin; [u] is the draw rng.genrand_real2().
    After the loop: ASSERT(!cats.empty(), ...) ([None] when it fails),
    then the last bin. *)
Definition random_weighted_bin (u : Q) (t : TreeNode SubCat) : option nat :=
  let num := fmul u (total_rate t) in
  match weighted_bin_loop (cats t) 0 num with
  | Some i => Some i
  | None =>
      match cats t with
      | [] => None
      | _ :: _ => Some (length (cats t) - 1)
      end
  end.
(** The value [num] is left with once every bin's total has been
    subtracted. *)
Definition weighted_remainder (cs : list SubCat) (num : Q) : Q :=
  fold_left (fun acc c => fsub acc (sub_total_rate c)) cs num.

(** Among the equally likely draws 0, ..., n_elems - 1 of
    rng.rand_int(size()), the number of those for which
    random_uniform_bin returns [bin]. *)
Definition draws_selecting (bin : nat) (t : TreeNode SubCat) : nat :=
  length (filter (fun r => random_uniform_bin (fun _ => r) t = Some bin)
                 (seqZ 0 (n_elems t))).
End Sampling.

(** *** Nesting: TreeNode<...TreeNode<LeafNode>...>

    The C++ nesting depth is fixed by the type; [Node d] is the node
    type with [d] TreeNode layers above the leaves and [Classifier d]
    the matching classifier structure (a plain rate at depth 0). *)

Fixpoint Node (d : nat) : Type :=
  match d with
  | O => LeafNode
  | S d' => TreeNode (Node d')
  end.

Fixpoint Classifier (d : nat) : Type :=
  match d with
  | O => Q
  | S d' => TreeClassifier (Classifier d')
  end.

(** Default construction. *)
Definition node_new (d : nat) : Node d :=
  match d with
  | O => LeafNode_new
  | S d' => TreeNode_new (Node d')
  end.

(** get_total_rate() *)
Definition node_total_rate (d : nat) : Node d -> Q :=
  match d with
  | O => leaf_total_rate
  | S d' => total_rate (SubCat := Node d')
  end.

(** size() *)
Definition node_size (d : nat) : Node d -> Z :=
  match d with
  | O => leaf_size
  | S d' => n_elems (SubCat := Node d')
  end.

Fixpoint node_add (d : nat)
  : StateT -> Classifier d -> Q -> Z -> Node d -> option (bool * Q * Node d) :=
  match d with
  | O => fun S rate delta elem n => Some (leaf_add S rate delta elem n)
  | S d' => tree_add (Node d') (Classifier d') (node_new d') (node_add d')
  end.

Fixpoint node_remove (d : nat)
  : StateT -> Classifier d -> Q -> Z -> Node d -> option (bool * Q * Node d) :=
  match d with
  | O => fun S rate delta elem n => Some (leaf_remove S rate delta elem n)
  | S d' => tree_remove (Node d') (Classifier d') (node_new d') (node_remove d')
  end.

(** Sequences of operations on one tree.  Every operation carries the
    state its classifier calls see. *)
Inductive Op :=
  | Add (st : StateT) (elem : Z)
  | Remove (st : StateT) (elem : Z).

Definition op_state (o : Op) : StateT :=
  match o with Add st _ | Remove st _ => st end.

Definition apply_op (d : nat) (C : Classifier d) (o : Op) (t : Node d) : option (Node d) :=
  match o with
  | Add st elem => option_map snd (node_add d st C 0%Q elem t)
  | Remove st elem => option_map snd (node_remove d st C 0%Q elem t)
  end.

Fixpoint run_ops (d : nat) (C : Classifier d) (ops : list Op) (t : Node d)
  : option (Node d) :=
  match ops with
  | [] => Some t
  | o :: ops' =>
      match apply_op d C o t with
      | Some t' => run_ops d C ops' t'
      | None => None
      end
  end.

(** *** Invariants and observations *)

(** (I1): every internal node's cached total is the sum of its
    children's totals. *)
Fixpoint I1 (d : nat) : Node d -> Prop :=
  match d with
  | O => fun _ => True
  | S d' => fun t =>
      (total_rate (SubCat := Node d') t
       == Qsum (map (node_total_rate d') (cats (SubCat := Node d') t)))%Q
      /\ Forall (I1 d') (cats (SubCat := Node d') t)
  end.

(** Every internal node's n_elems is the sum of its children's sizes. *)
Fixpoint sizes_ok (d : nat) : Node d -> Prop :=
  match d with
  | O => fun _ => True
  | S d' => fun t =>
      n_elems (SubCat := Node d') t
      = foldr Z.add 0%Z (map (node_size d') (cats (SubCat := Node d') t))
      /\ Forall (sizes_ok d') (cats (SubCat := Node d') t)
  end.

(** Every leaf's cached total is its per-member rate times its size,
    the rate being the one the classifier gives for the leaf's bins. *)
Fixpoint leaves_ok (d : nat) : StateT -> Classifier d -> Node d -> Prop :=
  match d with
  | O => fun _ rate n => (leaf_total_rate n == rate * inject_Z (leaf_size n))%Q
  | S d' => fun S C t =>
      forall bin sub,
        cats (SubCat := Node d') t !! bin = Some sub ->
        leaves_ok d' S (get (SubC := Classifier d') C S bin) sub
  end.

(** Sum over the leaves of per-member rate times leaf size. *)
Fixpoint leaves_rate_sum (d : nat) : StateT -> Classifier d -> Node d -> Q :=
  match d with
  | O => fun _ rate n => (rate * inject_Z (leaf_size n))%Q
  | S d' => fun S C t =>
      Qsum (imap (fun bin sub =>
                    leaves_rate_sum d' S (get (SubC := Classifier d') C S bin) sub)
                 (cats (SubCat := Node d') t))
  end.

(** "Rates are non-negative doubles": every rate the classifier can
    hand to a leaf is non-negative. *)
Fixpoint rates_nonneg (d : nat) : Classifier d -> Prop :=
  match d with
  | O => fun rate => (0 <= rate)%Q
  | S d' => fun C => forall S bin, rates_nonneg d' (get (SubC := Classifier d') C S bin)
  end.

(** Is [elem] in the leaf its classification leads to? *)
Fixpoint present (d : nat) : StateT -> Classifier d -> Z -> Node d -> bool :=
  match d with
  | O => fun _ _ elem n => bool_decide (elem ∈ elems n)
  | S d' => fun S C elem t =>
      let bin := classify (SubC := Classifier d') C S elem in
      match cats (SubCat := Node d') t !! bin with
      | Some sub => present d' S (get (SubC := Classifier d') C S bin) elem sub
      | None => false
      end
  end.

(** The member set of the leaf reached by a path of bins (empty when a
    bin on the path does not exist). *)
Fixpoint members_at (d : nat) : list nat -> Node d -> gset Z :=
  match d with
  | O => fun _ n => elems n
  | S d' => fun path t =>
      match path with
      | [] => ∅
      | bin :: path' =>
          match cats (SubCat := Node d') t !! bin with
          | Some sub => members_at d' path' sub
          | None => ∅
          end
      end
  end.

(** The cached (total rate, size) of the node reached by a path of
    bins; a bin that does not exist counts as a default-constructed
    node. *)
Fixpoint cached_at (d : nat) : list nat -> Node d -> Q * Z :=
  match d with
  | O => fun _ n => (leaf_total_rate n, leaf_size n)
  | S d' => fun path t =>
      match path with
      | [] => (total_rate (SubCat := Node d') t, n_elems (SubCat := Node d') t)
      | bin :: path' =>
          match cats (SubCat := Node d') t !! bin with
          | Some sub => cached_at d' path' sub
          | None => (0%Q, 0%Z)
          end
      end
  end.

End Nodes.

Arguments mkTreeNode {SubCat}.
Arguments total_rate {SubCat}.
Arguments n_elems {SubCat}.
Arguments cats {SubCat}.
Arguments mkTreeClassifier {StateT SubC}.
Arguments classify {StateT SubC}.
Arguments get {StateT SubC}.
End CatNodes.

(** ** The analyzer (analyzer_main.cpp, analyzer.h) *)

Module Analyzer.

(** *** Collaborators that are not part of the sources at hand *)

(** Modelled from the spec: the Mersenne-twister generator [MTwist]
    (dependencies/mtwist.h is missing), "supplying uniform integers and
    (0,1) reals".  It is an oracle: a script of the values its next calls
    return, so that a statement for every script covers every generator.
    [rand_int n] is meant to return an integer of [0, n). *)
Record MTwist := mkMTwist {
    next_reals : list Q;
    next_ints : list Z
}.

Definition rand_real_not0 (rng : MTwist) : Q * MTwist :=
  match next_reals rng with
  | [] => (1%Q, rng)
  | x :: xs => (x, mkMTwist xs (next_ints rng))
  end.

Definition rand_int (n : Z) (rng : MTwist) : Z * MTwist :=
  match next_ints rng with
  | [] => (0%Z, rng)
  | x :: xs => (x, mkMTwist (next_reals rng) xs)
  end.

(** Modelled from the spec: [MemPoolVector<int>], the type of follow-set
    and follower-set, and [MemPoolVectorGrower<int>::add_if_possible]
    (MemPoolVector.h is missing).  A vector is an "ordered sequence" of
    ids with a preallocated room that can be exhausted; the code comment
    at the call site reads "Return whether the follow could be added, or
    if we have run out of buffer room".  [capacity] is the number of
    entries the vector can hold with the room the grower can still give
    it. *)
Record MemPoolVector := mkMemPoolVector {
    location : list Z;
    capacity : nat
}.

Definition mpv_size (v : MemPoolVector) : Z := Z.of_nat (length (location v)).

Definition add_if_possible (v : MemPoolVector) (x : Z) : bool * MemPoolVector :=
  if bool_decide (length (location v) < capacity v)
  then (true, mkMemPoolVector (location v ++ [x]) (capacity v))
  else (false, v).

(** Modelled from the spec: the "recent-retweet ring buffer of bounded
    size" of an agent, with its [add] and [check_recent] (entity.h is
    missing).  The most recent entry is first; [check_recent] gives it
    when there is one. *)
Record Retweet := mkRetweet {
    original_tweeter : Z;
    time : Q
}.

Record RetweetBuffer := mkRetweetBuffer {
    recent : list Retweet;
    buffer_size : nat
}.

Definition retweets_add (r : Retweet) (b : RetweetBuffer) : RetweetBuffer :=
  mkRetweetBuffer (take (buffer_size b) (r :: recent b)) (buffer_size b).

Definition check_recent (b : RetweetBuffer) : option Retweet := head (recent b).

(** *** Data of the analysis (field names as in the sources) *)

Record Entity := mkEntity {
    entity : Z;                 (* index of the entity type *)
    creation_time : Q;
    n_tweets : Z;
    n_retweets : Z;
    follow_set : MemPoolVector;
    follower_set : MemPoolVector;
    retweets : RetweetBuffer
}.

Definition Entity_new : Entity :=
  mkEntity 0 0 0 0 (mkMemPoolVector [] 0) (mkMemPoolVector [] 0) (mkRetweetBuffer [] 0).

(** The network: an array of entities preallocated to max_entities, and
    the number of entities in use. *)
Record Network := mkNetwork {
    entities : list Entity;
    n_entities : Z
}.

(** network[index]; used by the code with ids below the preallocated
    bound only. *)
Definition net_get (N : Network) (index : Z) : Entity :=
  nth (Z.to_nat index) (entities N) Entity_new.

Definition net_set (N : Network) (index : Z) (e : Entity) : Network :=
  mkNetwork (<[Z.to_nat index := e]> (entities N)) (n_entities N).

(** Modelled from the spec: Network::n_following and Network::follow_i
    (network.h is missing), by their names: the number of entities that
    [id] is following and the [i]-th of them, that is, the size and the
    entries of its follow-set (the analyzer names the counterpart
    n_followers next to follower_set). *)
Definition n_following (N : Network) (id : Z) : Z := mpv_size (follow_set (net_get N id)).

Definition follow_i (N : Network) (id : Z) (i : nat) : Z :=
  nth i (location (follow_set (net_get N id))) (-1)%Z.

Record EntityType := mkEntityType {
    prob_add_type : Q;
    prob_follow_type : Q;
    entity_list : list Z
}.

Record CategoryEntityList := mkCategoryEntityList {
    cat_entities : list Z
}.

Record CategoryGrouper := mkCategoryGrouper {
    categories : list CategoryEntityList
}.

Inductive FollowModel :=
  | RANDOM_FOLLOW
  | PREFERENTIAL_FOLLOW
  | ENTITY_FOLLOW
  | RETWEET_FOLLOW.

Record ParsedConfig := mkParsedConfig {
    initial_entities : Z;
    max_entities : Z;
    max_time : Q;
    follow_model : FollowModel;
    use_barabasi : bool;
    use_random_increment : Z;
    output_stdout_summary : bool
}.

Record AnalysisStats := mkAnalysisStats {
    prob_add : Q;
    prob_follow : Q;
    prob_tweet : Q;
    prob_norm : Q;
    n_steps : Z;
    n_follows : Z;
    n_tweets_total : Z;      (* stats.n_tweets *)
    n_retweets_total : Z;    (* stats.n_retweets *)
    event_rate : Q
}.

(** A row of the DATA_vs_TIME file. *)
Record SummaryRow := mkSummaryRow {
    row_time : Q;
    row_entities : Z;
    row_follows : Z;
    row_tweets : Z;
    row_retweets : Z
}.

(** The state of the [Analyzer]: the [AnalysisState] it refers to and its
    own members. *)
Record AnalysisState := mkAnalysisState {
    config : ParsedConfig;
    network : Network;
    tweet_ranks : CategoryGrouper;
    follow_ranks : CategoryGrouper;
    retweet_ranks : CategoryGrouper;
    entity_types : list EntityType;
    rng : MTwist;
    stats : AnalysisStats;
    sim_time : Q;                                   (* state.time *)
    follow_probabilities : list Q;
    updating_follow_probabilities : list Q;
    last_entity_ID : list Z;
    DATA_TIME : list SummaryRow
}.

Inductive SelectionType :=
  | FOLLOW_SELECT
  | RETWEET_SELECT
  | TWEET_SELECT.

(** static const double ZEROTOL = 1e-16 *)
Definition ZEROTOL : Q := 1 # 10000000000000000.

(** *** Field updates *)

Definition set_follow_set (e : Entity) (v : MemPoolVector) : Entity :=
  mkEntity (entity e) (creation_time e) (n_tweets e) (n_retweets e)
           v (follower_set e) (retweets e).

Definition set_follower_set (e : Entity) (v : MemPoolVector) : Entity :=
  mkEntity (entity e) (creation_time e) (n_tweets e) (n_retweets e)
           (follow_set e) v (retweets e).

Definition set_retweets (e : Entity) (b : RetweetBuffer) : Entity :=
  mkEntity (entity e) (creation_time e) (n_tweets e) (n_retweets e)
           (follow_set e) (follower_set e) b.

Definition set_n_tweets (e : Entity) (n : Z) : Entity :=
  mkEntity (entity e) (creation_time e) n (n_retweets e)
           (follow_set e) (follower_set e) (retweets e).

Definition set_n_retweets (e : Entity) (n : Z) : Entity :=
  mkEntity (entity e) (creation_time e) (n_tweets e) n
           (follow_set e) (follower_set e) (retweets e).

Definition set_creation_time (e : Entity) (t : Q) : Entity :=
  mkEntity (entity e) t (n_tweets e) (n_retweets e)
           (follow_set e) (follower_set e) (retweets e).

Definition set_entity (e : Entity) (et : Z) : Entity :=
  mkEntity et (creation_time e) (n_tweets e) (n_retweets e)
           (follow_set e) (follower_set e) (retweets e).

Definition set_entity_list (et : EntityType) (l : list Z) : EntityType :=
  mkEntityType (prob_add_type et) (prob_follow_type et) l.

Definition set_n_steps (s : AnalysisStats) (n : Z) : AnalysisStats :=
  mkAnalysisStats (prob_add s) (prob_follow s) (prob_tweet s) (prob_norm s)
                  n (n_follows s) (n_tweets_total s) (n_retweets_total s) (event_rate s).

Definition set_n_follows (s : AnalysisStats) (n : Z) : AnalysisStats :=
  mkAnalysisStats (prob_add s) (prob_follow s) (prob_tweet s) (prob_norm s)
                  (n_steps s) n (n_tweets_total s) (n_retweets_total s) (event_rate s).

Definition set_n_tweets_total (s : AnalysisStats) (n : Z) : AnalysisStats :=
  mkAnalysisStats (prob_add s) (prob_follow s) (prob_tweet s) (prob_norm s)
                  (n_steps s) (n_follows s) n (n_retweets_total s) (event_rate s).

Definition set_n_retweets_total (s : AnalysisStats) (n : Z) : AnalysisStats :=
  mkAnalysisStats (prob_add s) (prob_follow s) (prob_tweet s) (prob_norm s)
                  (n_steps s) (n_follows s) (n_tweets_total s) n (event_rate s).

Definition set_network (st : AnalysisState) (N : Network) : AnalysisState :=
  mkAnalysisState (config st) N (tweet_ranks st) (follow_ranks st) (retweet_ranks st)
                  (entity_types st) (rng st) (stats st) (sim_time st)
                  (follow_probabilities st) (updating_follow_probabilities st)
                  (last_entity_ID st) (DATA_TIME st).

Definition set_tweet_ranks (st : AnalysisState) (g : CategoryGrouper) : AnalysisState :=
  mkAnalysisState (config st) (network st) g (follow_ranks st) (retweet_ranks st)
                  (entity_types st) (rng st) (stats st) (sim_time st)
                  (follow_probabilities st) (updating_follow_probabilities st)
                  (last_entity_ID st) (DATA_TIME st).

Definition set_follow_ranks (st : AnalysisState) (g : CategoryGrouper) : AnalysisState :=
  mkAnalysisState (config st) (network st) (tweet_ranks st) g (retweet_ranks st)
                  (entity_types st) (rng st) (stats st) (sim_time st)
                  (follow_probabilities st) (updating_follow_probabilities st)
                  (last_entity_ID st) (DATA_TIME st).

Definition set_entity_types (st : AnalysisState) (l : list EntityType) : AnalysisState :=
  mkAnalysisState (config st) (network st) (tweet_ranks st) (follow_ranks st) (retweet_ranks st)
                  l (rng st) (stats st) (sim_time st)
                  (follow_probabilities st) (updating_follow_probabilities st)
                  (last_entity_ID st) (DATA_TIME st).

Definition set_rng (st : AnalysisState) (g : MTwist) : AnalysisState :=
  mkAnalysisState (config st) (network st) (tweet_ranks st) (follow_ranks st) (retweet_ranks st)
                  (entity_types st) g (stats st) (sim_time st)
                  (follow_probabilities st) (updating_follow_probabilities st)
                  (last_entity_ID st) (DATA_TIME st).

Definition set_stats (st : AnalysisState) (s : AnalysisStats) : AnalysisState :=
  mkAnalysisState (config st) (network st) (tweet_ranks st) (follow_ranks st) (retweet_ranks st)
                  (entity_types st) (rng st) s (sim_time st)
                  (follow_probabilities st) (updating_follow_probabilities st)
                  (last_entity_ID st) (DATA_TIME st).

Definition set_sim_time (st : AnalysisState) (t : Q) : AnalysisState :=
  mkAnalysisState (config st) (network st) (tweet_ranks st) (follow_ranks st) (retweet_ranks st)
                  (entity_types st) (rng st) (stats st) t
                  (follow_probabilities st) (updating_follow_probabilities st)
                  (last_entity_ID st) (DATA_TIME st).

Definition set_updating_follow_probabilities (st : AnalysisState) (l : list Q)
  : AnalysisState :=
  mkAnalysisState (config st) (network st) (tweet_ranks st) (follow_ranks st) (retweet_ranks st)
                  (entity_types st) (rng st) (stats st) (sim_time st)
                  (follow_probabilities st) l
                  (last_entity_ID st) (DATA_TIME st).

Definition set_last_entity_ID (st : AnalysisState) (l : list Z) : AnalysisState :=
  mkAnalysisState (config st) (network st) (tweet_ranks st) (follow_ranks st) (retweet_ranks st)
                  (entity_types st) (rng st) (stats st) (sim_time st)
                  (follow_probabilities st) (updating_follow_probabilities st)
                  l (DATA_TIME st).

Definition set_DATA_TIME (st : AnalysisState) (l : list SummaryRow) : AnalysisState :=
  mkAnalysisState (config st) (network st) (tweet_ranks st) (follow_ranks st) (retweet_ranks st)
                  (entity_types st) (rng st) (stats st) (sim_time st)
                  (follow_probabilities st) (updating_follow_probabilities st)
                  (last_entity_ID st) l.

(** *** Entity mutation routines *)

(** Analyzer::handle_follow: "Return whether the follow could be added,
    or if we have run out of buffer room."  [A] and [T] are references
    into the network, so the second entity is read after the first one
    has been written. *)
Definition handle_follow (actor target : Z) (N : Network) : bool * Network :=
  let A := net_get N actor in
  let '(was_added, follow_set') := add_if_possible (follow_set A) target in
  if was_added then
    let N1 := net_set N actor (set_follow_set A follow_set') in
    let T := net_get N1 target in
    let '(was_added, follower_set') := add_if_possible (follower_set T) actor in
    (true, net_set N1 target (set_follower_set T follower_set'))
  else (false, N).

(** *** Analysis routines *)

Section Routines.

(** The search loops below carry a running value, [rand_num -= p] at
    every turn, and every one of these double subtractions is rounded:
    [fsub x y] is the double the code computes for x - y.  It is a
    parameter, so that any rounding is covered; exact arithmetic is
    [Qminus]. *)
Variable fsub : Q -> Q -> Q.

(** Parts of the program that the analyzer calls and whose code is not at
    hand: [CategoryGrouper::categorize], the two routines declared in
    analyzer.h, the constant TIME_CAT_FREQ and the logarithm. *)
Variable categorize : Z -> Z -> CategoryGrouper -> CategoryGrouper.
Variable analyzer_select_entity : AnalysisState -> SelectionType -> Z * AnalysisState.
Variable analyzer_rate_update : AnalysisState -> AnalysisState.
Variable TIME_CAT_FREQ : Q.
Variable log : Q -> Q.

(** The search loop of the PREFERENTIAL_FOLLOW branch, from index [i]. *)
Fixpoint preferential_search (updating : list Q) (i : nat) (cats : list CategoryEntityList)
    (rand_num : Q) (g : MTwist) : Z * MTwist :=
  match updating with
  | [] => ((-1)%Z, g)
  | p :: updating' =>
      let C := nth i cats (mkCategoryEntityList []) in
      if Qle_bool (fsub rand_num p) ZEROTOL && negb (length (cat_entities C) =? 0)
      then
        let '(k, g') := rand_int (Z.of_nat (length (cat_entities C))) g in
        (nth (Z.to_nat k) (cat_entities C) (-1)%Z, g')
      else preferential_search updating' (S i) cats (fsub rand_num p) g
  end.

(** The search loop of the ENTITY_FOLLOW branch. *)
Fixpoint entity_search (types : list EntityType) (rand_num : Q) (g : MTwist) : Z * MTwist :=
  match types with
  | [] => ((-1)%Z, g)
  | et :: types' =>
      if Qle_bool rand_num (prob_follow_type et) && negb (length (entity_list et) =? 0)
      then
        let '(k, g') := rand_int (Z.of_nat (length (entity_list et))) g in
        (nth (Z.to_nat k) (entity_list et) (-1)%Z, g')
      else entity_search types' (fsub rand_num (prob_follow_type et)) g
  end.

(** x < y on doubles *)
Definition Qlt_bool (x y : Q) : bool := negb (Qle_bool y x).

(** The first part of action_follow_entity: the choice of
    entity_to_follow (-1 when nothing was chosen).  In the
    PREFERENTIAL_FOLLOW branch a zero sum of weights makes every
    updating_follow_probabilities[i] a NaN, with which every comparison
    is false: nothing is chosen. *)
Definition choose_entity_to_follow (entity n_entities : Z) (time_of_follow : Q)
    (st : AnalysisState) : Z * AnalysisState :=
  let e1 := net_get (network st) entity in
  let '(rand_num, g) := rand_real_not0 (rng st) in
  match follow_model (config st) with
  | RANDOM_FOLLOW =>
      let '(k, g') := rand_int n_entities g in
      (k, set_rng st g')
  | PREFERENTIAL_FOLLOW =>
      let cats := categories (follow_ranks st) in
      let weights :=
        imap (fun i p =>
                (p * inject_Z (Z.of_nat
                     (length (cat_entities (nth i cats (mkCategoryEntityList []))))))%Q)
             (follow_probabilities st) in
      let sum_of_weights := fold_left Qplus weights 0%Q in
      let updating := map (fun w => (w / sum_of_weights)%Q) weights in
      let st1 := set_updating_follow_probabilities st updating in
      if Qeq_bool sum_of_weights 0
      then ((-1)%Z, set_rng st1 g)
      else
        let '(k, g') := preferential_search updating 0 cats rand_num g in
        (k, set_rng st1 g')
  | ENTITY_FOLLOW =>
      let '(k, g') := entity_search (entity_types st) rand_num g in
      (k, set_rng st g')
  | RETWEET_FOLLOW =>
      if Qlt_bool (1 # 2) rand_num
      then
        match check_recent (retweets e1) with
        | Some retweet =>
            if Qlt_bool (time_of_follow - time retweet) 2880
            then (original_tweeter retweet, set_rng st g)
            else ((-1)%Z, set_rng st g)
        | None => ((-1)%Z, set_rng st g)
        end
      else
        let '(k, g') := rand_int n_entities g in
        (k, set_rng st g')
  end.

(** Analyzer::action_follow_entity. *)
Definition action_follow_entity (entity n_entities : Z) (time_of_follow : Q)
    (st : AnalysisState) : AnalysisState :=
  let '(entity_to_follow, st1) := choose_entity_to_follow entity n_entities time_of_follow st in
  (* check and make sure we are not following ourself, or we are following entity -1 *)
  if negb (entity =? entity_to_follow)%Z && negb (entity_to_follow =? -1)%Z
  then
    let '(added, N) := handle_follow entity entity_to_follow (network st1) in
    if added then
      let target := net_get N entity_to_follow in
      let st2 := set_network st1 N in
      let st3 := set_follow_ranks st2
                   (categorize entity_to_follow (mpv_size (follower_set target))
                               (follow_ranks st2)) in
      set_stats st3 (set_n_follows (stats st3) (n_follows (stats st3) + 1))
    else st1
  else st1.   (* Otherwise, no follow is added, this is unlikely *)

(** Analyzer::action_followback. *)
Definition action_followback (follower followee : Z) (st : AnalysisState) : AnalysisState :=
  let '(added, N) := handle_follow followee follower (network st) in
  if added then
    let target := net_get N follower in
    let st2 := set_network st N in
    let st3 := set_follow_ranks st2
                 (categorize follower (mpv_size (follower_set target)) (follow_ranks st2)) in
    set_stats st3 (set_n_follows (stats st3) (n_follows (stats st3) + 1))
  else st.

(** Analyzer::action_tweet. *)
Definition action_tweet (entity : Z) (st : AnalysisState) : AnalysisState :=
  let e := net_get (network st) entity in
  let e' := set_n_tweets e (n_tweets e + 1) in
  let st1 := set_network st (net_set (network st) entity e') in
  set_tweet_ranks st1 (categorize entity (n_tweets e') (tweet_ranks st1)).

(** The loop of action_retweet "over all the entities that witness the
    event": one ring-buffer push per index below n_following. *)
Definition push_to_audience (entity entity_retweeted : Z) (time_of_retweet : Q)
    (n_following : Z) (N : Network) : Network :=
  fold_left
    (fun N i =>
       let id := follow_i N entity i in
       let audience := net_get N id in
       let retweet := mkRetweet entity_retweeted time_of_retweet in
       net_set N id (set_retweets audience (retweets_add retweet (retweets audience))))
    (seq 0 (Z.to_nat n_following)) N.

(** The first part of action_retweet: the choice of entity_retweeted
    (-1: "No retweet should occur"). *)
Definition choose_entity_retweeted (entity : Z) (time_of_retweet : Q) (st : AnalysisState)
  : Z * AnalysisState :=
  let retweetee := net_get (network st) entity in
  let f := follow_set retweetee in
  let '(rand_num, g) := rand_real_not0 (rng st) in
  if Qlt_bool rand_num (1 # 2)
  then
    if negb (mpv_size f =? 0)%Z
    then
      let '(k, g') := rand_int (mpv_size f) g in
      (nth (Z.to_nat k) (location f) (-1)%Z, set_rng st g')
    else ((-1)%Z, set_rng st g)
  else
    match check_recent (retweets retweetee) with
    | Some retweet =>
        if Qlt_bool (time_of_retweet - time retweet) 2880
        then (original_tweeter retweet, set_rng st g)
        else ((-1)%Z, set_rng st g)
    | None => ((-1)%Z, set_rng st g)
    end.

(** Analyzer::action_retweet. *)
Definition action_retweet (entity : Z) (time_of_retweet : Q) (st : AnalysisState)
  : AnalysisState :=
  let '(entity_retweeted, st1) := choose_entity_retweeted entity time_of_retweet st in
  if negb (entity_retweeted =? -1)%Z
  then
    let n := n_following (network st1) entity in
    let N1 := push_to_audience entity entity_retweeted time_of_retweet n (network st1) in
    let retweetee := net_get N1 entity in
    let N2 := net_set N1 entity (set_n_retweets retweetee (n_retweets retweetee + 1)) in
    let st2 := set_network st1 N2 in
    set_stats st2 (set_n_retweets_total (stats st2) (n_retweets_total (stats st2) + 1))
  else st1.

(** The loop of action_create_entity over the entity types: the first
    type [et] with rand_num <= prob_add, the probabilities of the types
    before it having been subtracted, one rounded subtraction each. *)
Fixpoint choose_entity_type (types : list EntityType) (et : nat) (rand_num : Q)
  : option nat :=
  match types with
  | [] => None
  | ty :: types' =>
      if Qle_bool rand_num (prob_add_type ty) then Some et
      else choose_entity_type types' (S et) (fsub rand_num (prob_add_type ty))
  end.

(** Analyzer::action_create_entity: "Create a entity at the given index.
    The index should be an empty entity slot." *)
Definition action_create_entity (creation_time : Q) (index : Z) (st : AnalysisState)
  : AnalysisState :=
  let e := set_creation_time (net_get (network st) index) creation_time in
  let st0 := set_network st (net_set (network st) index e) in
  let '(rand_num, g) := rand_real_not0 (rng st0) in
  let st1 := set_rng st0 g in
  let st2 :=
    match choose_entity_type (entity_types st1) 0 rand_num with
    | Some et =>
        let e' := set_entity e (Z.of_nat et) in
        let ty := nth et (entity_types st1) (mkEntityType 0 0 []) in
        let types' := <[et := set_entity_list ty (entity_list ty ++ [index])]> (entity_types st1) in
        let sta := set_network st1 (net_set (network st1) index e') in
        let stb := set_entity_types sta types' in
        set_follow_ranks stb
          (categorize index (mpv_size (follower_set e')) (follow_ranks stb))
    | None => st1
    end in
  let st3 :=
    if use_barabasi (config st2)
    then action_follow_entity index index creation_time st2
    else st2 in
  set_network st3 (mkNetwork (entities (network st3)) (n_entities (network st3) + 1)).

(** Analyzer::set_initial_entities. *)
Definition set_initial_entities (st : AnalysisState) : AnalysisState :=
  fold_left (fun st i => action_create_entity 0 (Z.of_nat i) st)
            (seq 0 (Z.to_nat (initial_entities (config st)))) st.

(** floor() *)
Definition floor (x : Q) : Z := Qfloor x.

(** Analyzer::output_summary_stats: the row appended to DATA_vs_TIME
    (headers and the copy on standard output are left out). *)
Definition output_summary_stats (st : AnalysisState) : AnalysisState :=
  set_DATA_TIME st
    (DATA_TIME st ++
     [mkSummaryRow (sim_time st) (n_entities (network st)) (n_follows (stats st))
                   (n_tweets_total (stats st)) (n_retweets_total (stats st))]).

(** Analyzer::step_time. *)
Definition step_time (n_entities : Z) (st : AnalysisState) : AnalysisState :=
  let prev_milestone := floor (sim_time st / TIME_CAT_FREQ) in
  let prev_integer := floor (sim_time st) in
  let st1 :=
    if (use_random_increment (config st) =? 1)%Z
    then
      (* increment by random time *)
      let '(r, g) := rand_real_not0 (rng st) in
      set_sim_time (set_rng st g) (sim_time st + - log r / event_rate (stats st))
    else set_sim_time st (sim_time st + 1 / event_rate (stats st)) in
  (* Categorize all entities based on time, on every new time milestone. *)
  let at_milestone := (prev_milestone <? floor (sim_time st1 / TIME_CAT_FREQ))%Z in
  let st2 :=
    if at_milestone
    then set_last_entity_ID st1 (last_entity_ID st1 ++ [n_entities])
    else st1 in
  if output_stdout_summary (config st2) && (prev_integer <? floor (sim_time st2))%Z
  then output_summary_stats st2
  else st2.

(** Analyzer::step_analysis: "Performs one step of the analysis
    routine." *)
Definition step_analysis (st : AnalysisState) : AnalysisState :=
  let '(u_1, g1) := rand_real_not0 (rng st) in
  let '(rand_num, g2) := rand_real_not0 g1 in
  let st0 := set_rng st g2 in
  let N := n_entities (network st0) in
  let s := stats st0 in
  (* DECIDE WHAT TO DO: *)
  let st1 :=
    if Qle_bool (u_1 - prob_add s) ZEROTOL
    then action_create_entity (sim_time st0) N st0
    else if Qle_bool (u_1 - (prob_add s + prob_follow s)) ZEROTOL
    then
      let '(entity, sta) := analyzer_select_entity st0 FOLLOW_SELECT in
      action_follow_entity entity N (sim_time sta) sta
    else if Qle_bool (u_1 - (prob_add s + prob_follow s + prob_tweet s)) ZEROTOL
    then
      let '(entity, sta) := analyzer_select_entity st0 TWEET_SELECT in
      let stb := action_tweet entity sta in
      set_stats stb (set_n_tweets_total (stats stb) (n_tweets_total (stats stb) + 1))
    else if Qle_bool (u_1 - (prob_add s + prob_follow s + prob_tweet s + prob_norm s)) ZEROTOL
    then
      let '(entity, sta) := analyzer_select_entity st0 RETWEET_SELECT in
      action_retweet entity (sim_time sta) sta
    else st0 (* "Disaster, event out of bounds" *) in
  let st2 := step_time N st1 in
  let st3 := set_stats st2 (set_n_steps (stats st2) (n_steps (stats st2) + 1)) in
  (* update the rates if n_entities has changed *)
  analyzer_rate_update st3.

(** The condition of the loop of run_network_simulation; [ctrl_c] is the
    value of CTRL_C_ATTEMPTS read by the test. *)
Definition loop_condition (ctrl_c : Z) (st : AnalysisState) : bool :=
  Qlt_bool (sim_time st) (max_time (config st))
  && (n_entities (network st) <? max_entities (config st))%Z
  && (ctrl_c =? 0)%Z.

(** Analyzer::run_network_simulation.  CTRL_C_ATTEMPTS is a volatile
    counter raised by the SIGINT handler: [CTRL_C_ATTEMPTS k] is the value
    the [k]-th test of the loop condition reads.  [fuel] bounds the number
    of steps; [None] when it is used up. *)
Fixpoint run_network_simulation (fuel : nat) (CTRL_C_ATTEMPTS : nat -> Z) (k : nat)
    (st : AnalysisState) : option AnalysisState :=
  if loop_condition (CTRL_C_ATTEMPTS k) st
  then
    match fuel with
    | O => None
    | S fuel' => run_network_simulation fuel' CTRL_C_ATTEMPTS (S k) (step_analysis st)
    end
  else Some st.

End Routines.

(** *** Observations on the state *)

(** The directed edge a -> b as each of its two ends records it. *)
Definition follows (N : Network) (a b : Z) : Prop :=
  b ∈ location (follow_set (net_get N a)).

Definition followed_by (N : Network) (b a : Z) : Prop :=
  a ∈ location (follower_set (net_get N b)).

Definition edge_symmetry (N : Network) : Prop :=
  forall a b,
    (0 <= a < n_entities N)%Z -> (0 <= b < n_entities N)%Z ->
    (follows N a b <-> followed_by N b a).

(** The counters of AnalysisStats. *)
Definition some_counter_incremented (s s' : AnalysisStats) : Prop :=
  (n_steps s < n_steps s')%Z
  \/ (n_follows s < n_follows s')%Z
  \/ (n_tweets_total s < n_tweets_total s')%Z
  \/ (n_retweets_total s < n_retweets_total s')%Z.

(** The value of rand_num when the loop of action_create_entity reaches
    the type of index [k]: the draw after the add probabilities of the
    types before [k] have been subtracted, one rounded subtraction each. *)
Definition draw_at (fsub : Q -> Q -> Q) (types : list EntityType) (k : nat) (rand_num : Q)
  : Q :=
  fold_left (fun r ty => fsub r (prob_add_type ty)) (take k types) rand_num.

(** A follow action is rejected when the chosen entity is the actor
    itself, when nothing was chosen (-1), or when the actor's follow-set
    has no room left. *)
Definition follow_rejected (fsub : Q -> Q -> Q) (entity n : Z) (t : Q) (st : AnalysisState)
  : Prop :=
  let '(target, st1) := choose_entity_to_follow fsub entity n t st in
  target = entity \/ target = (-1)%Z
  \/ fst (handle_follow entity target (network st1)) = false.

End Analyzer.

(** ** The tweet bank (tweets.cpp) *)

Module TweetBank.

Record Tweet := mkTweet {
    id_tweeter : Z;
    creation_time : Q;
    retweet_time_bin : Z;
    retweet_next_rebin_time : Q
}.

Definition set_retweet_time_bin (t : Tweet) (bin : Z) : Tweet :=
  mkTweet (id_tweeter t) (creation_time t) bin (retweet_next_rebin_time t).

Definition set_retweet_next_rebin_time (t : Tweet) (x : Q) : Tweet :=
  mkTweet (id_tweeter t) (creation_time t) (retweet_time_bin t) x.

(** Modelled from the spec: [TimeDepRateTree], the rate tree of the bank
    (tweets.h is missing): the live tweets by reference id, each with its
    data and its current reaction rate, the cached total, and the number
    of age bins.  [remove] takes a tweet out of the bank with its rate;
    [replace_rate] is "locate entity, update ancestor totals by the
    delta". *)
Record TimeDepRateTree := mkTimeDepRateTree {
    elements : gmap Z (Tweet * Q);
    bank_total_rate : Q;
    n_bins : Z
}.

(** Writing through the reference [tree.get(id).data]. *)
Definition set_data (id : Z) (t : Tweet) (tree : TimeDepRateTree) : TimeDepRateTree :=
  match elements tree !! id with
  | Some (_, rate) =>
      mkTimeDepRateTree (<[id := (t, rate)]> (elements tree)) (bank_total_rate tree) (n_bins tree)
  | None => tree
  end.

Definition remove (id : Z) (tree : TimeDepRateTree) : TimeDepRateTree :=
  match elements tree !! id with
  | Some (_, rate) =>
      mkTimeDepRateTree (delete id (elements tree)) (bank_total_rate tree - rate) (n_bins tree)
  | None => tree
  end.

Definition replace_rate (id : Z) (rates : Q) (tree : TimeDepRateTree) : TimeDepRateTree :=
  match elements tree !! id with
  | Some (t, rate) =>
      mkTimeDepRateTree (<[id := (t, rates)]> (elements tree))
                        (bank_total_rate tree + (rates - rate)) (n_bins tree)
  | None => tree
  end.

Section Checker.

(** TweetRateDeterminer::get_cat_threshold and ::get_rate: the age at
    which a bin ends, and the reaction rate of a tweet in a bin (the
    latter reads the follower set of the tweeter in the network). *)
Variable get_cat_threshold : Z -> Q.
Variable get_rate : Tweet -> Z -> Q.

(** TimeDepRateTree::ElementChecker::check(id), for the checker's [time].
    [None]: [id] does not refer to a tweet of the bank (the sampling only
    passes candidates it found in the tree).  The printf calls are left
    out. *)
Definition check (time : Q) (id : Z) (tree : TimeDepRateTree)
  : option (bool * TimeDepRateTree) :=
  match elements tree !! id with
  | None => None
  | Some (t, _) =>
      if Analyzer.Qlt_bool (retweet_next_rebin_time t) time
      then
        (* Move to a new bin: *)
        let t1 := set_retweet_time_bin t (retweet_time_bin t + 1) in
        let tree1 := set_data id t1 tree in
        if (n_bins tree1 <=? retweet_time_bin t1)%Z
        then Some (false, remove id tree1)
        else
          let t2 := set_retweet_next_rebin_time t1
                      (creation_time t1 + get_cat_threshold (retweet_time_bin t1)) in
          let tree2 := set_data id t2 tree1 in
          let rates := get_rate t2 (retweet_time_bin t2) in
          Some (false, replace_rate id rates tree2)
      else Some (true, tree)
  end.

(** The checker as the specification words it: the tweet is removed "if
    the new index exceeds the configured bin count". *)
Definition check_as_stated (time : Q) (id : Z) (tree : TimeDepRateTree)
  : option (bool * TimeDepRateTree) :=
  match elements tree !! id with
  | None => None
  | Some (t, _) =>
      if Analyzer.Qlt_bool (retweet_next_rebin_time t) time
      then
        let t1 := set_retweet_time_bin t (retweet_time_bin t + 1) in
        let tree1 := set_data id t1 tree in
        if (n_bins tree1 <? retweet_time_bin t1)%Z
        then Some (false, remove id tree1)
        else
          let t2 := set_retweet_next_rebin_time t1
                      (creation_time t1 + get_cat_threshold (retweet_time_bin t1)) in
          let tree2 := set_data id t2 tree1 in
          let rates := get_rate t2 (retweet_time_bin t2) in
          Some (false, replace_rate id rates tree2)
      else Some (true, tree)
  end.

End Checker.

End TweetBank.

(** ** The rate tree: recalculation and observations by path *)

Module CatNodesOps.
Import CatNodes.

Section Ops.
Context {StateT : Type}.

(** LeafNode::recalc_rates(N, rate): total_rate = rate * elems.size(),
    which is also the value returned. *)
Definition leaf_recalc_rates (N : StateT) (rate : Q) (n : LeafNode) : Q * LeafNode :=
  let total := (rate * inject_Z (leaf_size n))%Q in
  (total, mkLeafNode total (elems n)).

Section RecalcLayer.
Variables SubCat SubC : Type.
Variable sub_recalc_rates : StateT -> SubC -> SubCat -> Q * SubCat.

(** The loop of TreeNode::recalc_rates from bin [i] on, [total] being the
    value of total_rate so far. *)
Fixpoint recalc_loop (S : StateT) (C : TreeClassifier SubC) (cs : list SubCat) (i : nat)
    (total : Q) : Q * list SubCat :=
  match cs with
  | [] => (total, [])
  | c :: cs' =>
      let '(r, c') := sub_recalc_rates S (get C S i) c in
      let '(total', cs'') := recalc_loop S C cs' (Datatypes.S i) (total + r)%Q in
      (total', c' :: cs'')
  end.

(** TreeNode::recalc_rates(S, C). *)
Definition tree_recalc_rates (S : StateT) (C : TreeClassifier SubC) (t : TreeNode SubCat)
  : Q * TreeNode SubCat :=
  let '(total, cs) := recalc_loop S C (cats t) 0 0%Q in
  (total, mkTreeNode total (n_elems t) cs).
End RecalcLayer.

Fixpoint node_recalc_rates (d : nat) : StateT -> Classifier d -> Node d -> Q * Node d :=
  match d with
  | O => leaf_recalc_rates
  | S d' => tree_recalc_rates (Node d') (Classifier d') (node_recalc_rates d')
  end.

(** The bins an element is classified into, layer by layer. *)
Fixpoint class_path (d : nat) : StateT -> Classifier d -> Z -> list nat :=
  match d with
  | O => fun _ _ _ => []
  | S d' => fun S C elem =>
      let bin := classify (SubC := Classifier d') C S elem in
      bin :: class_path d' S (get (SubC := Classifier d') C S bin) elem
  end.

(** The rate handed to the leaf an element is classified into. *)
Fixpoint class_rate (d : nat) : StateT -> Classifier d -> Z -> Q :=
  match d with
  | O => fun _ rate _ => rate
  | S d' => fun S C elem =>
      let bin := classify (SubC := Classifier d') C S elem in
      class_rate d' S (get (SubC := Classifier d') C S bin) elem
  end.

(** Sum over the leaves of the number of members. *)
Fixpoint leaves_size_sum (d : nat) : Node d -> Z :=
  match d with
  | O => leaf_size
  | S d' => fun t =>
      foldr Z.add 0%Z (map (leaves_size_sum d') (cats (SubCat := Node d') t))
  end.

(** (I3): every member sits in the leaf its classification leads to. *)
Definition well_placed (d : nat) (S : StateT) (C : Classifier d) (t : Node d) : Prop :=
  forall path elem,
    length path = d -> elem ∈ members_at d path t -> path = class_path d S C elem.

End Ops.
End CatNodesOps.

(** ** The rate tree: transfer and shift of the bins *)

Module CatNodesShift.
Import CatNodes CatNodesOps.

Section Shift.
Context {StateT : Type}.

(** The order in which the iterator of google::sparse_hash_set yields the
    members of a set: the order of the slots of its table, which the code
    of the tree does not fix. *)
Variable hash_order : gset Z -> list Z.

Section Target.
(** The node [o] that receives the members has [k] layers above its
    leaves; [C] is its classifier. *)
Variable k : nat.

(** The loop of LeafNode::transfer: o.add(N, C, delta, *it), with delta =
    0.0, for every member; what add returns is not looked at. *)
Fixpoint transfer_elems (S : StateT) (C : Classifier k) (es : list Z) (o : Node k)
  : option (Node k) :=
  match es with
  | [] => Some o
  | e :: es' =>
      match node_add k S C 0%Q e o with
      | Some (_, _, o') => transfer_elems S C es' o'
      | None => None
      end
  end.

(** LeafNode::transfer(N, C, o): the members are added to [o], then
    elems.clear(); total_rate is left as it was. *)
Definition leaf_transfer (S : StateT) (C : Classifier k) (n : LeafNode) (o : Node k)
  : option (LeafNode * Node k) :=
  match transfer_elems S C (hash_order (elems n)) o with
  | Some o' => Some (mkLeafNode (leaf_total_rate n) ∅, o')
  | None => None
  end.

Section TransferLayer.
Variable SubCat : Type.
Variable sub_transfer :
  StateT -> @Classifier StateT k -> SubCat -> Node k -> option (SubCat * Node k).

(** cats[i].transfer(S, C, o) for the bins of [cs] in turn.  The bins
    themselves, emptied by the call, are dropped by their owner after the
    loop. *)
Fixpoint transfer_cats (S : StateT) (C : Classifier k) (cs : list SubCat) (o : Node k)
  : option (Node k) :=
  match cs with
  | [] => Some o
  | c :: cs' =>
      match sub_transfer S C c o with
      | Some (_, o') => transfer_cats S C cs' o'
      | None => None
      end
  end.

(** TreeNode::transfer(S, C, o): every bin is transferred, then
    cats.clear(); total_rate and n_elems are left as they were. *)
Definition tree_transfer (S : StateT) (C : Classifier k) (t : TreeNode SubCat) (o : Node k)
  : option (TreeNode SubCat * Node k) :=
  match transfer_cats S C (cats t) o with
  | Some o' => Some (mkTreeNode (total_rate t) (n_elems t) [], o')
  | None => None
  end.
End TransferLayer.

Fixpoint node_transfer (d : nat)
  : StateT -> Classifier k -> Node d -> Node k -> option (Node d * Node k) :=
  match d with
  | O => leaf_transfer
  | S d' => tree_transfer (Node d') (node_transfer d')
  end.

End Target.

(** TreeNode::swap(o): the three fields are exchanged. *)
Definition tree_swap {SubCat : Type} (t o : TreeNode SubCat)
  : TreeNode SubCat * TreeNode SubCat :=
  (mkTreeNode (total_rate o) (n_elems o) (cats o),
   mkTreeNode (total_rate t) (n_elems t) (cats t)).

(** The first loop of shift_and_recalc_rates, from index [i] down to 1:
    cats[i].swap(cats[i-1]). *)
Fixpoint shift_loop {SubCat : Type} (i : nat) (cs : list (TreeNode SubCat))
  : list (TreeNode SubCat) :=
  match i with
  | O => cs
  | S i' =>
      let '(a, b) := tree_swap (nth (S i') cs (TreeNode_new SubCat))
                               (nth i' cs (TreeNode_new SubCat)) in
      shift_loop i' (<[i' := b]> (<[S i' := a]> cs))
  end.

(** TreeNode::shift_and_recalc_rates(S, C), "Useful for time-dependent
    rates".  The bins are swapped, so they are TreeNodes themselves: the
    node has at least two layers.  [C_size] is the value of C.size().
    With C.size() = 0 the second loop indexes cats[max - 1] outside the
    vector, which is not modelled ([None]); [None] is also an add
    stopped by its DEBUG_CHECK. *)
Definition shift_and_recalc_rates (d : nat) (C_size : nat) (S : StateT)
    (C : TreeClassifier (TreeClassifier (Classifier d)))
    (t : TreeNode (TreeNode (Node d))) : option (TreeNode (TreeNode (Node d))) :=
  let new := TreeNode_new (Node d) in
  (* cats.resize(cats.size() + 1) *)
  let cs0 := cats t ++ [new] in
  (* Empty category should be swapped into first slot by end *)
  let cs1 := shift_loop (length cs0 - 1) cs0 in
  (* Collapse all categories that are more than the intended maximum *)
  match C_size with
  | O => None
  | Datatypes.S last =>
      match transfer_cats (Datatypes.S d) (TreeNode (Node d))
              (node_transfer (Datatypes.S d) (Datatypes.S d))
              S (get C S last) (drop C_size cs1) (nth last cs1 new) with
      | None => None
      | Some o =>
          let cs2 := <[last := o]> cs1 in
          (* cats.resize(C.size()) *)
          let cs3 := resize C_size new cs2 in
          Some (snd (tree_recalc_rates (TreeNode (Node d)) (TreeClassifier (Classifier d))
                       (node_recalc_rates (Datatypes.S d)) S C
                       (mkTreeNode (total_rate t) (n_elems t) cs3)))
      end
  end.

(** [x] is a member of some leaf of the subtree [t]. *)
Definition member_of (d : nat) (t : Node d) (x : Z) : Prop :=
  exists p, length p = d /\ x ∈ members_at d p t.

End Shift.
End CatNodesShift.

(** ** The rate tree in double arithmetic *)

Module CatNodesRounded.
Import CatNodes CatNodesOps.

Section Rounded.
Context {StateT : Type}.

(** total_rate is a double and every [total_rate += delta] is rounded:
    [fadd x y] is the double the code computes for x + y.  It is a
    parameter, so that any rounding is covered; exact arithmetic is
    [Qplus], with which the operations below are those of [CatNodes].
    The deltas themselves are a rate or its negation and are not
    rounded. *)
Variable fadd : Q -> Q -> Q.

(** LeafNode::add(N, rate, delta, elem). *)
Definition leaf_add_rnd (N : StateT) (rate : Q) (delta : Q) (elem : Z) (n : LeafNode)
  : bool * Q * LeafNode :=
  let '(unique, n1) := leaf_insert elem n in
  if unique then
    let delta := rate in
    (true, delta, mkLeafNode (fadd (leaf_total_rate n1) delta) (elems n1))
  else (false, delta, n1).

(** LeafNode::remove(N, rate, delta, elem). *)
Definition leaf_remove_rnd (N : StateT) (rate : Q) (delta : Q) (elem : Z) (n : LeafNode)
  : bool * Q * LeafNode :=
  let '(erased, elems') := hash_erase elem (elems n) in
  if bool_decide (0 < erased) then
    let delta := (- rate)%Q in
    (true, delta, mkLeafNode (fadd (leaf_total_rate n) delta) elems')
  else (false, delta, mkLeafNode (leaf_total_rate n) elems').

Section Layer.
Variables SubCat SubC : Type.
Variable sub_new : SubCat.
Variable sub_add sub_remove :
  StateT -> SubC -> Q -> Z -> SubCat -> option (bool * Q * SubCat).

(** TreeNode::add(S, C, ret, elem). *)
Definition tree_add_rnd (S : StateT) (C : TreeClassifier SubC) (ret : Q) (elem : Z)
    (t : TreeNode SubCat) : option (bool * Q * TreeNode SubCat) :=
  let delta := 0%Q in
  let bin := classify C S elem in
  let cs := ensure_bin SubCat sub_new bin (cats t) in
  match sub_add S (get C S bin) delta elem (nth bin cs sub_new) with
  | None => None
  | Some (true, delta, sub) =>
      (* DEBUG_CHECK(delta >= 0, "Negative rate delta on 'add'!") *)
      if Qle_bool 0 delta
      then Some (true, delta,
                 mkTreeNode (fadd (total_rate t) delta) (n_elems t + 1) (<[bin := sub]> cs))
      else None
  | Some (false, _, sub) =>
      Some (false, ret, mkTreeNode (total_rate t) (n_elems t) (<[bin := sub]> cs))
  end.

(** TreeNode::remove(S, C, ret, elem). *)
Definition tree_remove_rnd (S : StateT) (C : TreeClassifier SubC) (ret : Q) (elem : Z)
    (t : TreeNode SubCat) : option (bool * Q * TreeNode SubCat) :=
  let delta := 0%Q in
  let bin := classify C S elem in
  let cs := ensure_bin SubCat sub_new bin (cats t) in
  match sub_remove S (get C S bin) delta elem (nth bin cs sub_new) with
  | None => None
  | Some (true, delta, sub) =>
      (* DEBUG_CHECK(delta <= 0, "Positive rate delta on 'remove'!") *)
      if Qle_bool delta 0
      then Some (true, delta,
                 mkTreeNode (fadd (total_rate t) delta) (n_elems t - 1) (<[bin := sub]> cs))
      else None
  | Some (false, _, sub) =>
      Some (false, ret, mkTreeNode (total_rate t) (n_elems t) (<[bin := sub]> cs))
  end.
End Layer.

Fixpoint node_add_rnd (d : nat)
  : StateT -> Classifier d -> Q -> Z -> Node d -> option (bool * Q * Node d) :=
  match d with
  | O => fun S rate delta elem n => Some (leaf_add_rnd S rate delta elem n)
  | S d' => tree_add_rnd (Node d') (Classifier d') (node_new d') (node_add_rnd d')
  end.

Fixpoint node_remove_rnd (d : nat)
  : StateT -> Classifier d -> Q -> Z -> Node d -> option (bool * Q * Node d) :=
  match d with
  | O => fun S rate delta elem n => Some (leaf_remove_rnd S rate delta elem n)
  | S d' => tree_remove_rnd (Node d') (Classifier d') (node_new d') (node_remove_rnd d')
  end.

Definition apply_op_rnd (d : nat) (C : Classifier d) (o : Op) (t : Node d)
  : option (Node d) :=
  match o with
  | Add st elem => option_map snd (node_add_rnd d st C 0%Q elem t)
  | Remove st elem => option_map snd (node_remove_rnd d st C 0%Q elem t)
  end.

Fixpoint run_ops_rnd (d : nat) (C : Classifier d) (ops : list Op) (t : Node d)
  : option (Node d) :=
  match ops with
  | [] => Some t
  | o :: ops' =>
      match apply_op_rnd d C o t with
      | Some t' => run_ops_rnd d C ops' t'
      | None => None
      end
  end.

(** Two classifiers hand the same rate to every leaf, whatever the
    states they are asked in. *)
Fixpoint same_rates (d : nat) : @Classifier StateT d -> @Classifier StateT d -> Prop :=
  match d with
  | O => fun r1 r2 => (r1 == r2)%Q
  | S d' => fun C1 C2 =>
      forall S1 S2 bin,
        same_rates d' (get (SubC := Classifier d') C1 S1 bin)
                      (get (SubC := Classifier d') C2 S2 bin)
  end.

(** The rates of a classifier do not depend on the state (the bins an
    element is classified into may). *)
Definition state_free_rates (d : nat) (C : @Classifier StateT d) : Prop := same_rates d C C.

End Rounded.

(** [x] is within [b] of [y]. *)
Definition within (b x y : Q) : Prop := (- b <= x - y)%Q /\ (x - y <= b)%Q.

(** (I1) up to [b]: every internal node's cached total is within [b] of
    the sum of its children's totals. *)
Fixpoint drift_within (d : nat) (b : Q) : Node d -> Prop :=
  match d with
  | O => fun _ => True
  | S d' => fun t =>
      within b (total_rate (SubCat := Node d') t)
               (Qsum (map (node_total_rate d') (cats (SubCat := Node d') t)))
      /\ Forall (drift_within d' b) (cats (SubCat := Node d') t)
  end.

(** Two trees have the same bins, sizes and members; their cached totals
    may differ. *)
Fixpoint same_members (d : nat) : Node d -> Node d -> Prop :=
  match d with
  | O => fun n1 n2 => elems n1 = elems n2
  | S d' => fun t1 t2 =>
      n_elems (SubCat := Node d') t1 = n_elems (SubCat := Node d') t2
      /\ Forall2 (same_members d') (cats (SubCat := Node d') t1) (cats (SubCat := Node d') t2)
  end.

End CatNodesRounded.

(** ** The tweet bank: rates and repeated checks *)

Module TweetBankOps.
Import CatNodes TweetBank.

(** Modelled from the spec: the follower set of an agent, "a RateTree
    nested by language x distance-bin x preference-class" (entity.h is
    missing): three TreeNode layers above the leaves; [children()] of a
    node are its bins.  The rate vector [TweetReactRateVec] has one
    element, to which [add(0, rate)] adds. *)
Definition FollowerSet : Type := TreeNode (TreeNode (TreeNode LeafNode)).

(** The terminal bins in the order of the three nested loops of
    get_rate. *)
Definition pref_cats (followers : FollowerSet) : list LeafNode :=
  lang_cat ← cats followers; dist_cat ← cats lang_cat; cats dist_cat.

(** TweetRateDeterminer::get_rate(tweet, bin), [follower_set_of] giving
    the follower set of an entity of the network.  [None]: the
    DEBUG_CHECK "Amount of entities in the follower set don't match up!"
    fails.  The observation probability of [bin] is read by the code but
    does not enter the rates. *)
Definition get_rate (follower_set_of : Z -> FollowerSet) (tweet : Tweet) (bin : Z)
  : option Q :=
  let followers := follower_set_of (id_tweeter tweet) in
  let rates :=
    fold_left (fun rates pref_cat => (rates + leaf_total_rate pref_cat)%Q)
              (pref_cats followers) 0%Q in
  let n_elems :=
    fold_left (fun n pref_cat => (n + leaf_size pref_cat)%Z) (pref_cats followers) 0%Z in
  if (n_elems =? CatNodes.n_elems followers)%Z then Some rates else None.

Section Checks.
Variable get_cat_threshold : Z -> Q.
Variable get_rate_of : Tweet -> Z -> Q.

(** A run of checks, each with its time and candidate, as the sampling
    makes them one after the other; the result of each is recorded next
    to its candidate. *)
Fixpoint run_checks (checks : list (Q * Z)) (tree : TimeDepRateTree)
  : list (Z * option bool) * TimeDepRateTree :=
  match checks with
  | [] => ([], tree)
  | (time, id) :: rest =>
      match check get_cat_threshold get_rate_of time id tree with
      | None =>
          let '(results, tree') := run_checks rest tree in
          ((id, None) :: results, tree')
      | Some (ok, tree1) =>
          let '(results, tree') := run_checks rest tree1 in
          ((id, Some ok) :: results, tree')
      end
  end.

(** The number of checks of [id] that returned false. *)
Definition failed_checks (id : Z) (results : list (Z * option bool)) : nat :=
  length (filter (fun r => r = (id, Some false)) results).

End Checks.
End TweetBankOps.

(** ** Concrete inputs *)

Module Examples.
Import CatNodes Analyzer TweetBank.

(** *** Rate trees *)

(** A two-layer tree over [unit] states: the outer layer bins by parity,
    the inner one by residue modulo 3; the rate of a leaf is 1/2 in even
    bins and 2 in odd ones. *)
Definition example_classifier : Classifier (StateT := unit) 2 :=
  mkTreeClassifier
    (fun _ elem => Z.to_nat (elem mod 2))
    (fun _ bin =>
       mkTreeClassifier
         (fun _ elem => Z.to_nat (elem mod 3))
         (fun _ _ => if Nat.even bin then (1 # 2)%Q else 2%Q)).

Definition example_ops : list (@Op unit) :=
  [Add tt 4; Add tt 7; Add tt 4; Add tt 9; Remove tt 7; Remove tt 5; Add tt 10].

(** One layer above the leaves, bins by residue modulo 4; 5 is the only
    member. *)
Definition one_layer_classifier : Classifier (StateT := unit) 1 :=
  mkTreeClassifier (fun _ elem => Z.to_nat (elem mod 4)) (fun _ _ => (1 # 2)%Q).

Definition one_layer_tree : Node 1 :=
  mkTreeNode (1 # 2) 1 [mkLeafNode 0 ∅; mkLeafNode (1 # 2) {[5%Z]}].

(** Two leaves of totals 1 and 2 under a cached total that drifted up to
    7/2; the draw 19/20 puts the running value above their sum. *)
Definition drifted_tree : TreeNode LeafNode :=
  mkTreeNode (7 # 2) 3 [mkLeafNode 1 {[1%Z]}; mkLeafNode 2 {[2%Z; 3%Z]}].

(** A node with two bins holding 1 and 4 members. *)
Definition two_bins : TreeNode LeafNode :=
  mkTreeNode 5 5 [mkLeafNode 1 {[10%Z]}; mkLeafNode 4 {[20%Z; 21%Z; 22%Z; 23%Z]}].

(** A node with a single bin of 5 members. *)
Definition one_bin : TreeNode LeafNode :=
  mkTreeNode 5 5 [mkLeafNode 5 {[20%Z; 21%Z; 22%Z; 23%Z; 24%Z]}].

(** *** Analyzer states *)

(** An entity with the given follow-set and follower-set (with their
    capacities) and a retweet buffer of two entries. *)
Definition entity_with (fs : list Z) (fs_cap : nat) (frs : list Z) (frs_cap : nat) : Entity :=
  mkEntity 0 0 0 0 (mkMemPoolVector fs fs_cap) (mkMemPoolVector frs frs_cap)
           (mkRetweetBuffer [] 2).

(** Three entities; 2 follows 1, and the follower-set of 1 has no room
    left. *)
Definition crowded_network : Network :=
  mkNetwork [entity_with [] 4 [] 4; entity_with [] 4 [2%Z] 1; entity_with [1%Z] 4 [] 4] 3.

(** Concrete stand-ins for the routines whose code is not at hand: a
    grouper that keeps its categories, a selection that always returns
    entity 0, a rate update that changes nothing, the month as milestone
    and a constant logarithm. *)
Definition categorize_id (id n : Z) (g : CategoryGrouper) : CategoryGrouper := g.
Definition select_first (st : AnalysisState) (ty : SelectionType) : Z * AnalysisState := (0%Z, st).
Definition rate_update_id (st : AnalysisState) : AnalysisState := st.
Definition month : Q := 43200.
Definition log_zero (x : Q) : Q := 0.

Definition example_config (model : FollowModel) : ParsedConfig :=
  mkParsedConfig 2 10 1000 model false 0 false.

(** A state in which the follow event is the only possible one. *)
Definition example_state (model : FollowModel) (N : Network) (g : MTwist) : AnalysisState :=
  mkAnalysisState (example_config model) N (mkCategoryGrouper []) (mkCategoryGrouper [])
    (mkCategoryGrouper []) [mkEntityType 1 1 [0%Z; 1%Z]] g
    (mkAnalysisStats 0 1 0 0 0 0 0 0 1) 0 [] [] [] [].

(** Two entities A = 0 and B = 1 with room in all their sets, and a
    generator whose integer draw makes A choose B. *)
Definition two_entities : Network :=
  mkNetwork [entity_with [] 4 [] 4; entity_with [] 4 [] 4] 2.

Definition follow_B : MTwist := mkMTwist [(1 # 2)%Q; (1 # 2)%Q; (1 # 2)%Q] [1%Z].

(** The reactor 0 follows 1 and is followed by 2. *)
Definition retweet_network : Network :=
  mkNetwork [entity_with [1%Z] 4 [2%Z] 4; entity_with [] 4 [0%Z] 4; entity_with [0%Z] 4 [] 4] 3.

Definition retweet_followee : MTwist := mkMTwist [(1 # 4)%Q] [0%Z].

(** A generator whose integer draw makes entity 0 choose itself. *)
Definition follow_self : MTwist := mkMTwist [(1 # 2)%Q] [0%Z].

(** The two slots of the network are in use: n_entities = max_entities,
    while time 0 is far below max_time, no interrupt was sent, and the
    follow event has probability 1. *)
Definition full_state : AnalysisState :=
  mkAnalysisState (mkParsedConfig 2 2 1000 RANDOM_FOLLOW false 0 false)
    two_entities (mkCategoryGrouper []) (mkCategoryGrouper []) (mkCategoryGrouper [])
    [mkEntityType 1 1 [0%Z; 1%Z]] follow_B
    (mkAnalysisStats 0 1 0 0 0 0 0 0 1) 0 [] [] [] [].

Definition no_interrupt (k : nat) : Z := 0%Z.

(** *** Tweet banks *)

(** Three age bins of thresholds 10, 30 and 70 minutes; tweet 7 was
    created at time 0 by entity 1, is in the last bin (index 2) and is due
    for rebinning at time 70. *)
Definition thresholds (bin : Z) : Q := inject_Z (10 * (2 ^ (bin + 1) - 1)).
Definition constant_rate (t : Tweet) (bin : Z) : Q := 1 # 2.

Definition old_tweet : Tweet := mkTweet 1 0 2 70.
Definition young_tweet : Tweet := mkTweet 1 0 0 10.

Definition small_bank : TimeDepRateTree :=
  mkTimeDepRateTree {[ 7%Z := (old_tweet, (1 # 2)%Q); 8%Z := (young_tweet, (1 # 2)%Q) ]} 1 3.

End Examples.

(** ** Further concrete inputs *)

Module MoreExamples.
Import CatNodes Analyzer TweetBank TweetBankOps Examples.

(** The follow event is the only possible one, the follow model selects
    by entity type, and no entity is entered in the list of its type. *)
Definition unlisted_state : AnalysisState :=
  mkAnalysisState (example_config ENTITY_FOLLOW) two_entities (mkCategoryGrouper [])
    (mkCategoryGrouper []) (mkCategoryGrouper [])
    [mkEntityType (1 # 2) (1 # 2) []; mkEntityType (1 # 2) (1 # 2) []] follow_B
    (mkAnalysisStats 0 1 0 0 0 0 0 0 1) 0 [] [] [] [].

(** A follower set with one language, one distance bin and two preference
    classes holding one and two followers at rates 1/2 each. *)
Definition small_followers : FollowerSet :=
  mkTreeNode (3 # 2) 3
    [mkTreeNode (3 # 2) 3
       [mkTreeNode (3 # 2) 3 [mkLeafNode (1 # 2) {[1%Z]}; mkLeafNode 1 {[2%Z; 3%Z]}]]].

(** Checks of the tweets 7 and 8 of the small bank, and of a tweet that is
    not in it. *)
Definition some_checks : list (Q * Z) :=
  [(71%Q, 7%Z); (72%Q, 7%Z); (5%Q, 8%Z); (11%Q, 8%Z); (31%Q, 8%Z); (80%Q, 9%Z); (90%Q, 8%Z)].

(** One layer above the leaves over boolean states, a single bin whose
    per-member rate is 1 in state [true] and 2 in state [false]; element
    1 is added in the first state and element 2 in the second. *)
Definition changing_rates : Classifier (StateT := bool) 1 :=
  mkTreeClassifier (fun (_ : bool) (_ : Z) => 0)
                   (fun (S : bool) (_ : nat) => if S then 1%Q else 2%Q).

Definition changing_ops : list (@Op bool) := [Add true 1%Z; Add false 2%Z].

(** An addition that rounds its result down to a multiple of 1/1024. *)
Definition grid_add (x y : Q) : Q := inject_Z (Qfloor ((x + y) * 1024)) * (1 # 1024).

(** The state of the two entities with max_time = 3: at the rate of one
    event per minute the loop makes three steps and exits. *)
Definition short_run_state : AnalysisState :=
  mkAnalysisState (mkParsedConfig 2 10 3 RANDOM_FOLLOW false 0 false)
    two_entities (mkCategoryGrouper []) (mkCategoryGrouper []) (mkCategoryGrouper [])
    [mkEntityType 1 1 [0%Z; 1%Z]] follow_B
    (mkAnalysisStats 0 1 0 0 0 0 0 0 1) 0 [] [] [] [].

(** A subtraction that rounds its result down to a multiple of 1/4. *)
Definition coarse_sub (x y : Q) : Q := inject_Z (Qfloor ((x - y) * 4)) / 4.

(** A tree of two layers whose two age bins hold {6, 12} and {1, 7}. *)
Definition aged_tree : TreeNode (TreeNode LeafNode) :=
  mkTreeNode 3 4
    [mkTreeNode 1 2 [mkLeafNode 1 {[6%Z; 12%Z]}];
     mkTreeNode 2 2 [mkLeafNode 0 ∅; mkLeafNode 2 {[1%Z; 7%Z]}]].

End MoreExamples.

(** * Properties *)

(** ** Sums of rationals *)

Lemma Qsum_cons x l : (Qsum (x :: l) == x + Qsum l)%Q.
Proof. reflexivity. Qed.

Lemma Qsum_app l1 l2 : (Qsum (l1 ++ l2) == Qsum l1 + Qsum l2)%Q.
Proof.
  induction l1 as [|x l1 IH].
  - change (Qsum l2 == 0 + Qsum l2)%Q. lra.
  - change (x + Qsum (l1 ++ l2) == x + Qsum l1 + Qsum l2)%Q. lra.
Qed.

(** Replacing the [i]-th summand by [y] changes the sum by [y - x]. *)
Lemma Qsum_map_insert {A} (f : A -> Q) (l : list A) (i : nat) (x y : A) :
  l !! i = Some x ->
  (Qsum (map f (<[i := y]> l)) == Qsum (map f l) - f x + f y)%Q.
Proof.
  revert i. induction l as [|a l IH]; intros [|i] Hi; simpl in Hi; try discriminate.
  - injection Hi as ->.
    change (f y + Qsum (map f l) == f x + Qsum (map f l) - f x + f y)%Q. lra.
  - specialize (IH i Hi).
    change (f a + Qsum (map f (<[i:=y]> l)) == f a + Qsum (map f l) - f x + f y)%Q. lra.
Qed.

(** ** The rate tree: effect of [add] and [remove] *)

Module CatNodesFacts.
Import CatNodes Examples.

Section Facts.
Context {StateT : Type}.

Lemma leaf_insert_unique elem (n : LeafNode) :
  leaf_insert elem n
  = (bool_decide (elem ∉ elems n), mkLeafNode (leaf_total_rate n) ({[elem]} ∪ elems n)).
Proof.
  unfold leaf_insert. f_equal. apply bool_decide_ext.
  destruct (decide (elem ∈ elems n)) as [Hin|Hnin].
  - assert ({[elem]} ∪ elems n = elems n) as -> by set_solver.
    split; [lia | tauto].
  - rewrite size_union by set_solver. rewrite size_singleton.
    split; [tauto | lia].
Qed.

Lemma ensure_bin_length {A} (new : A) bin cs :
  bin < length (ensure_bin A new bin cs).
Proof.
  unfold ensure_bin. case_bool_decide.
  - rewrite length_app, length_replicate. lia.
  - lia.
Qed.

Lemma ensure_bin_lookup {A} (new : A) bin cs i x :
  ensure_bin A new bin cs !! i = Some x -> cs !! i = Some x \/ (cs !! i = None /\ x = new).
Proof.
  unfold ensure_bin. case_bool_decide; [|tauto].
  intros Hl. apply lookup_app_Some in Hl as [Hl|[Hge Hl]]; [tauto|].
  apply lookup_replicate in Hl as [-> _]. right. split; [|done].
  by apply lookup_ge_None.
Qed.

Lemma ensure_bin_keeps {A} (new : A) bin cs i x :
  cs !! i = Some x -> ensure_bin A new bin cs !! i = Some x.
Proof.
  intros Hl. unfold ensure_bin. case_bool_decide; [|done].
  by apply lookup_app_l_Some.
Qed.

Lemma ensure_bin_id {A} (new : A) bin cs :
  bin < length cs -> ensure_bin A new bin cs = cs.
Proof. intros Hl. unfold ensure_bin. case_bool_decide; [lia | done]. Qed.

Lemma ensure_bin_nth {A} (new : A) bin cs :
  ensure_bin A new bin cs !! bin = Some (nth bin (ensure_bin A new bin cs) new).
Proof.
  pose proof (ensure_bin_length new bin cs) as Hlt.
  apply lookup_lt_is_Some in Hlt as [x Hx].
  rewrite Hx. f_equal. symmetry. by apply nth_lookup_Some.
Qed.

Lemma ensure_bin_Qsum {A} (f : A -> Q) (new : A) bin cs :
  (f new == 0)%Q ->
  (Qsum (map f (ensure_bin A new bin cs)) == Qsum (map f cs))%Q.
Proof.
  intros Hnew. unfold ensure_bin. case_bool_decide; [|reflexivity].
  rewrite map_app, Qsum_app.
  assert (Qsum (map f (replicate (bin + 1 - length cs) new)) == 0)%Q as ->.
  { generalize (bin + 1 - length cs). intros k. induction k as [|k IH].
    - reflexivity.
    - change (f new + Qsum (map f (replicate k new)) == 0)%Q. lra. }
  lra.
Qed.

Lemma node_new_total d : node_total_rate d (node_new d) = 0%Q.
Proof. by destruct d. Qed.

Lemma node_new_size d : node_size d (node_new d) = 0%Z.
Proof. by destruct d. Qed.

Lemma node_new_I1 d : I1 d (node_new d).
Proof. destruct d; simpl; [done|]. split; [reflexivity | constructor]. Qed.

Lemma node_new_sizes_ok d : sizes_ok d (node_new d).
Proof. destruct d; simpl; [done|]. split; [reflexivity | constructor]. Qed.

Lemma node_new_leaves_ok d (S : StateT) (C : Classifier d) : leaves_ok d S C (node_new d).
Proof.
  destruct d; simpl.
  - change (0 == C * inject_Z (Z.of_nat (size (∅ : gset Z))))%Q.
    rewrite size_empty. change (0 == C * 0)%Q. lra.
  - intros bin sub Hl. discriminate.
Qed.

Lemma Zsum_map_insert {A} (f : A -> Z) (l : list A) (i : nat) (x y : A) :
  l !! i = Some x ->
  foldr Z.add 0%Z (map f (<[i := y]> l)) = (foldr Z.add 0 (map f l) - f x + f y)%Z.
Proof.
  revert i. induction l as [|a l IH]; intros [|i] Hi; simpl in *; try discriminate.
  - injection Hi as ->. lia.
  - rewrite (IH i Hi). lia.
Qed.

Lemma ensure_bin_Zsum {A} (f : A -> Z) (new : A) bin cs :
  f new = 0%Z ->
  foldr Z.add 0%Z (map f (ensure_bin A new bin cs)) = foldr Z.add 0%Z (map f cs).
Proof.
  intros Hnew. unfold ensure_bin. case_bool_decide; [|reflexivity].
  rewrite map_app, foldr_app.
  assert (foldr Z.add 0%Z (map f (replicate (bin + 1 - length cs) new)) = 0%Z) as ->.
  { generalize (bin + 1 - length cs). intros k. induction k as [|k IH]; simpl; lia. }
  reflexivity.
Qed.

Lemma ensure_bin_Forall {A} (P : A -> Prop) (new : A) bin cs :
  P new -> Forall P cs -> Forall P (ensure_bin A new bin cs).
Proof.
  intros Hnew Hcs. unfold ensure_bin. case_bool_decide; [|done].
  apply Forall_app. split; [done|]. by apply Forall_replicate.
Qed.

(** What a layer's update of one bin does to the invariants, given what
    the bin's own update did. *)
Lemma layer_update_I1 d (t : TreeNode (Node d)) bin (sub' : Node d) (dlt : Q) :
  let cs := ensure_bin (Node d) (node_new d) bin (cats t) in
  (node_total_rate d sub' == node_total_rate d (nth bin cs (node_new d)) + dlt)%Q ->
  (I1 d (nth bin cs (node_new d)) -> I1 d sub') ->
  I1 (S d) t ->
  I1 (S d) (mkTreeNode (total_rate t + dlt) (n_elems t) (<[bin := sub']> cs)).
Proof.
  intros cs Htot Hsub [Ht Hall]. split.
  - pose proof (Qsum_map_insert (node_total_rate d) cs bin _ sub'
                  (ensure_bin_nth (node_new d) bin (cats t))) as H1.
    assert (node_total_rate d (node_new d) == 0)%Q as H0
      by (rewrite node_new_total; reflexivity).
    pose proof (ensure_bin_Qsum (node_total_rate d) (node_new d) bin (cats t) H0) as H2.
    fold cs in H1, H2.
    change (total_rate t + dlt == Qsum (map (node_total_rate d) (<[bin:=sub']> cs)))%Q.
    lra.
  - change (Forall (I1 d) (<[bin:=sub']> cs)).
    assert (Forall (I1 d) cs) as Hcs by (apply ensure_bin_Forall; [apply node_new_I1 | done]).
    apply Forall_insert; [done|]. apply Hsub.
    rewrite Forall_lookup in Hcs. eapply Hcs. apply ensure_bin_nth.
Qed.

Lemma layer_update_sizes d (t : TreeNode (Node d)) bin (sub' : Node d) (k : Z) (r : Q) :
  let cs := ensure_bin (Node d) (node_new d) bin (cats t) in
  node_size d sub' = (node_size d (nth bin cs (node_new d)) + k)%Z ->
  (sizes_ok d (nth bin cs (node_new d)) -> sizes_ok d sub') ->
  sizes_ok (S d) t ->
  sizes_ok (S d) (mkTreeNode r (n_elems t + k) (<[bin := sub']> cs)).
Proof.
  intros cs Hsz Hsub [Ht Hall]. split.
  - pose proof (Zsum_map_insert (node_size d) cs bin _ sub'
                  (ensure_bin_nth (node_new d) bin (cats t))) as H1.
    pose proof (ensure_bin_Zsum (node_size d) (node_new d) bin (cats t)
                  (node_new_size d)) as H2.
    fold cs in H1, H2.
    change (n_elems t + k
            = foldr Z.add 0 (map (node_size d) (<[bin:=sub']> cs)))%Z.
    lia.
  - change (Forall (sizes_ok d) (<[bin:=sub']> cs)).
    assert (Forall (sizes_ok d) cs) as Hcs
      by (apply ensure_bin_Forall; [apply node_new_sizes_ok | done]).
    apply Forall_insert; [done|]. apply Hsub.
    rewrite Forall_lookup in Hcs. eapply Hcs. apply ensure_bin_nth.
Qed.

(** The effect of one [add]: totals and sizes move by the returned
    delta (by nothing when the element was already there), and the
    invariants are kept. *)
Lemma node_add_effect d :
  forall (S : StateT) (C : Classifier d) ret elem t ok delta t',
    node_add d S C ret elem t = Some (ok, delta, t') ->
    (node_total_rate d t' == node_total_rate d t + (if ok then delta else 0))%Q
    /\ node_size d t' = (node_size d t + (if ok then 1 else 0))%Z
    /\ (I1 d t -> I1 d t')
    /\ (sizes_ok d t -> sizes_ok d t').
Proof.
  induction d as [|d IH]; intros S C ret elem t ok delta t' Hadd.
  - simpl in Hadd. unfold leaf_add in Hadd. rewrite leaf_insert_unique in Hadd.
    case_bool_decide as Hin; injection Hadd as <- <- <-; simpl.
    + unfold leaf_size; simpl. rewrite size_union by set_solver.
      rewrite size_singleton. split; [reflexivity|]. split; [lia | done].
    + unfold leaf_size; simpl.
      assert ({[elem]} ∪ elems t = elems t) as -> by set_solver.
      split; [lra|]. split; [lia | done].
  - simpl in Hadd. unfold tree_add in Hadd. cbv zeta in Hadd.
    match type of Hadd with context [nth ?b _ _] => set (bin := b) in * end.
    match type of Hadd with context [nth _ ?l _] => set (cs := l) in * end.
    match type of Hadd with
    | match ?x with _ => _ end = _ => destruct x as [[[ok1 d1] sub]|] eqn:Hsub
    end; [|discriminate].
    destruct (IH _ _ _ _ _ _ _ _ Hsub) as (Htot & Hsz & HI1 & Hsizes).
    destruct ok1; cbv beta iota in Hadd.
    + destruct (Qle_bool 0 d1); [|discriminate].
      injection Hadd as <- <- <-. simpl. split; [reflexivity|]. split; [reflexivity|].
      split; intros Hinv.
      * by apply layer_update_I1.
      * by apply (layer_update_sizes d t bin sub 1 (total_rate t + d1)%Q).
    + injection Hadd as <- <- <-.
      split; [symmetry; apply Qplus_0_r|]. split; [symmetry; apply Z.add_0_r|].
      split; intros Hinv.
      * pose proof (layer_update_I1 d t bin sub 0 Htot HI1 Hinv) as [H1 H2].
        split; [|exact H2].
        etransitivity; [|exact H1]. symmetry. apply Qplus_0_r.
      * pose proof (layer_update_sizes d t bin sub 0 (total_rate t) Hsz Hsizes Hinv) as H.
        by rewrite Z.add_0_r in H.
Qed.

Lemma size_remove_member (elem : Z) (s : gset Z) :
  elem ∈ s -> size s = S (size (s ∖ {[elem]})).
Proof.
  intros Hin.
  assert (s = {[elem]} ∪ s ∖ {[elem]}) as Heq.
  { apply set_eq. intros x. rewrite elem_of_union, elem_of_difference, elem_of_singleton.
    destruct (decide (x = elem)) as [->|]; naive_solver. }
  rewrite Heq at 1. rewrite size_union by set_solver. by rewrite size_singleton.
Qed.

Lemma difference_absent (elem : Z) (s : gset Z) : elem ∉ s -> s ∖ {[elem]} = s.
Proof. intros Hnin. set_solver. Qed.

(** The effect of one [remove]. *)
Lemma node_remove_effect d :
  forall (S : StateT) (C : Classifier d) ret elem t ok delta t',
    node_remove d S C ret elem t = Some (ok, delta, t') ->
    (node_total_rate d t' == node_total_rate d t + (if ok then delta else 0))%Q
    /\ node_size d t' = (node_size d t + (if ok then -1 else 0))%Z
    /\ (I1 d t -> I1 d t')
    /\ (sizes_ok d t -> sizes_ok d t').
Proof.
  induction d as [|d IH]; intros S C ret elem t ok delta t' Hrem.
  - simpl in Hrem. unfold leaf_remove, hash_erase in Hrem.
    destruct (decide (elem ∈ elems t)) as [Hin|Hnin].
    + rewrite (bool_decide_eq_true_2 _ Hin) in Hrem. simpl in Hrem.
      injection Hrem as <- <- <-. simpl. unfold leaf_size; simpl.
      rewrite (size_remove_member _ _ Hin). split; [reflexivity|]. split; [lia | done].
    + rewrite (bool_decide_eq_false_2 _ Hnin) in Hrem. simpl in Hrem.
      injection Hrem as <- <- <-. simpl. unfold leaf_size; simpl.
      rewrite (difference_absent _ _ Hnin).
      split; [symmetry; apply Qplus_0_r|]. split; [lia | done].
  - simpl in Hrem. unfold tree_remove in Hrem. cbv zeta in Hrem.
    match type of Hrem with context [nth ?b _ _] => set (bin := b) in * end.
    match type of Hrem with context [nth _ ?l _] => set (cs := l) in * end.
    match type of Hrem with
    | match ?x with _ => _ end = _ => destruct x as [[[ok1 d1] sub]|] eqn:Hsub
    end; [|discriminate].
    destruct (IH _ _ _ _ _ _ _ _ Hsub) as (Htot & Hsz & HI1 & Hsizes).
    destruct ok1; cbv beta iota in Hrem.
    + destruct (Qle_bool d1 0); [|discriminate].
      injection Hrem as <- <- <-. simpl. split; [reflexivity|]. split; [reflexivity|].
      split; intros Hinv.
      * by apply layer_update_I1.
      * by apply (layer_update_sizes d t bin sub (-1) (total_rate t + d1)%Q).
    + injection Hrem as <- <- <-.
      split; [symmetry; apply Qplus_0_r|]. split; [symmetry; apply Z.add_0_r|].
      split; intros Hinv.
      * pose proof (layer_update_I1 d t bin sub 0 Htot HI1 Hinv) as [H1 H2].
        split; [|exact H2].
        etransitivity; [|exact H1]. symmetry. apply Qplus_0_r.
      * pose proof (layer_update_sizes d t bin sub 0 (total_rate t) Hsz Hsizes Hinv) as H.
        by rewrite Z.add_0_r in H.
Qed.

(** With one state throughout, every leaf keeps its total equal to rate
    times size. *)
Lemma layer_update_leaves d (S : StateT) (C : TreeClassifier (Classifier d))
    (t : TreeNode (Node d)) bin (sub' : Node d) (r : Q) (k : Z) :
  let cs := ensure_bin (Node d) (node_new d) bin (cats t) in
  (leaves_ok d S (get C S bin) (nth bin cs (node_new d)) ->
   leaves_ok d S (get C S bin) sub') ->
  leaves_ok (Datatypes.S d) S C t ->
  leaves_ok (Datatypes.S d) S C (mkTreeNode r k (<[bin := sub']> cs)).
Proof.
  intros cs Hsub Hinv i x Hl. simpl in Hl.
  assert (forall j y, cs !! j = Some y -> leaves_ok d S (get C S j) y) as Hcs.
  { intros j y Hj. apply ensure_bin_lookup in Hj as [Hj|[_ ->]].
    - by apply Hinv.
    - apply node_new_leaves_ok. }
  destruct (decide (i = bin)) as [->|Hne].
  - rewrite list_lookup_insert_eq in Hl by apply ensure_bin_length.
    injection Hl as <-. apply Hsub, Hcs, ensure_bin_nth.
  - rewrite list_lookup_insert_ne in Hl by done. by apply Hcs.
Qed.

Lemma node_add_leaves d :
  forall (S : StateT) (C : Classifier d) ret elem t ok delta t',
    node_add d S C ret elem t = Some (ok, delta, t') ->
    leaves_ok d S C t -> leaves_ok d S C t'.
Proof.
  induction d as [|d IH]; intros S C ret elem t ok delta t' Hadd Hinv.
  - simpl in Hadd. unfold leaf_add in Hadd. rewrite leaf_insert_unique in Hadd.
    simpl in Hinv. unfold leaf_size in Hinv.
    case_bool_decide as Hin; injection Hadd as <- <- <-.
    + change (leaf_total_rate t + C
              == C * inject_Z (Z.of_nat (size ({[elem]} ∪ elems t))))%Q.
      rewrite size_union by set_solver. rewrite size_singleton.
      change (1 + size (elems t)) with (Datatypes.S (size (elems t))).
      rewrite Nat2Z.inj_succ. unfold Z.succ. rewrite inject_Z_plus.
      change (inject_Z 1) with 1%Q. lra.
    + change (leaf_total_rate t
              == C * inject_Z (Z.of_nat (size ({[elem]} ∪ elems t))))%Q.
      assert ({[elem]} ∪ elems t = elems t) as -> by set_solver. exact Hinv.
  - simpl in Hadd. unfold tree_add in Hadd. cbv zeta in Hadd.
    match type of Hadd with context [nth ?b _ _] => set (bin := b) in * end.
    match type of Hadd with context [nth _ ?l _] => set (cs := l) in * end.
    match type of Hadd with
    | match ?x with _ => _ end = _ => destruct x as [[[ok1 d1] sub]|] eqn:Hsub
    end; [|discriminate].
    pose proof (IH _ _ _ _ _ _ _ _ Hsub) as Hleaf.
    destruct ok1; cbv beta iota in Hadd.
    + destruct (Qle_bool 0 d1); [|discriminate].
      injection Hadd as <- <- <-. by apply layer_update_leaves.
    + injection Hadd as <- <- <-. by apply layer_update_leaves.
Qed.

Lemma node_remove_leaves d :
  forall (S : StateT) (C : Classifier d) ret elem t ok delta t',
    node_remove d S C ret elem t = Some (ok, delta, t') ->
    leaves_ok d S C t -> leaves_ok d S C t'.
Proof.
  induction d as [|d IH]; intros S C ret elem t ok delta t' Hrem Hinv.
  - simpl in Hrem. unfold leaf_remove, hash_erase in Hrem.
    simpl in Hinv. unfold leaf_size in Hinv.
    destruct (decide (elem ∈ elems t)) as [Hin|Hnin].
    + rewrite (bool_decide_eq_true_2 _ Hin) in Hrem. simpl in Hrem.
      injection Hrem as <- <- <-.
      change (leaf_total_rate t + - C
              == C * inject_Z (Z.of_nat (size (elems t ∖ {[elem]}))))%Q.
      rewrite (size_remove_member _ _ Hin), Nat2Z.inj_succ in Hinv.
      unfold Z.succ in Hinv. rewrite inject_Z_plus in Hinv.
      change (inject_Z 1) with 1%Q in Hinv. lra.
    + rewrite (bool_decide_eq_false_2 _ Hnin) in Hrem. simpl in Hrem.
      injection Hrem as <- <- <-.
      change (leaf_total_rate t
              == C * inject_Z (Z.of_nat (size (elems t ∖ {[elem]}))))%Q.
      rewrite (difference_absent _ _ Hnin). exact Hinv.
  - simpl in Hrem. unfold tree_remove in Hrem. cbv zeta in Hrem.
    match type of Hrem with context [nth ?b _ _] => set (bin := b) in * end.
    match type of Hrem with context [nth _ ?l _] => set (cs := l) in * end.
    match type of Hrem with
    | match ?x with _ => _ end = _ => destruct x as [[[ok1 d1] sub]|] eqn:Hsub
    end; [|discriminate].
    pose proof (IH _ _ _ _ _ _ _ _ Hsub) as Hleaf.
    destruct ok1; cbv beta iota in Hrem.
    + destruct (Qle_bool d1 0); [|discriminate].
      injection Hrem as <- <- <-. by apply layer_update_leaves.
    + injection Hrem as <- <- <-. by apply layer_update_leaves.
Qed.

Lemma node_add_S d :
  node_add (StateT := StateT) (Datatypes.S d)
  = tree_add (Node d) (Classifier d) (node_new d) (node_add d).
Proof. reflexivity. Qed.

Lemma node_remove_S d :
  node_remove (StateT := StateT) (Datatypes.S d)
  = tree_remove (Node d) (Classifier d) (node_new d) (node_remove d).
Proof. reflexivity. Qed.

(** With non-negative rates no DEBUG_CHECK fires: every [add] and
    every [remove] returns. *)
Lemma node_add_total d :
  forall (S : StateT) (C : Classifier d) ret elem t,
    rates_nonneg d C ->
    exists ok delta t',
      node_add d S C ret elem t = Some (ok, delta, t')
      /\ (ok = true -> (0 <= delta)%Q).
Proof.
  induction d as [|d IH]; intros S C ret elem t Hnn.
  - simpl. unfold leaf_add. destruct (leaf_insert elem t) as [[] n1].
    + eexists _, _, _. split; [reflexivity|]. intros _. exact Hnn.
    + eexists _, _, _. split; [reflexivity|]. discriminate.
  - rewrite node_add_S. unfold tree_add. cbv zeta.
    match goal with |- context [nth ?b _ _] => set (bin := b) end.
    match goal with |- context [nth _ ?l _] => set (cs := l) end.
    match goal with
    | |- context [match ?x with _ => _ end] =>
        match x with
        | _ _ _ ?c ?r _ ?n =>
            destruct (IH S c r elem n (Hnn S bin)) as (ok1 & d1 & sub & -> & Hd1)
        end
    end.
    destruct ok1.
    + assert (Qle_bool 0 d1 = true) as -> by (apply Qle_bool_iff; auto).
      eexists _, _, _. split; [reflexivity|]. auto.
    + eexists _, _, _. split; [reflexivity|]. discriminate.
Qed.

Lemma node_remove_total d :
  forall (S : StateT) (C : Classifier d) ret elem t,
    rates_nonneg d C ->
    exists ok delta t',
      node_remove d S C ret elem t = Some (ok, delta, t')
      /\ (ok = true -> (delta <= 0)%Q).
Proof.
  induction d as [|d IH]; intros S C ret elem t Hnn.
  - simpl. unfold leaf_remove, hash_erase. simpl in Hnn.
    case_bool_decide.
    + eexists _, _, _. split; [reflexivity|]. intros _. lra.
    + eexists _, _, _. split; [reflexivity|]. discriminate.
  - rewrite node_remove_S. unfold tree_remove. cbv zeta.
    match goal with |- context [nth ?b _ _] => set (bin := b) end.
    match goal with |- context [nth _ ?l _] => set (cs := l) end.
    match goal with
    | |- context [match ?x with _ => _ end] =>
        match x with
        | _ _ _ ?c ?r _ ?n =>
            destruct (IH S c r elem n (Hnn S bin)) as (ok1 & d1 & sub & -> & Hd1)
        end
    end.
    destruct ok1.
    + assert (Qle_bool d1 0 = true) as -> by (apply Qle_bool_iff; auto).
      eexists _, _, _. split; [reflexivity|]. auto.
    + eexists _, _, _. split; [reflexivity|]. discriminate.
Qed.

Lemma Qsum_map_imap {A} (f : A -> Q) (g : nat -> A -> Q) (l : list A) :
  (forall i x, l !! i = Some x -> (f x == g i x)%Q) ->
  (Qsum (map f l) == Qsum (imap g l))%Q.
Proof.
  revert g. induction l as [|a l IH]; intros g Hfg.
  - reflexivity.
  - pose proof (Hfg 0 a eq_refl) as Ha.
    pose proof (IH (g ∘ Datatypes.S) (fun i x Hl => Hfg (Datatypes.S i) x Hl)) as Hl.
    change (f a + Qsum (map f l) == g O a + Qsum (imap (g ∘ Datatypes.S) l))%Q.
    lra.
Qed.

(** (I1) together with the leaf equation gives the root equation. *)
Lemma total_is_leaves_rate_sum d :
  forall (S : StateT) (C : Classifier d) (t : Node d),
    I1 d t -> leaves_ok d S C t ->
    (node_total_rate d t == leaves_rate_sum d S C t)%Q.
Proof.
  induction d as [|d IH]; intros S C t HI1 Hleaf.
  - exact Hleaf.
  - destruct HI1 as [Ht Hall].
    change (total_rate t
            == Qsum (imap (fun bin sub => leaves_rate_sum d S (get C S bin) sub) (cats t)))%Q.
    rewrite Ht. apply Qsum_map_imap. intros i x Hl. apply IH.
    + rewrite Forall_lookup in Hall. by eapply Hall.
    + by apply Hleaf.
Qed.

Lemma apply_op_invariants d (C : Classifier d) (o : @Op StateT) (t : Node d) :
  rates_nonneg d C ->
  exists t', apply_op d C o t = Some t'
    /\ (I1 d t -> I1 d t')
    /\ (sizes_ok d t -> sizes_ok d t')
    /\ (leaves_ok d (op_state o) C t -> leaves_ok d (op_state o) C t').
Proof.
  intros Hnn. destruct o as [S elem|S elem]; simpl.
  - destruct (node_add_total d S C 0%Q elem t Hnn) as (ok & dl & t' & Hadd & _).
    exists t'. rewrite Hadd. split; [reflexivity|].
    destruct (node_add_effect d _ _ _ _ _ _ _ _ Hadd) as (_ & _ & H1 & H2).
    split; [exact H1|]. split; [exact H2|]. by eapply node_add_leaves.
  - destruct (node_remove_total d S C 0%Q elem t Hnn) as (ok & dl & t' & Hrem & _).
    exists t'. rewrite Hrem. split; [reflexivity|].
    destruct (node_remove_effect d _ _ _ _ _ _ _ _ Hrem) as (_ & _ & H1 & H2).
    split; [exact H1|]. split; [exact H2|]. by eapply node_remove_leaves.
Qed.

Lemma run_ops_invariants d (C : Classifier d) (ops : list (@Op StateT)) :
  rates_nonneg d C ->
  forall t, exists t', run_ops d C ops t = Some t'
    /\ (I1 d t -> I1 d t')
    /\ (sizes_ok d t -> sizes_ok d t')
    /\ (forall S, Forall (fun o => op_state o = S) ops ->
                  leaves_ok d S C t -> leaves_ok d S C t').
Proof.
  intros Hnn. induction ops as [|o ops IH]; intros t.
  - exists t. simpl. auto.
  - destruct (apply_op_invariants d C o t Hnn) as (t1 & Hop & H1 & H2 & H3).
    destruct (IH t1) as (t' & Hrun & G1 & G2 & G3).
    exists t'. simpl. rewrite Hop. split; [exact Hrun|].
    split; [auto|]. split; [auto|].
    intros S Hall Hleaf. apply Forall_cons in Hall as [<- Hall]. auto.
Qed.

(** *** Failed mutations *)

Lemma present_new d (S : StateT) (C : Classifier d) elem :
  present d S C elem (node_new d) = false.
Proof.
  destruct d; simpl.
  - apply bool_decide_eq_false_2. set_solver.
  - reflexivity.
Qed.

Lemma members_at_new d path : members_at d path (node_new d) = ∅.
Proof. destruct d; [reflexivity|]. by destruct path. Qed.

Lemma cached_at_new d path : cached_at d path (node_new d) = (0%Q, 0%Z).
Proof.
  destruct d.
  - unfold cached_at, node_new, LeafNode_new, leaf_size. cbn [leaf_total_rate elems].
    by rewrite size_empty.
  - by destruct path.
Qed.

Lemma ensure_bin_lookup_None {A} (new : A) bin cs i :
  ensure_bin A new bin cs !! i = None -> cs !! i = None.
Proof.
  intros Hn. destruct (cs !! i) as [x|] eqn:Hl; [|done].
  by rewrite (ensure_bin_keeps new bin cs i x Hl) in Hn.
Qed.

Lemma present_add_noop d :
  forall (S : StateT) (C : Classifier d) ret elem t,
    present d S C elem t = true ->
    node_add d S C ret elem t = Some (false, ret, t).
Proof.
  induction d as [|d IH]; intros S C ret elem t Hp.
  - simpl in Hp. apply bool_decide_eq_true_1 in Hp.
    simpl. unfold leaf_add. rewrite leaf_insert_unique.
    rewrite bool_decide_eq_false_2 by tauto.
    destruct t as [tot es]. simpl in *. do 3 f_equal. set_solver.
  - simpl in Hp.
    match type of Hp with
    | match ?x with _ => _ end = _ => destruct x as [sub|] eqn:Hl
    end; [|discriminate].
    rewrite node_add_S. unfold tree_add. cbv zeta.
    rewrite (ensure_bin_id (node_new d)) by (by eapply lookup_lt_Some).
    rewrite (nth_lookup_Some _ _ (node_new d) _ Hl).
    rewrite (IH _ _ 0%Q _ _ Hp). rewrite (list_insert_id _ _ _ Hl).
    by destruct t.
Qed.

Lemma absent_remove_noop d :
  forall (S : StateT) (C : Classifier d) ret elem t,
    present d S C elem t = false ->
    exists t',
      node_remove d S C ret elem t = Some (false, ret, t')
      /\ forall path,
           members_at d path t' = members_at d path t
           /\ cached_at d path t' = cached_at d path t.
Proof.
  induction d as [|d IH]; intros S C ret elem t Hp.
  - simpl in Hp. apply bool_decide_eq_false_1 in Hp.
    exists t. simpl. unfold leaf_remove, hash_erase.
    rewrite (bool_decide_eq_false_2 _ Hp). simpl.
    rewrite (difference_absent _ _ Hp). by destruct t.
  - change (TreeNode (Node d)) in t. change (@TreeClassifier StateT (@Classifier StateT d)) in C.
    rewrite node_remove_S. unfold tree_remove. cbv zeta.
    match goal with |- context [nth ?b _ _] => set (bin := b) end.
    match goal with |- context [nth _ ?l _] => set (cs := l) end.
    assert (present d S (get C S bin) elem (nth bin cs (node_new d)) = false) as Hsub.
    { simpl in Hp. fold bin in Hp. destruct (cats t !! bin) as [sub|] eqn:Hl.
      - unfold cs.
        by rewrite (nth_lookup_Some _ _ (node_new d) _ (ensure_bin_keeps (node_new d) bin _ _ _ Hl)).
      - assert (nth bin cs (node_new d) = node_new d) as ->; [|apply present_new].
        pose proof (ensure_bin_nth (node_new d) bin (cats t)) as Hn. fold cs in Hn.
        apply ensure_bin_lookup in Hn as [Hn|[_ Hn]]; [congruence | done]. }
    destruct (IH S _ 0%Q elem _ Hsub) as (sub' & Hrem & Hsame).
    match goal with
    | |- context [match ?x with _ => _ end] => change x with
          (node_remove d S (get (SubC := Classifier d) C S bin) 0%Q elem
             (nth bin cs (node_new d)))
    end.
    rewrite Hrem. eexists. split; [reflexivity|].
    intros [|b path]; [done|]. simpl.
    assert (forall p, members_at d p (nth bin cs (node_new d))
                      = match cats t !! bin with
                        | Some sub => members_at d p sub | None => ∅ end
                      /\ cached_at d p (nth bin cs (node_new d))
                        = match cats t !! bin with
                          | Some sub => cached_at d p sub | None => (0%Q, 0%Z) end)
      as Hnth.
    { intros p. pose proof (ensure_bin_nth (node_new d) bin (cats t)) as Hn. fold cs in Hn.
      apply ensure_bin_lookup in Hn as [Hn|[Hn ->]]; rewrite Hn; [done|].
      by rewrite members_at_new, cached_at_new. }
    destruct (decide (b = bin)) as [->|Hne].
    + rewrite list_lookup_insert_eq by apply ensure_bin_length.
      destruct (Hsame path) as [-> ->]. apply Hnth.
    + rewrite list_lookup_insert_ne by done.
      destruct (cs !! b) as [x|] eqn:Hb.
      * apply ensure_bin_lookup in Hb as [->|[-> ->]]; [done|].
        by rewrite members_at_new, cached_at_new.
      * by rewrite (ensure_bin_lookup_None _ _ _ _ Hb).
Qed.

Lemma cached_at_nil d (t : Node d) :
  cached_at d [] t = (node_total_rate d t, node_size d t).
Proof. by destruct d. Qed.

(** C10 (as the code has it).  [add] of an element that is already in
    its classified bin returns false and leaves the node as it was;
    [remove] of an element that is not in its classified bin returns
    false and leaves total_rate, n_elems and the member set of every bin
    as they were, at the node and at every node below it; the node may
    differ from the one given only by empty bins that [ensure_bin] has
    appended (a bin that does not exist counting as one with total 0,
    size 0 and no member). *)
Theorem failed_mutation_keeps_totals_and_members
    d (S : StateT) (C : Classifier d) (ret : Q) (elem : Z) (t : Node d) :
  (present d S C elem t = true ->
     node_add d S C ret elem t = Some (false, ret, t))
  /\ (present d S C elem t = false ->
       exists t',
         node_remove d S C ret elem t = Some (false, ret, t')
         /\ node_total_rate d t' = node_total_rate d t
         /\ node_size d t' = node_size d t
         /\ forall path,
              members_at d path t' = members_at d path t
              /\ cached_at d path t' = cached_at d path t).
Proof.
  split; intros Hp.
  - by apply present_add_noop.
  - destruct (absent_remove_noop d S C ret elem t Hp) as (t' & Hrem & Hsame).
    exists t'. split; [exact Hrem|].
    destruct (Hsame []) as [_ Hc]. rewrite !cached_at_nil in Hc.
    injection Hc as Htot Hsz. auto.
Qed.

End Facts.

Lemma failed_mutation_keeps_totals_and_members_witness :
  node_add 1 tt one_layer_classifier 0%Q 5 one_layer_tree
    = Some (false, 0%Q, one_layer_tree)
  /\ exists t',
      node_remove 1 tt one_layer_classifier 0%Q 7 one_layer_tree = Some (false, 0%Q, t')
      /\ node_total_rate 1 t' = node_total_rate 1 one_layer_tree
      /\ node_size 1 t' = node_size 1 one_layer_tree
      /\ forall path,
           members_at 1 path t' = members_at 1 path one_layer_tree
           /\ cached_at 1 path t' = cached_at 1 path one_layer_tree.
Proof.
  split.
  - apply (failed_mutation_keeps_totals_and_members 1 tt one_layer_classifier 0%Q 5 one_layer_tree).
    vm_compute. reflexivity.
  - apply (failed_mutation_keeps_totals_and_members 1 tt one_layer_classifier 0%Q 7 one_layer_tree).
    vm_compute. reflexivity.
Defined.

(** C10 (the specification as worded fails).  Element 7 is not in the
    tree and its bin 3 does not exist yet: the failed [remove] is not a
    no-op, for
    [ensure_bin] has grown the vector of bins from 2 to 4 before the
    attempt, and the node returned differs from the node given. *)
Lemma failed_remove_is_not_a_noop :
  present 1 tt one_layer_classifier 7 one_layer_tree = false
  /\ exists t',
      node_remove 1 tt one_layer_classifier 0%Q 7 one_layer_tree = Some (false, 0%Q, t')
      /\ length (cats one_layer_tree) = 2
      /\ length (cats t') = 4
      /\ t' <> one_layer_tree.
Proof.
  split; [vm_compute; reflexivity|].
  eexists. split; [vm_compute; reflexivity|].
  split; [reflexivity|]. split; [reflexivity|].
  intros Heq. apply (f_equal (fun t => length (cats t))) in Heq. discriminate.
Qed.

(** ** Bin selection *)

Section SamplingFacts.
Context {SubCat : Type} (sub_total_rate : SubCat -> Q) (fmul fsub : Q -> Q -> Q).

Lemma weighted_bin_loop_range (rest : list SubCat) :
  forall i num j,
    weighted_bin_loop SubCat sub_total_rate fsub rest i num = Some j ->
    i <= j < i + length rest.
Proof.
  induction rest as [|c rest IH]; intros i num j Hloop; simpl in Hloop.
  - discriminate.
  - destruct (Qle_bool (fsub num (sub_total_rate c)) 0).
    + injection Hloop as <-. simpl. lia.
    + apply IH in Hloop. simpl. lia.
Qed.

Lemma weighted_remainder_le (rest : list SubCat) :
  (forall x y, (0 <= y)%Q -> (fsub x y <= x)%Q) ->
  Forall (fun c => (0 <= sub_total_rate c)%Q) rest ->
  forall num, (weighted_remainder SubCat sub_total_rate fsub rest num <= num)%Q.
Proof.
  intros Hmono Hnn. induction Hnn as [|c rest Hc _ IH]; intros num; simpl.
  - apply Qle_refl.
  - eapply Qle_trans; [apply IH|]. by apply Hmono.
Qed.

Lemma weighted_bin_loop_falls_through (rest : list SubCat) :
  (forall x y, (0 <= y)%Q -> (fsub x y <= x)%Q) ->
  Forall (fun c => (0 <= sub_total_rate c)%Q) rest ->
  forall i num,
    (0 < weighted_remainder SubCat sub_total_rate fsub rest num)%Q ->
    weighted_bin_loop SubCat sub_total_rate fsub rest i num = None.
Proof.
  intros Hmono Hnn. induction Hnn as [|c rest Hc Hrest IH]; intros i num Hpos; simpl.
  - reflexivity.
  - simpl in Hpos.
    pose proof (weighted_remainder_le rest Hmono Hrest (fsub num (sub_total_rate c))) as Hle.
    assert (Qle_bool (fsub num (sub_total_rate c)) 0 = false) as ->.
    { apply not_true_is_false. rewrite Qle_bool_iff. intros Hneg.
      apply (Qlt_irrefl 0). eapply Qlt_le_trans; [exact Hpos|].
      eapply Qle_trans; [exact Hle | exact Hneg]. }
    by apply IH.
Qed.

Lemma weighted_remainder_exact (rest : list SubCat) (num : Q) :
  (weighted_remainder SubCat sub_total_rate Qminus rest num
   == num - Qsum (map sub_total_rate rest))%Q.
Proof.
  revert num. induction rest as [|c rest IH]; intros num.
  - change (num == num - 0)%Q. lra.
  - change (weighted_remainder SubCat sub_total_rate Qminus rest (num - sub_total_rate c)
            == num - (sub_total_rate c + Qsum (map sub_total_rate rest)))%Q.
    rewrite IH. lra.
Qed.

End SamplingFacts.

(** C5. On a node with at least one bin, random_weighted_bin always
    returns a valid bin index, whatever the rounding of the product and of
    the subtractions.  When the running value is still above zero after
    every bin's total has been subtracted (bin totals non-negative, the
    rounded subtraction never exceeding its first operand), the bin
    returned is the last one; in exact arithmetic this is the case as soon
    as the drawn value exceeds the sum of the bins' totals. *)
Theorem weighted_bin_never_fails_and_falls_back_to_last
    {SubCat : Type} (sub_total_rate : SubCat -> Q) (fmul fsub : Q -> Q -> Q)
    (u : Q) (t : TreeNode SubCat) :
  cats t <> [] ->
  (exists i, random_weighted_bin SubCat sub_total_rate fmul fsub u t = Some i
             /\ i < length (cats t))
  /\ ((forall x y, (0 <= y)%Q -> (fsub x y <= x)%Q) ->
      Forall (fun c => (0 <= sub_total_rate c)%Q) (cats t) ->
      (0 < weighted_remainder SubCat sub_total_rate fsub (cats t) (fmul u (total_rate t)))%Q ->
      random_weighted_bin SubCat sub_total_rate fmul fsub u t = Some (length (cats t) - 1))
  /\ (Forall (fun c => (0 <= sub_total_rate c)%Q) (cats t) ->
      (Qsum (map sub_total_rate (cats t)) < u * total_rate t)%Q ->
      random_weighted_bin SubCat sub_total_rate Qmult Qminus u t
      = Some (length (cats t) - 1)).
Proof.
  intros Hne.
  assert (forall fm fs,
            weighted_bin_loop SubCat sub_total_rate fs (cats t) 0 (fm u (total_rate t)) = None ->
            random_weighted_bin SubCat sub_total_rate fm fs u t = Some (length (cats t) - 1))
    as Hlast.
  { intros fm fs Hnone. unfold random_weighted_bin. rewrite Hnone.
    by destruct (cats t). }
  split; [|split].
  - unfold random_weighted_bin.
    destruct (weighted_bin_loop SubCat sub_total_rate fsub (cats t) 0
                (fmul u (total_rate t))) as [j|] eqn:Hloop.
    + exists j. split; [done|]. apply weighted_bin_loop_range in Hloop. lia.
    + destruct (cats t) as [|c cs]; [done|].
      eexists. split; [reflexivity|]. simpl. lia.
  - intros Hmono Hnn Hpos. apply Hlast.
    by apply weighted_bin_loop_falls_through.
  - intros Hnn Habove. apply Hlast.
    apply weighted_bin_loop_falls_through; [|done|].
    + intros x y Hy. lra.
    + rewrite weighted_remainder_exact. lra.
Qed.

Lemma weighted_bin_never_fails_and_falls_back_to_last_witness :
  (exists i, random_weighted_bin LeafNode leaf_total_rate Qmult Qminus (19 # 20) drifted_tree
             = Some i /\ i < 2)
  /\ random_weighted_bin LeafNode leaf_total_rate Qmult Qminus (19 # 20) drifted_tree = Some 1.
Proof.
  assert (cats drifted_tree <> []) as Hne by discriminate.
  destruct (weighted_bin_never_fails_and_falls_back_to_last
              leaf_total_rate Qmult Qminus (19 # 20) drifted_tree Hne) as (H1 & _ & H3).
  split; [exact H1|]. apply H3.
  - repeat constructor; simpl; lra.
  - vm_compute. reflexivity.
Defined.

(** C4 (evaluation of the code).  A node with two bins holding 1 and 4
    members: of the five equally likely draws, three select bin 0 and two
    select bin 1, although the bins hold 1 and 4 of the 5 members; and on
    a node with a single bin of 5 members the draws 2, 3 and 4 run past
    the loop into ASSERT(false). *)
Theorem uniform_bin_ignores_member_counts :
  map (fun r => random_uniform_bin LeafNode (fun _ => r) two_bins) [0; 1; 2; 3; 4]%Z
    = [Some 0; Some 0; Some 0; Some 1; Some 1]
  /\ draws_selecting LeafNode 0 two_bins = 3
  /\ draws_selecting LeafNode 1 two_bins = 2
  /\ map leaf_size (cats two_bins) = [1; 4]%Z
  /\ map (fun r => random_uniform_bin LeafNode (fun _ => r) one_bin) [0; 1; 2; 3; 4]%Z
     = [Some 0; Some 0; None; None; None].
Proof. vm_compute. repeat split. Qed.

End CatNodesFacts.

(** ** The analyzer *)

Module AnalyzerFacts.
Import Analyzer Examples.

Lemma crowded_network_symmetric : edge_symmetry crowded_network.
Proof.
  intros a b _ _. unfold follows, followed_by, net_get, crowded_network. simpl.
  destruct (Z.to_nat a) as [|[|[|[|na]]]] eqn:Ha;
    destruct (Z.to_nat b) as [|[|[|[|nb]]]] eqn:Hb; simpl;
    rewrite ?elem_of_nil, ?list_elem_of_singleton; lia.
Qed.

Lemma net_get_set_eq N i e :
  (0 <= i)%Z -> Z.to_nat i < length (entities N) -> net_get (net_set N i e) i = e.
Proof.
  intros Hi Hlt. unfold net_get, net_set. simpl.
  apply nth_lookup_Some. by apply list_lookup_insert_eq.
Qed.

Lemma net_get_set_ne N i j e :
  (0 <= i)%Z -> (0 <= j)%Z -> i <> j -> net_get (net_set N i e) j = net_get N j.
Proof.
  intros Hi Hj Hne. unfold net_get, net_set. simpl.
  rewrite !nth_lookup. rewrite list_lookup_insert_ne by lia. done.
Qed.

(** When the second insertion has room, handle_follow keeps the two edge
    representations in agreement. *)
Lemma handle_follow_keeps_symmetry actor target N :
  (0 <= actor < n_entities N)%Z -> (0 <= target < n_entities N)%Z ->
  (n_entities N <= Z.of_nat (length (entities N)))%Z ->
  actor <> target ->
  length (location (follower_set (net_get N target))) < capacity (follower_set (net_get N target)) ->
  edge_symmetry N ->
  edge_symmetry (snd (handle_follow actor target N)).
Proof.
  intros Ha Ht Hlen Hne Hroom Hsym. unfold handle_follow, add_if_possible.
  case_bool_decide as Hfs; [|exact Hsym].
  set (A' := set_follow_set _ _).
  assert (net_get (net_set N actor A') target = net_get N target) as HT
    by (apply net_get_set_ne; lia).
  rewrite HT. rewrite bool_decide_eq_true_2 by exact Hroom.
  set (T' := set_follower_set _ _). simpl.
  intros a b Hra Hrb. simpl in Hra, Hrb.
  assert (forall x, (0 <= x < n_entities N)%Z ->
            net_get (net_set (net_set N actor A') target T') x
            = if decide (x = target) then T' else if decide (x = actor) then A' else net_get N x)
    as Hget.
  { intros x Hx. destruct (decide (x = target)) as [->|Hxt].
    - apply net_get_set_eq; [lia|]. simpl. rewrite length_insert. lia.
    - rewrite net_get_set_ne by lia.
      destruct (decide (x = actor)) as [->|Hxa].
      + apply net_get_set_eq; lia.
      + apply net_get_set_ne; lia. }
  unfold follows, followed_by. rewrite (Hget a Hra), (Hget b Hrb).
  specialize (Hsym a b Hra Hrb). unfold follows, followed_by in Hsym.
  clear Hget HT.
  repeat case_decide; subst; unfold A', T'; simpl;
    rewrite ?elem_of_app, ?list_elem_of_singleton; naive_solver.
Qed.

(** C2 (evaluation of the code).  In a network whose two edge
    representations agree, entity 0 follows entity 1 whose follower-set
    has run out of room: handle_follow reports success, 1 is in the
    follow-set of 0, and 0 is not in the follower-set of 1. *)
Theorem handle_follow_breaks_edge_symmetry :
  edge_symmetry crowded_network
  /\ fst (handle_follow 0 1 crowded_network) = true
  /\ follows (snd (handle_follow 0 1 crowded_network)) 0 1
  /\ ~ followed_by (snd (handle_follow 0 1 crowded_network)) 1 0.
Proof.
  split; [apply crowded_network_symmetric|].
  split; [reflexivity|].
  unfold follows, followed_by. vm_compute location.
  split.
  - apply list_elem_of_singleton. reflexivity.
  - rewrite list_elem_of_singleton. discriminate.
Qed.

(** C6 (evaluation of the code).  A follows B in one step of the
    analysis: the follow is accepted, n_follows is 1 and B does not follow
    A; action_follow_entity makes no use of a followback probability and
    never calls action_followback, which would have added B -> A. *)
Theorem follow_is_not_followed_back :
  let st := example_state RANDOM_FOLLOW two_entities follow_B in
  let st' := step_analysis Qminus categorize_id select_first rate_update_id month log_zero st in
  location (follow_set (net_get (network st') 0)) = [1%Z]
  /\ location (follower_set (net_get (network st') 1)) = [0%Z]
  /\ location (follow_set (net_get (network st') 1)) = []
  /\ n_follows (stats st') = 1%Z
  /\ n_steps (stats st') = 1%Z
  /\ location (follow_set (net_get (network (action_followback categorize_id 0 1 st')) 1))
     = [0%Z].
Proof. vm_compute. repeat split. Qed.

(** C7 (evaluation of the code).  Entity 0 retweets a tweet of its
    followee 1 at time 5: the retweet succeeds, the push goes to entity 1,
    which 0 follows, and the only follower of 0, entity 2, receives
    nothing. *)
Theorem retweet_is_pushed_to_followees :
  let st := example_state RANDOM_FOLLOW retweet_network retweet_followee in
  let st' := action_retweet 0 5 st in
  location (follower_set (net_get (network st) 0)) = [2%Z]
  /\ n_retweets_total (stats st') = 1%Z
  /\ recent (retweets (net_get (network st') 2)) = []
  /\ recent (retweets (net_get (network st') 1)) = [mkRetweet 1 5].
Proof. vm_compute. repeat split. Qed.

(** *** Rejected follows *)

(** The choice of the entity to follow touches the generator and the
    scratch vector updating_follow_probabilities only. *)
Lemma choose_entity_to_follow_frame (fsub : Q -> Q -> Q) entity n t st :
  let st1 := snd (choose_entity_to_follow fsub entity n t st) in
  network st1 = network st /\ stats st1 = stats st
  /\ follow_ranks st1 = follow_ranks st /\ config st1 = config st
  /\ entity_types st1 = entity_types st /\ sim_time st1 = sim_time st.
Proof.
  unfold choose_entity_to_follow.
  destruct (rand_real_not0 (rng st)) as [rand_num g].
  destruct (follow_model (config st)).
  - destruct (rand_int n g). simpl. auto 10.
  - cbv zeta. destruct (Qeq_bool _ 0).
    + simpl. auto 10.
    + destruct (preferential_search _ _ _ _ _ _). simpl. auto 10.
  - destruct (entity_search _ _ _ _). simpl. auto 10.
  - destruct (Qlt_bool (1 # 2) rand_num).
    + destruct (check_recent _) as [rt|]; [destruct (Qlt_bool _ _)|]; simpl; auto 10.
    + destruct (rand_int n g). simpl. auto 10.
Qed.

(** A full follow-set refuses the follow and leaves the network alone. *)
Lemma handle_follow_refused actor target N :
  fst (handle_follow actor target N) = false -> handle_follow actor target N = (false, N).
Proof.
  unfold handle_follow.
  destruct (add_if_possible (follow_set (net_get N actor)) target) as [[] v]; [|done].
  destruct (add_if_possible _ actor). discriminate.
Qed.

Section Rejection.
Variable fsub : Q -> Q -> Q.
Variable categorize : Z -> Z -> CategoryGrouper -> CategoryGrouper.
Variable analyzer_select_entity : AnalysisState -> SelectionType -> Z * AnalysisState.
Variable analyzer_rate_update : AnalysisState -> AnalysisState.
Variable TIME_CAT_FREQ : Q.
Variable log : Q -> Q.

Lemma rejected_action entity n t st :
  follow_rejected fsub entity n t st ->
  action_follow_entity fsub categorize entity n t st
  = snd (choose_entity_to_follow fsub entity n t st).
Proof.
  unfold follow_rejected, action_follow_entity.
  destruct (choose_entity_to_follow fsub entity n t st) as [target st1]. simpl.
  intros [->|[->|Href]].
  - by rewrite Z.eqb_refl.
  - simpl. by rewrite andb_false_r.
  - rewrite (handle_follow_refused _ _ _ Href).
    by destruct (negb (entity =? target)%Z && negb (target =? -1)%Z).
Qed.

(** C9 (as the code has it).  A follow action that is rejected (the actor
    itself was chosen, nothing was chosen, or the actor's follow-set is
    full) is a normal outcome: the action returns, the network is as
    before, so no edge is added, no counter and no rank is touched, and
    when it is the event of a step the step goes on with the time
    increment, the step count and the rate update. *)
Theorem rejected_follow_is_a_null_event entity n t st :
  follow_rejected fsub entity n t st ->
  let st' := action_follow_entity fsub categorize entity n t st in
  network st' = network st
  /\ stats st' = stats st
  /\ follow_ranks st' = follow_ranks st
  /\ (forall st0 u_1 rand_num g1 g2,
        rand_real_not0 (rng st0) = (u_1, g1) ->
        rand_real_not0 g1 = (rand_num, g2) ->
        Qle_bool (u_1 - prob_add (stats st0)) ZEROTOL = false ->
        Qle_bool (u_1 - (prob_add (stats st0) + prob_follow (stats st0))) ZEROTOL = true ->
        analyzer_select_entity (set_rng st0 g2) FOLLOW_SELECT = (entity, st) ->
        n = n_entities (network st0) ->
        t = sim_time st ->
        step_analysis fsub categorize analyzer_select_entity analyzer_rate_update
                      TIME_CAT_FREQ log st0
        = analyzer_rate_update
            (let st2 := step_time TIME_CAT_FREQ log n st' in
             set_stats st2 (set_n_steps (stats st2) (n_steps (stats st2) + 1)))).
Proof.
  intros Hrej st'. unfold st'. rewrite (rejected_action _ _ _ _ Hrej).
  destruct (choose_entity_to_follow_frame fsub entity n t st) as (HN & Hs & Hr & _).
  split; [exact HN|]. split; [exact Hs|]. split; [exact Hr|].
  intros st0 u_1 rand_num g1 g2 Hu Hr2 Hadd Hfol Hsel -> ->.
  unfold step_analysis. rewrite Hu, Hr2. cbv zeta.
  change (stats (set_rng st0 g2)) with (stats st0).
  change (network (set_rng st0 g2)) with (network st0).
  rewrite Hadd, Hfol, Hsel.
  by rewrite (rejected_action _ _ _ _ Hrej).
Qed.

End Rejection.

Lemma rejected_follow_is_a_null_event_witness :
  let st := example_state RANDOM_FOLLOW two_entities follow_self in
  let st' := action_follow_entity Qminus categorize_id 0 2 0 st in
  network st' = network st /\ stats st' = stats st /\ follow_ranks st' = follow_ranks st.
Proof.
  intros st st'.
  assert (follow_rejected Qminus 0 2 0 st) as Hrej by (vm_compute; left; reflexivity).
  destruct (rejected_follow_is_a_null_event Qminus categorize_id select_first rate_update_id
              month log_zero 0 2 0 st Hrej) as (H1 & H2 & H3 & _).
  auto.
Defined.

(** C9 (the specification as worded fails).  Entity 0 chooses itself:
    the follow is rejected and none of the counters n_steps, n_follows, n_tweets,
    n_retweets is incremented by the action. *)
Lemma rejected_follow_increments_no_counter :
  let st := example_state RANDOM_FOLLOW two_entities follow_self in
  let st' := action_follow_entity Qminus categorize_id 0 2 0 st in
  fst (choose_entity_to_follow Qminus 0 2 0 st) = 0%Z
  /\ ~ some_counter_incremented (stats st) (stats st').
Proof.
  split; [reflexivity|].
  unfold some_counter_incremented. vm_compute.
  intros [H|[H|[H|H]]]; discriminate.
Qed.

(** *** The main loop *)

Lemma Qlt_bool_iff x y : Qlt_bool x y = true <-> (x < y)%Q.
Proof.
  unfold Qlt_bool. rewrite negb_true_iff. split.
  - intros H. apply Qnot_le_lt. intros Hle. apply Qle_bool_iff in Hle. congruence.
  - intros H. apply not_true_is_false. rewrite Qle_bool_iff. by apply Qlt_not_le.
Qed.

Lemma loop_condition_false ctrl_c st :
  loop_condition ctrl_c st = false
  <-> (max_time (config st) <= sim_time st)%Q
      \/ (max_entities (config st) <= n_entities (network st))%Z
      \/ ctrl_c <> 0%Z.
Proof.
  unfold loop_condition. rewrite !andb_false_iff.
  rewrite Z.ltb_ge, Z.eqb_neq.
  assert (Qlt_bool (sim_time st) (max_time (config st)) = false
          <-> (max_time (config st) <= sim_time st)%Q) as ->; [|tauto].
  rewrite <- not_true_iff_false, Qlt_bool_iff. split.
  - apply Qnot_lt_le.
  - apply Qle_not_lt.
Qed.

Section MainLoop.
Variable fsub : Q -> Q -> Q.
Variable categorize : Z -> Z -> CategoryGrouper -> CategoryGrouper.
Variable analyzer_select_entity : AnalysisState -> SelectionType -> Z * AnalysisState.
Variable analyzer_rate_update : AnalysisState -> AnalysisState.
Variable TIME_CAT_FREQ : Q.
Variable log : Q -> Q.

Let step := step_analysis fsub categorize analyzer_select_entity analyzer_rate_update
                          TIME_CAT_FREQ log.
Let run := run_network_simulation fsub categorize analyzer_select_entity analyzer_rate_update
                                  TIME_CAT_FREQ log.

Lemma run_exits_on_false_condition fuel ctrl :
  forall k st st',
    run fuel ctrl k st = Some st' ->
    exists j, k <= j /\ loop_condition (ctrl j) st' = false.
Proof.
  induction fuel as [|fuel IH]; intros k st st' Hrun; simpl in Hrun;
    destruct (loop_condition (ctrl k) st) eqn:Hc.
  - discriminate.
  - injection Hrun as <-. exists k. split; [lia | exact Hc].
  - apply IH in Hrun as (j & Hj & Hcj). exists j. split; [lia | exact Hcj].
  - injection Hrun as <-. exists k. split; [lia | exact Hc].
Qed.

(** The loop of run_network_simulation goes on exactly as long as
    simulated time is below max_time, the number of entities is below
    max_entities and no interrupt has been counted: it makes a step when
    the three hold, and it exits, without a further step, as soon as one
    of them fails; whenever it exits, one of them has failed. *)
Lemma main_loop_exit_conditions fuel ctrl k st :
  (loop_condition (ctrl k) st = false
   <-> (max_time (config st) <= sim_time st)%Q
       \/ (max_entities (config st) <= n_entities (network st))%Z
       \/ ctrl k <> 0%Z)
  /\ (loop_condition (ctrl k) st = false -> run fuel ctrl k st = Some st)
  /\ (loop_condition (ctrl k) st = true ->
      run (S fuel) ctrl k st = run fuel ctrl (S k) (step st))
  /\ (forall st', run fuel ctrl k st = Some st' ->
        exists j, k <= j
          /\ ((max_time (config st') <= sim_time st')%Q
              \/ (max_entities (config st') <= n_entities (network st'))%Z
              \/ ctrl j <> 0%Z)).
Proof.
  split; [apply loop_condition_false|].
  split; [|split].
  - intros Hc. destruct fuel; simpl; by rewrite Hc.
  - intros Hc. simpl. by rewrite Hc.
  - intros st' Hrun. apply run_exits_on_false_condition in Hrun as (j & Hj & Hc).
    exists j. split; [exact Hj|]. by apply loop_condition_false.
Qed.

End MainLoop.

(** C8 (evaluation of the code).  The two slots of the network are in
    use (n_entities = max_entities), simulated time is below max_time, no
    interrupt was sent and the follow event has probability 1: the loop
    makes no step at all and the simulation halts, where the
    documentation of max_agents has the add rate drop to 0 and only
    max_time halt the simulation, and the specification has the other
    events go on. *)
Theorem main_loop_stops_at_max_entities :
  (sim_time full_state < max_time (config full_state))%Q
  /\ no_interrupt 0 = 0%Z
  /\ (0 < prob_follow (stats full_state))%Q
  /\ n_entities (network full_state) = max_entities (config full_state)
  /\ run_network_simulation Qminus categorize_id select_first rate_update_id month log_zero
                            7 no_interrupt 0 full_state = Some full_state
  /\ run_network_simulation Qminus categorize_id select_first rate_update_id month log_zero
                            7 no_interrupt 0 full_state
     <> run_network_simulation Qminus categorize_id select_first rate_update_id month log_zero
                               6 no_interrupt 1
          (step_analysis Qminus categorize_id select_first rate_update_id month log_zero full_state).
Proof.
  split; [reflexivity|]. split; [reflexivity|]. split; [reflexivity|].
  split; [reflexivity|]. split; [vm_compute; reflexivity|].
  vm_compute. discriminate.
Qed.

End AnalyzerFacts.

(** ** The tweet bank *)

Module TweetBankFacts.
Import TweetBank Examples.

Section CheckerFacts.
Variable get_cat_threshold : Z -> Q.
Variable get_rate : Tweet -> Z -> Q.

(** C3 (as the code has it).  For a candidate tweet of the bank: if
    simulated time has not exceeded its retweet_next_rebin_time the
    checker returns true and changes nothing; otherwise it returns false
    and, of the bank, only this tweet has changed: with the age-bin index
    incremented, it has been removed when the new index has reached the
    bin count (index >= n_bins), and otherwise it carries the new index,
    the rebin time creation_time + threshold of the new bin, and the rate
    recomputed for the new bin. *)
Theorem check_ages_the_candidate time id tree t rate :
  elements tree !! id = Some (t, rate) ->
  ((time <= retweet_next_rebin_time t)%Q ->
     check get_cat_threshold get_rate time id tree = Some (true, tree))
  /\ ((retweet_next_rebin_time t < time)%Q ->
      exists tree',
        check get_cat_threshold get_rate time id tree = Some (false, tree')
        /\ n_bins tree' = n_bins tree
        /\ (forall id', id' <> id -> elements tree' !! id' = elements tree !! id')
        /\ let bin := (retweet_time_bin t + 1)%Z in
           ((n_bins tree <= bin)%Z -> elements tree' !! id = None)
           /\ ((bin < n_bins tree)%Z ->
               let t' := mkTweet (id_tweeter t) (creation_time t) bin
                                 (creation_time t + get_cat_threshold bin) in
               elements tree' !! id = Some (t', get_rate t' bin))).
Proof.
  intros Hid. split; intros Htime.
  - unfold check. rewrite Hid.
    assert (Analyzer.Qlt_bool (retweet_next_rebin_time t) time = false) as ->; [|done].
    apply not_true_is_false. rewrite AnalyzerFacts.Qlt_bool_iff. by apply Qle_not_lt.
  - unfold check. rewrite Hid.
    apply AnalyzerFacts.Qlt_bool_iff in Htime. rewrite Htime. cbv zeta.
    unfold set_data at 1. rewrite Hid. cbn [n_bins retweet_time_bin set_retweet_time_bin].
    destruct (n_bins tree <=? retweet_time_bin t + 1)%Z eqn:Hbin.
    + apply Z.leb_le in Hbin. eexists. split; [reflexivity|].
      unfold remove, set_data. rewrite Hid. cbn [elements]. rewrite lookup_insert_eq.
      cbn [elements n_bins]. split; [reflexivity|]. split.
      * intros id' Hne. rewrite lookup_delete_ne by done. by rewrite lookup_insert_ne.
      * split; [intros _; apply lookup_delete_eq | lia].
    + apply Z.leb_gt in Hbin. eexists. split; [reflexivity|].
      unfold replace_rate, set_data. rewrite Hid. cbn [elements]. rewrite lookup_insert_eq.
      cbn [elements]. rewrite lookup_insert_eq. cbn [elements n_bins].
      split; [reflexivity|]. split.
      * intros id' Hne. by rewrite !lookup_insert_ne.
      * split; [lia|]. intros _. by rewrite lookup_insert_eq.
Qed.

End CheckerFacts.

Lemma check_ages_the_candidate_witness :
  check thresholds constant_rate 5 8 small_bank = Some (true, small_bank)
  /\ exists tree',
      check thresholds constant_rate 11 8 small_bank = Some (false, tree')
      /\ elements tree' !! 8%Z
         = Some (mkTweet 1 0 1 (0 + thresholds 1), constant_rate (mkTweet 1 0 1 (0 + thresholds 1)) 1).
Proof.
  assert (elements small_bank !! 8%Z = Some (young_tweet, (1 # 2)%Q)) as Hid
    by (vm_compute; reflexivity).
  split.
  - destruct (check_ages_the_candidate thresholds constant_rate 5 8 small_bank _ _ Hid)
      as [Hkeep _].
    apply Hkeep. vm_compute. discriminate.
  - destruct (check_ages_the_candidate thresholds constant_rate 11 8 small_bank _ _ Hid)
      as [_ Hmove].
    destruct Hmove as (tree' & Hcheck & _ & _ & _ & Hsame); [vm_compute; reflexivity|].
    exists tree'. split; [exact Hcheck|]. apply Hsame. vm_compute. reflexivity.
Defined.

(** C3 (the specification as worded fails).  Tweet 7 is in bin 2 of 3
    and past its rebin time: the new index 3 does not exceed the bin count 3, so the
    specification has the tweet stay with a recomputed rate; the code removes
    it. *)
Lemma check_removes_at_the_bin_count :
  ~ (n_bins small_bank < retweet_time_bin old_tweet + 1)%Z
  /\ (exists tree',
        check thresholds constant_rate 71 7 small_bank = Some (false, tree')
        /\ elements tree' !! 7%Z = None)
  /\ (exists tree',
        check_as_stated thresholds constant_rate 71 7 small_bank = Some (false, tree')
        /\ elements tree' !! 7%Z <> None).
Proof.
  split; [vm_compute; discriminate|]. split.
  - eexists. split; [vm_compute; reflexivity|]. vm_compute. reflexivity.
  - eexists. split; [vm_compute; reflexivity|]. vm_compute. discriminate.
Qed.

End TweetBankFacts.

(** ** The rate tree: membership, placement, recalculation *)

Module CatNodesOpsFacts.
Import CatNodes CatNodesOps CatNodesFacts.

Section OpsFacts.
Context {StateT : Type}.

Lemma ensure_bin_nth_cases d bin (cs : list (Node d)) :
  (exists sub, cs !! bin = Some sub
               /\ nth bin (ensure_bin (Node d) (node_new d) bin cs) (node_new d) = sub)
  \/ (cs !! bin = None
      /\ nth bin (ensure_bin (Node d) (node_new d) bin cs) (node_new d) = node_new d).
Proof.
  pose proof (ensure_bin_nth (node_new d) bin cs) as Hn.
  destruct (ensure_bin_lookup _ _ _ _ _ Hn) as [Hl|[Hl Heq]].
  - left. eexists. split; [exact Hl | reflexivity].
  - right. by split.
Qed.

(** The member sets, by path, after one in-place update of bin [bin]. *)
Lemma members_at_update d (t : TreeNode (Node d)) bin (sub' : Node d) r k b path :
  members_at (S d) (b :: path)
    (mkTreeNode r k (<[bin := sub']> (ensure_bin (Node d) (node_new d) bin (cats t))))
  = if decide (b = bin) then members_at d path sub'
    else members_at (S d) (b :: path) t.
Proof.
  simpl. destruct (decide (b = bin)) as [->|Hne].
  - by rewrite list_lookup_insert_eq by apply ensure_bin_length.
  - rewrite list_lookup_insert_ne by done.
    destruct (ensure_bin (Node d) (node_new d) bin (cats t) !! b) as [x|] eqn:Hb.
    + apply ensure_bin_lookup in Hb as [->|[-> ->]]; [done|].
      by rewrite members_at_new.
    + by rewrite (ensure_bin_lookup_None _ _ _ _ Hb).
Qed.

Lemma members_at_nth d (t : TreeNode (Node d)) bin path :
  members_at d path (nth bin (ensure_bin (Node d) (node_new d) bin (cats t)) (node_new d))
  = members_at (S d) (bin :: path) t.
Proof.
  simpl. destruct (ensure_bin_nth_cases d bin (cats t)) as [(sub & Hl & ->)|[Hl ->]];
    rewrite Hl; [done | apply members_at_new].
Qed.

Lemma present_nth d (S : StateT) (C : TreeClassifier (Classifier d)) elem
    (t : TreeNode (Node d)) :
  let bin := classify C S elem in
  present d S (get C S bin) elem
          (nth bin (ensure_bin (Node d) (node_new d) bin (cats t)) (node_new d))
  = present (Datatypes.S d) S C elem t.
Proof.
  intros bin. simpl. fold bin.
  destruct (ensure_bin_nth_cases d bin (cats t)) as [(sub & Hl & ->)|[Hl ->]];
    rewrite Hl; [done | apply present_new].
Qed.

(** Presence is membership in the leaf of the classification path. *)
Lemma present_members d :
  forall (S : StateT) (C : Classifier d) elem (t : Node d),
    present d S C elem t = bool_decide (elem ∈ members_at d (class_path d S C elem) t).
Proof.
  induction d as [|d IH]; intros S C elem t; simpl; [done|].
  match goal with
  | |- match ?x with _ => _ end = _ => destruct x as [sub|]
  end; [apply IH|].
  symmetry. apply bool_decide_eq_false_2. set_solver.
Qed.

(** What [add] returns and what it does to the member sets. *)
Lemma node_add_result d :
  forall (S : StateT) (C : Classifier d) ret elem t ok delta t',
    node_add d S C ret elem t = Some (ok, delta, t') ->
    ok = negb (present d S C elem t)
    /\ delta = (if ok then class_rate d S C elem else ret)
    /\ forall path, length path = d ->
         members_at d path t'
         = if decide (path = class_path d S C elem)
           then {[elem]} ∪ members_at d path t
           else members_at d path t.
Proof.
  induction d as [|d IH]; intros S C ret elem t ok delta t' Hadd.
  - simpl in Hadd. unfold leaf_add in Hadd. rewrite leaf_insert_unique in Hadd.
    assert (forall path, length path = 0 ->
              path = class_path 0 S C elem) as Hnil
      by (intros [|] ?; [done | discriminate]).
    simpl. case_bool_decide as Hin; injection Hadd as <- <- <-; simpl.
    + rewrite bool_decide_eq_false_2 by done.
      split; [done|]. split; [done|]. intros path Hp.
      by rewrite decide_True by (by apply Hnil).
    + assert (elem ∈ elems t) as Hin'
        by (destruct (decide (elem ∈ elems t)); [done | contradiction]).
      rewrite (bool_decide_eq_true_2 _ Hin').
      split; [done|]. split; [done|]. intros path Hp.
      by rewrite decide_True by (by apply Hnil).
  - change (TreeNode (Node d)) in t. change (@TreeClassifier StateT (@Classifier StateT d)) in C.
    rewrite node_add_S in Hadd. unfold tree_add in Hadd. cbv zeta in Hadd.
    pose proof (present_nth d S C elem t) as Hpres. cbv zeta in Hpres.
    set (bin := classify C S elem) in *.
    match type of Hadd with
    | match ?x with _ => _ end = _ => destruct x as [[[ok1 d1] sub]|] eqn:Hsub
    end; [|discriminate].
    destruct (IH _ _ _ _ _ _ _ _ Hsub) as (Hok & Hd & Hmem).
    rewrite Hpres in Hok.
    assert (forall r k path, length path = Datatypes.S d ->
              members_at (Datatypes.S d) path
                (mkTreeNode r k (<[bin := sub]> (ensure_bin (Node d) (node_new d) bin (cats t))))
              = if decide (path = class_path (Datatypes.S d) S C elem)
                then {[elem]} ∪ members_at (Datatypes.S d) path t
                else members_at (Datatypes.S d) path t) as Hpaths.
    { intros r k [|b path] Hlen; [discriminate|]. injection Hlen as Hlen.
      rewrite members_at_update.
      change (class_path (Datatypes.S d) S C elem)
        with (bin :: class_path d S (get C S bin) elem).
      destruct (decide (b = bin)) as [->|Hne].
      - rewrite (Hmem path Hlen), members_at_nth.
        destruct (decide (path = class_path d S (get C S bin) elem)) as [->|Hp].
        + by rewrite decide_True.
        + rewrite decide_False; [done|]. intros Heq. by injection Heq.
      - rewrite decide_False; [done|]. intros Heq. by injection Heq. }
    destruct ok1; cbv beta iota in Hadd.
    + destruct (Qle_bool 0 d1); [|discriminate].
      injection Hadd as <- <- <-. split; [exact Hok|]. split; [exact Hd|]. apply Hpaths.
    + injection Hadd as <- <- <-. split; [exact Hok|]. split; [done|]. apply Hpaths.
Qed.

(** What [remove] returns and what it does to the member sets. *)
Lemma node_remove_result d :
  forall (S : StateT) (C : Classifier d) ret elem t ok delta t',
    node_remove d S C ret elem t = Some (ok, delta, t') ->
    ok = present d S C elem t
    /\ delta = (if ok then (- class_rate d S C elem)%Q else ret)
    /\ forall path, length path = d ->
         members_at d path t'
         = if decide (path = class_path d S C elem)
           then members_at d path t ∖ {[elem]}
           else members_at d path t.
Proof.
  induction d as [|d IH]; intros S C ret elem t ok delta t' Hrem.
  - simpl in Hrem. unfold leaf_remove, hash_erase in Hrem.
    assert (forall path, length path = 0 ->
              path = class_path 0 S C elem) as Hnil
      by (intros [|] ?; [done | discriminate]).
    simpl. destruct (decide (elem ∈ elems t)) as [Hin|Hnin].
    + rewrite (bool_decide_eq_true_2 _ Hin) in Hrem |- *. simpl in Hrem.
      injection Hrem as <- <- <-; simpl.
      split; [done|]. split; [done|]. intros path Hp.
      by rewrite decide_True by (by apply Hnil).
    + rewrite (bool_decide_eq_false_2 _ Hnin) in Hrem |- *. simpl in Hrem.
      injection Hrem as <- <- <-; simpl.
      split; [done|]. split; [done|]. intros path Hp.
      by rewrite decide_True by (by apply Hnil).
  - change (TreeNode (Node d)) in t. change (@TreeClassifier StateT (@Classifier StateT d)) in C.
    rewrite node_remove_S in Hrem. unfold tree_remove in Hrem. cbv zeta in Hrem.
    pose proof (present_nth d S C elem t) as Hpres. cbv zeta in Hpres.
    set (bin := classify C S elem) in *.
    match type of Hrem with
    | match ?x with _ => _ end = _ => destruct x as [[[ok1 d1] sub]|] eqn:Hsub
    end; [|discriminate].
    destruct (IH _ _ _ _ _ _ _ _ Hsub) as (Hok & Hd & Hmem).
    rewrite Hpres in Hok.
    assert (forall r k path, length path = Datatypes.S d ->
              members_at (Datatypes.S d) path
                (mkTreeNode r k (<[bin := sub]> (ensure_bin (Node d) (node_new d) bin (cats t))))
              = if decide (path = class_path (Datatypes.S d) S C elem)
                then members_at (Datatypes.S d) path t ∖ {[elem]}
                else members_at (Datatypes.S d) path t) as Hpaths.
    { intros r k [|b path] Hlen; [discriminate|]. injection Hlen as Hlen.
      rewrite members_at_update.
      change (class_path (Datatypes.S d) S C elem)
        with (bin :: class_path d S (get C S bin) elem).
      destruct (decide (b = bin)) as [->|Hne].
      - rewrite (Hmem path Hlen), members_at_nth.
        destruct (decide (path = class_path d S (get C S bin) elem)) as [->|Hp].
        + by rewrite decide_True.
        + rewrite decide_False; [done|]. intros Heq. by injection Heq.
      - rewrite decide_False; [done|]. intros Heq. by injection Heq. }
    destruct ok1; cbv beta iota in Hrem.
    + destruct (Qle_bool d1 0); [|discriminate].
      injection Hrem as <- <- <-. split; [exact Hok|]. split; [exact Hd|]. apply Hpaths.
    + injection Hrem as <- <- <-. split; [exact Hok|]. split; [done|]. apply Hpaths.
Qed.

Lemma class_path_length d :
  forall (S : StateT) (C : Classifier d) elem, length (class_path d S C elem) = d.
Proof. induction d as [|d IH]; intros S C elem; simpl; [done|]. by rewrite IH. Qed.

Lemma present_after d (S : StateT) (C : Classifier d) (t t' : Node d) elem
    (f : gset Z -> gset Z) :
  (forall path, length path = d ->
     members_at d path t'
     = if decide (path = class_path d S C elem) then f (members_at d path t)
       else members_at d path t) ->
  (forall M e', e' <> elem -> e' ∈ f M <-> e' ∈ M) ->
  forall e', e' <> elem -> present d S C e' t' = present d S C e' t.
Proof.
  intros Hmem Hf e' Hne. rewrite !present_members.
  rewrite (Hmem _ (class_path_length d S C e')).
  apply bool_decide_ext. case_decide; [by apply Hf | done].
Qed.

(** X1. [add] returns true exactly when the element was not yet in its
    classified leaf and then hands back that leaf's rate as delta;
    afterwards the element is there, the presence of every other element
    is as before, and size and total have grown by one member and one
    rate (by nothing when the element was already there). *)
Theorem add_puts_element_in_its_leaf d (S : StateT) (C : Classifier d) ret elem t :
  rates_nonneg d C ->
  exists t',
    node_add d S C ret elem t
    = Some (negb (present d S C elem t),
            (if present d S C elem t then ret else class_rate d S C elem), t')
    /\ present d S C elem t' = true
    /\ (forall e', e' <> elem -> present d S C e' t' = present d S C e' t)
    /\ node_size d t' = (node_size d t + (if present d S C elem t then 0 else 1))%Z
    /\ (node_total_rate d t'
        == node_total_rate d t
           + (if present d S C elem t then 0 else class_rate d S C elem))%Q.
Proof.
  intros Hnn.
  destruct (node_add_total d S C ret elem t Hnn) as (ok & dl & t' & Hadd & _).
  destruct (node_add_result d _ _ _ _ _ _ _ _ Hadd) as (Hok & Hdl & Hmem).
  destruct (node_add_effect d _ _ _ _ _ _ _ _ Hadd) as (Htot & Hsz & _).
  exists t'. subst ok dl.
  split; [by destruct (present d S C elem t)|].
  split.
  { rewrite present_members, (Hmem _ (class_path_length d S C elem)).
    rewrite decide_True by done. apply bool_decide_eq_true_2. set_solver. }
  split.
  { apply (present_after d S C t t' elem (fun M => {[elem]} ∪ M) Hmem).
    intros M e' Hne. set_solver. }
  by destruct (present d S C elem t).
Qed.

(** X2. [remove] returns true exactly when the element was in its
    classified leaf and then hands back minus that leaf's rate as delta;
    afterwards the element is not there, the presence of every other
    element is as before, and size and total have shrunk by one member
    and one rate (by nothing when the element was not there). *)
Theorem remove_takes_element_from_its_leaf d (S : StateT) (C : Classifier d) ret elem t :
  rates_nonneg d C ->
  exists t',
    node_remove d S C ret elem t
    = Some (present d S C elem t,
            (if present d S C elem t then (- class_rate d S C elem)%Q else ret), t')
    /\ present d S C elem t' = false
    /\ (forall e', e' <> elem -> present d S C e' t' = present d S C e' t)
    /\ node_size d t' = (node_size d t + (if present d S C elem t then -1 else 0))%Z
    /\ (node_total_rate d t'
        == node_total_rate d t
           + (if present d S C elem t then - class_rate d S C elem else 0))%Q.
Proof.
  intros Hnn.
  destruct (node_remove_total d S C ret elem t Hnn) as (ok & dl & t' & Hrem & _).
  destruct (node_remove_result d _ _ _ _ _ _ _ _ Hrem) as (Hok & Hdl & Hmem).
  destruct (node_remove_effect d _ _ _ _ _ _ _ _ Hrem) as (Htot & Hsz & _).
  exists t'. subst ok dl.
  split; [done|].
  split.
  { rewrite present_members, (Hmem _ (class_path_length d S C elem)).
    rewrite decide_True by done. apply bool_decide_eq_false_2. set_solver. }
  split.
  { apply (present_after d S C t t' elem (fun M => M ∖ {[elem]}) Hmem).
    intros M e' Hne. set_solver. }
  by destruct (present d S C elem t).
Qed.

(** X3. Adding an element that was not in the tree and removing it again
    (under the same state) succeeds twice and gives back every leaf's
    member set, the size and, up to the value of the rationals, the total
    rate. *)
Theorem add_then_remove_restores d (S : StateT) (C : Classifier d) ret elem t :
  rates_nonneg d C ->
  present d S C elem t = false ->
  exists dl t1 t2,
    node_add d S C ret elem t = Some (true, dl, t1)
    /\ node_remove d S C ret elem t1 = Some (true, (- dl)%Q, t2)
    /\ (forall path, length path = d -> members_at d path t2 = members_at d path t)
    /\ node_size d t2 = node_size d t
    /\ (node_total_rate d t2 == node_total_rate d t)%Q.
Proof.
  intros Hnn Hp.
  destruct (node_add_total d S C ret elem t Hnn) as (ok & dl & t1 & Hadd & _).
  destruct (node_add_result d _ _ _ _ _ _ _ _ Hadd) as (Hok & Hdl & Hmem).
  destruct (node_add_effect d _ _ _ _ _ _ _ _ Hadd) as (Htot & Hsz & _).
  rewrite Hp in Hok. simpl in Hok. subst ok.
  destruct (node_remove_total d S C ret elem t1 Hnn) as (ok2 & dl2 & t2 & Hrem & _).
  destruct (node_remove_result d _ _ _ _ _ _ _ _ Hrem) as (Hok2 & Hdl2 & Hmem2).
  destruct (node_remove_effect d _ _ _ _ _ _ _ _ Hrem) as (Htot2 & Hsz2 & _).
  assert (present d S C elem t1 = true) as Hp1.
  { rewrite present_members, (Hmem _ (class_path_length d S C elem)).
    rewrite decide_True by done. apply bool_decide_eq_true_2. set_solver. }
  rewrite Hp1 in Hok2. subst ok2. subst dl dl2.
  exists (class_rate d S C elem), t1, t2.
  split; [exact Hadd|]. split; [exact Hrem|].
  split; [|split; [lia | lra]].
  intros path Hlen. rewrite (Hmem2 path Hlen), (Hmem path Hlen).
  case_decide as Hpath; [|done]. subst path.
  rewrite present_members in Hp. apply bool_decide_eq_false_1 in Hp. set_solver.
Qed.

Lemma apply_op_placed d (S : StateT) (C : Classifier d) (o : @Op StateT) (t t' : Node d) :
  op_state o = S -> apply_op d C o t = Some t' ->
  well_placed d S C t -> well_placed d S C t'.
Proof.
  intros HS Hop Hwp path e Hlen Hin. destruct o as [S' elem|S' elem]; simpl in *; subst S'.
  - destruct (node_add d S C 0%Q elem t) as [[[ok dl] t1]|] eqn:Hadd; [|discriminate].
    injection Hop as <-.
    destruct (node_add_result d _ _ _ _ _ _ _ _ Hadd) as (_ & _ & Hmem).
    rewrite (Hmem path Hlen) in Hin. case_decide as Hpath; [|by apply Hwp].
    apply elem_of_union in Hin as [Hin|Hin]; [|by apply Hwp].
    apply elem_of_singleton in Hin. by subst.
  - destruct (node_remove d S C 0%Q elem t) as [[[ok dl] t1]|] eqn:Hrem; [|discriminate].
    injection Hop as <-.
    destruct (node_remove_result d _ _ _ _ _ _ _ _ Hrem) as (_ & _ & Hmem).
    rewrite (Hmem path Hlen) in Hin. case_decide as Hpath; [|by apply Hwp].
    apply elem_of_difference in Hin as [Hin _]. by apply Hwp.
Qed.

(** X4. In a tree built from scratch by [add] and [remove] under one
    state, every member of a leaf is in the leaf its classification leads
    to, so that no element is in two leaves. *)
Theorem members_stay_in_their_classified_leaf
    d (S : StateT) (C : Classifier d) (ops : list (@Op StateT)) :
  rates_nonneg d C ->
  Forall (fun o => op_state o = S) ops ->
  exists t,
    run_ops d C ops (node_new d) = Some t
    /\ well_placed d S C t
    /\ (forall p1 p2 elem,
          length p1 = d -> length p2 = d ->
          elem ∈ members_at d p1 t -> elem ∈ members_at d p2 t -> p1 = p2).
Proof.
  intros Hnn Hall.
  assert (forall t0, well_placed d S C t0 ->
            exists t, run_ops d C ops t0 = Some t /\ well_placed d S C t) as Hrun.
  { induction Hall as [|o ops Ho Hops IH]; intros t0 Hwp.
    - exists t0. by split.
    - destruct (apply_op_invariants d C o t0 Hnn) as (t1 & Hop & _).
      destruct (IH t1 (apply_op_placed d S C o t0 t1 Ho Hop Hwp)) as (t & Hr & Hwpt).
      exists t. simpl. rewrite Hop. by split. }
  destruct (Hrun (node_new d)) as (t & Hr & Hwp).
  { intros path e _ Hin. rewrite members_at_new in Hin. set_solver. }
  exists t. split; [exact Hr|]. split; [exact Hwp|].
  intros p1 p2 e H1 H2 Hin1 Hin2.
  rewrite (Hwp p1 e H1 Hin1). symmetry. by apply Hwp.
Qed.

Lemma size_is_leaves_size_sum d :
  forall t : Node d, sizes_ok d t -> node_size d t = leaves_size_sum d t.
Proof.
  induction d as [|d IH]; intros t Hs; [done|].
  destruct Hs as [Hn Hall].
  assert (map (node_size d) (cats (SubCat := Node d) t)
          = map (leaves_size_sum d) (cats (SubCat := Node d) t)) as Hmap.
  { apply map_ext_Forall. eapply Forall_impl; [exact Hall|]. intros x Hx. by apply IH. }
  simpl. etransitivity; [exact Hn|]. by rewrite Hmap.
Qed.

(** X5. In a tree built from scratch by any sequence of [add] and
    [remove], every internal node's n_elems is the sum of its children's
    sizes, and the size of the root is the number of members summed over
    the leaves. *)
Theorem size_counts_the_members d (C : Classifier d) (ops : list (@Op StateT)) :
  rates_nonneg d C ->
  exists t,
    run_ops d C ops (node_new d) = Some t
    /\ sizes_ok d t
    /\ node_size d t = leaves_size_sum d t.
Proof.
  intros Hnn.
  destruct (run_ops_invariants d C ops Hnn (node_new d)) as (t & Hrun & _ & Hs & _).
  exists t. split; [exact Hrun|].
  assert (sizes_ok d t) as Hok by (apply Hs, node_new_sizes_ok).
  split; [exact Hok | by apply size_is_leaves_size_sum].
Qed.

(** *** Recalculation *)

Lemma node_recalc_rates_S d :
  node_recalc_rates (StateT := StateT) (Datatypes.S d)
  = tree_recalc_rates (Node d) (Classifier d) (node_recalc_rates d).
Proof. reflexivity. Qed.

Lemma recalc_loop_lookup d (S : StateT) (C : TreeClassifier (Classifier d)) :
  forall (cs : list (Node d)) i total j,
    snd (recalc_loop (Node d) (Classifier d) (node_recalc_rates d) S C cs i total) !! j
    = (fun c => snd (node_recalc_rates d S (get C S (i + j)) c)) <$> (cs !! j).
Proof.
  induction cs as [|c cs IH]; intros i total j; simpl; [done|].
  destruct (node_recalc_rates d S (get C S i) c) as [r c'] eqn:Hc.
  specialize (IH (Datatypes.S i) (total + r)%Q).
  destruct (recalc_loop _ _ _ S C cs (Datatypes.S i) (total + r)%Q) as [total' cs''].
  simpl in *. destruct j as [|j]; simpl.
  - by rewrite Nat.add_0_r, Hc.
  - rewrite IH. by replace (i + Datatypes.S j) with (Datatypes.S i + j) by lia.
Qed.

Lemma recalc_loop_total d (S : StateT) (C : TreeClassifier (Classifier d)) :
  (forall C' c, fst (node_recalc_rates d S C' c)
                = node_total_rate d (snd (node_recalc_rates d S C' c))) ->
  forall (cs : list (Node d)) i total,
    (fst (recalc_loop (Node d) (Classifier d) (node_recalc_rates d) S C cs i total)
     == total
        + Qsum (map (node_total_rate d)
                 (snd (recalc_loop (Node d) (Classifier d) (node_recalc_rates d)
                         S C cs i total))))%Q.
Proof.
  intros Hsub. induction cs as [|c cs IH]; intros i total; simpl.
  - unfold Qsum; simpl. lra.
  - pose proof (Hsub (get C S i) c) as Hc.
    destruct (node_recalc_rates d S (get C S i) c) as [r c'].
    specialize (IH (Datatypes.S i) (total + r)%Q).
    destruct (recalc_loop _ _ _ S C cs (Datatypes.S i) (total + r)%Q) as [total' cs''].
    simpl in *. subst r.
    change (total' == total + (node_total_rate d c' + Qsum (map (node_total_rate d) cs'')))%Q.
    lra.
Qed.

Lemma node_recalc_rates_spec d :
  forall (S : StateT) (C : Classifier d) (t : Node d),
    let r := node_recalc_rates d S C t in
    fst r = node_total_rate d (snd r)
    /\ I1 d (snd r)
    /\ leaves_ok d S C (snd r)
    /\ node_size d (snd r) = node_size d t
    /\ (forall path, members_at d path (snd r) = members_at d path t).
Proof.
  induction d as [|d IH]; intros S C t.
  - simpl. split; [done|]. split; [done|]. split; [|done].
    unfold leaf_size. simpl. reflexivity.
  - change (TreeNode (Node d)) in t. change (@TreeClassifier StateT (@Classifier StateT d)) in C.
    rewrite node_recalc_rates_S. unfold tree_recalc_rates.
    pose proof (recalc_loop_lookup d S C (cats t) 0 0%Q) as Hlook.
    pose proof (recalc_loop_total d S C (fun C' c => proj1 (IH S C' c)) (cats t) 0 0%Q) as Htot.
    destruct (recalc_loop _ _ _ S C (cats t) 0 0%Q) as [total cs]. simpl in *.
    split; [done|]. split; [|split; [|split; [done|]]].
    + split; [simpl; lra|]. simpl. apply Forall_lookup. intros j x Hx.
      rewrite Hlook in Hx. destruct (cats t !! j) as [c|]; [|discriminate].
      injection Hx as <-. apply IH.
    + intros j x Hx. simpl in Hx. rewrite Hlook in Hx.
      destruct (cats t !! j) as [c|]; [|discriminate].
      injection Hx as <-. apply IH.
    + intros [|b path]; [done|]. simpl. rewrite Hlook.
      destruct (cats t !! b) as [c|]; [|done]. simpl. apply IH.
Qed.

(** X6. recalc_rates rebaselines a tree whatever its cached totals were:
    afterwards every internal total is the sum of its children's totals
    and every leaf total is rate times size for the current classifier
    and state, the value returned is the new root total, which is the sum
    over the leaves of rate times size, and sizes and member sets are as
    before. *)
Theorem recalc_rates_rebaselines d (S : StateT) (C : Classifier d) (t : Node d) :
  let r := node_recalc_rates d S C t in
  fst r = node_total_rate d (snd r)
  /\ (fst r == leaves_rate_sum d S C (snd r))%Q
  /\ I1 d (snd r)
  /\ leaves_ok d S C (snd r)
  /\ node_size d (snd r) = node_size d t
  /\ (forall path, members_at d path (snd r) = members_at d path t).
Proof.
  intros r. destruct (node_recalc_rates_spec d S C t) as (H1 & H2 & H3 & H4 & H5).
  fold r in H1, H2, H3, H4, H5.
  split; [exact H1|]. split; [|by auto].
  rewrite H1. by apply total_is_leaves_rate_sum.
Qed.

End OpsFacts.

(** *** Bin selection *)

Section SelectionFacts.
Context {SubCat : Type} (sub_total_rate : SubCat -> Q).

(** The accumulated total of the first [k] bins. *)
Let prefix (cs : list SubCat) (k : nat) : Q := Qsum (map sub_total_rate (take k cs)).

Lemma weighted_bin_loop_slice (rest : list SubCat) :
  forall k num i,
    i < length rest ->
    (forall j, j < i -> (prefix rest (Datatypes.S j) < num)%Q) ->
    (num <= prefix rest (Datatypes.S i))%Q ->
    weighted_bin_loop SubCat sub_total_rate Qminus rest k num = Some (k + i).
Proof.
  unfold prefix.
  induction rest as [|c rest IH]; intros k num i Hi Hlow Hhigh; simpl in Hi; [lia|].
  simpl. destruct i as [|i].
  - assert (Qle_bool (num - sub_total_rate c) 0 = true) as ->.
    { apply Qle_bool_iff.
      change (num <= sub_total_rate c + 0)%Q in Hhigh. lra. }
    f_equal. lia.
  - assert (Qle_bool (num - sub_total_rate c) 0 = false) as ->.
    { apply not_true_is_false. rewrite Qle_bool_iff.
      specialize (Hlow 0 ltac:(lia)).
      change (sub_total_rate c + 0 < num)%Q in Hlow. lra. }
    rewrite (IH (Datatypes.S k) (num - sub_total_rate c)%Q i).
    + f_equal. lia.
    + lia.
    + intros j Hj. specialize (Hlow (Datatypes.S j) ltac:(lia)).
      change (sub_total_rate c + Qsum (map sub_total_rate (take (Datatypes.S j) rest)) < num)%Q
        in Hlow. lra.
    + change (num <= sub_total_rate c + Qsum (map sub_total_rate (take (Datatypes.S i) rest)))%Q
        in Hhigh. lra.
Qed.

Lemma prefix_mono (cs : list SubCat) :
  Forall (fun c => (0 <= sub_total_rate c)%Q) cs ->
  forall j i, j <= i -> (prefix cs j <= prefix cs i)%Q.
Proof.
  unfold prefix. intros Hnn. induction Hnn as [|c cs Hc _ IH]; intros j i Hji.
  - rewrite !take_nil. apply Qle_refl.
  - destruct j as [|j]; destruct i as [|i]; try lia.
    + apply Qle_refl.
    + change (0 <= sub_total_rate c + Qsum (map sub_total_rate (take i cs)))%Q.
      specialize (IH 0 i ltac:(lia)).
      change (0 <= Qsum (map sub_total_rate (take i cs)))%Q in IH. lra.
    + specialize (IH j i ltac:(lia)).
      change (sub_total_rate c + Qsum (map sub_total_rate (take j cs))
              <= sub_total_rate c + Qsum (map sub_total_rate (take i cs)))%Q. lra.
Qed.

(** X7. In exact arithmetic and with non-negative bin totals,
    random_weighted_bin returns the bin in whose slice the drawn value
    u * total_rate falls: bin [i] when the value is above the accumulated
    total of the bins before [i] and at most the accumulated total up to
    and including [i]; a value of at most the first bin's total, 0
    included, gives bin 0. *)
Theorem weighted_bin_is_the_slice_of_the_draw (u : Q) (t : TreeNode SubCat) (i : nat) :
  Forall (fun c => (0 <= sub_total_rate c)%Q) (cats t) ->
  i < length (cats t) ->
  (i = 0 \/ (Qsum (map sub_total_rate (take i (cats t))) < u * total_rate t)%Q) ->
  (u * total_rate t <= Qsum (map sub_total_rate (take (Datatypes.S i) (cats t))))%Q ->
  random_weighted_bin SubCat sub_total_rate Qmult Qminus u t = Some i.
Proof.
  intros Hnn Hi Hlow Hhigh. unfold random_weighted_bin.
  rewrite (weighted_bin_loop_slice (cats t) 0 (u * total_rate t)%Q i Hi); [done| |done].
  intros j Hj. destruct Hlow as [->|Hlow]; [lia|].
  eapply Qle_lt_trans; [|exact Hlow].
  apply (prefix_mono (cats t) Hnn). lia.
Qed.

End SelectionFacts.

Lemma wrap_int_small z : (- 2 ^ 31 <= z < 2 ^ 31)%Z -> wrap_int z = z.
Proof. intros Hz. unfold wrap_int. rewrite Z.mod_small; lia. Qed.

Lemma uniform_bin_loop_formula {SubCat : Type} (n : Z) (rest : list SubCat) :
  (0 < n <= 2 ^ 31)%Z ->
  forall i num,
    (0 < num < 2 ^ 31)%Z ->
    uniform_bin_loop SubCat n rest i num
    = if (num <=? Z.of_nat (length rest) * n)%Z
      then Some (i + Z.to_nat ((num - 1) / n))
      else None.
Proof.
  intros Hn. induction rest as [|c rest IH]; intros i num Hnum.
  - cbn [uniform_bin_loop length]. change (Z.of_nat 0 * n)%Z with 0%Z.
    by rewrite (proj2 (Z.leb_gt num 0)) by lia.
  - cbn [uniform_bin_loop]. rewrite wrap_int_small by lia.
    destruct (num - n <=? 0)%Z eqn:Hle.
    + apply Z.leb_le in Hle.
      rewrite (proj2 (Z.leb_le _ _)) by (cbn [length]; nia).
      rewrite Z.div_small by lia. f_equal. lia.
    + apply Z.leb_gt in Hle. rewrite IH by lia.
      replace ((num - 1) / n)%Z with ((num - n - 1) / n + 1)%Z
        by (rewrite <- Z.div_add by lia; f_equal; lia).
      assert (0 <= (num - n - 1) / n)%Z by (apply Z.div_pos; lia).
      cbn [length].
      destruct (num - n <=? Z.of_nat (length rest) * n)%Z eqn:H1;
        destruct (num <=? Z.of_nat (Datatypes.S (length rest)) * n)%Z eqn:H2;
        try (apply Z.leb_le in H1); try (apply Z.leb_gt in H1);
        try (apply Z.leb_le in H2); try (apply Z.leb_gt in H2); try nia.
      * f_equal. lia.
      * done.
Qed.

(** X8. For a draw [r] of rand_int(size()), random_uniform_bin depends on
    the number [n] of bins only, not on what the bins hold: it returns bin
    (r - 1) / n (bin 0 for r = 0) when r <= n * n, and runs past its loop
    into ASSERT(false) when r > n * n or when there is no bin. *)
Theorem uniform_bin_depends_on_bin_count_only
    {SubCat : Type} (rand_int : Z -> Z) (t : TreeNode SubCat) :
  let n := Z.of_nat (length (cats t)) in
  let r := rand_int (n_elems t) in
  (n <= 2 ^ 31)%Z ->
  (0 <= r < 2 ^ 31)%Z ->
  random_uniform_bin SubCat rand_int t
  = if (0 <? n)%Z && (r <=? n * n)%Z then Some (Z.to_nat ((r - 1) / n)) else None.
Proof.
  intros n r Hn Hr. unfold random_uniform_bin. fold r. fold n.
  destruct (cats t) as [|c cs] eqn:Hc.
  - subst n. simpl. reflexivity.
  - assert (0 < n)%Z as Hpos by (subst n; cbn [length]; lia).
    rewrite (proj2 (Z.ltb_lt _ _) Hpos). cbn [andb uniform_bin_loop].
    rewrite wrap_int_small by lia.
    destruct (r - n <=? 0)%Z eqn:Hle.
    + apply Z.leb_le in Hle. rewrite (proj2 (Z.leb_le _ _)) by nia.
      f_equal. destruct (decide (r = 0%Z)) as [Hr0|Hr0].
      * rewrite Hr0. replace ((0 - 1) / n)%Z with (-1)%Z; [done|].
        apply Z.div_unique with (r := (n - 1)%Z); lia.
      * rewrite Z.div_small by lia. done.
    + apply Z.leb_gt in Hle. rewrite (uniform_bin_loop_formula n cs) by lia.
      replace ((r - 1) / n)%Z with ((r - n - 1) / n + 1)%Z
        by (rewrite <- Z.div_add by lia; f_equal; lia).
      assert (0 <= (r - n - 1) / n)%Z by (apply Z.div_pos; lia).
      assert (n = Z.of_nat (length cs) + 1)%Z as Hlen by (subst n; cbn [length]; lia).
      destruct (r - n <=? Z.of_nat (length cs) * n)%Z eqn:H1;
        destruct (r <=? n * n)%Z eqn:H2;
        try (apply Z.leb_le in H1); try (apply Z.leb_gt in H1);
        try (apply Z.leb_le in H2); try (apply Z.leb_gt in H2); try nia.
      * f_equal. lia.
      * done.
Qed.

(** *** Instances *)

Import Examples.

Lemma add_puts_element_in_its_leaf_witness :
  exists t',
    node_add 1 tt one_layer_classifier 0%Q 6 one_layer_tree
    = Some (negb (present 1 tt one_layer_classifier 6 one_layer_tree),
            (if present 1 tt one_layer_classifier 6 one_layer_tree then 0%Q
             else class_rate 1 tt one_layer_classifier 6), t')
    /\ present 1 tt one_layer_classifier 6 t' = true
    /\ (forall e', e' <> 6%Z ->
          present 1 tt one_layer_classifier e' t'
          = present 1 tt one_layer_classifier e' one_layer_tree)
    /\ node_size 1 t'
       = (node_size 1 one_layer_tree
          + (if present 1 tt one_layer_classifier 6 one_layer_tree then 0 else 1))%Z
    /\ (node_total_rate 1 t'
        == node_total_rate 1 one_layer_tree
           + (if present 1 tt one_layer_classifier 6 one_layer_tree then 0
              else class_rate 1 tt one_layer_classifier 6))%Q.
Proof.
  apply (add_puts_element_in_its_leaf 1 tt one_layer_classifier 0%Q 6 one_layer_tree).
  intros S bin. simpl. lra.
Defined.

Lemma remove_takes_element_from_its_leaf_witness :
  exists t',
    node_remove 1 tt one_layer_classifier 0%Q 5 one_layer_tree
    = Some (present 1 tt one_layer_classifier 5 one_layer_tree,
            (if present 1 tt one_layer_classifier 5 one_layer_tree
             then (- class_rate 1 tt one_layer_classifier 5)%Q else 0%Q), t')
    /\ present 1 tt one_layer_classifier 5 t' = false
    /\ (forall e', e' <> 5%Z ->
          present 1 tt one_layer_classifier e' t'
          = present 1 tt one_layer_classifier e' one_layer_tree)
    /\ node_size 1 t'
       = (node_size 1 one_layer_tree
          + (if present 1 tt one_layer_classifier 5 one_layer_tree then -1 else 0))%Z
    /\ (node_total_rate 1 t'
        == node_total_rate 1 one_layer_tree
           + (if present 1 tt one_layer_classifier 5 one_layer_tree
              then - class_rate 1 tt one_layer_classifier 5 else 0))%Q.
Proof.
  apply (remove_takes_element_from_its_leaf 1 tt one_layer_classifier 0%Q 5 one_layer_tree).
  intros S bin. simpl. lra.
Defined.

Lemma add_then_remove_restores_witness :
  exists dl t1 t2,
    node_add 1 tt one_layer_classifier 0%Q 6 one_layer_tree = Some (true, dl, t1)
    /\ node_remove 1 tt one_layer_classifier 0%Q 6 t1 = Some (true, (- dl)%Q, t2)
    /\ (forall path, length path = 1 ->
          members_at 1 path t2 = members_at 1 path one_layer_tree)
    /\ node_size 1 t2 = node_size 1 one_layer_tree
    /\ (node_total_rate 1 t2 == node_total_rate 1 one_layer_tree)%Q.
Proof.
  apply (add_then_remove_restores 1 tt one_layer_classifier 0%Q 6 one_layer_tree).
  - intros S bin. simpl. lra.
  - vm_compute. reflexivity.
Defined.

Lemma members_stay_in_their_classified_leaf_witness :
  exists t,
    run_ops 2 example_classifier example_ops (node_new 2) = Some t
    /\ well_placed 2 tt example_classifier t
    /\ (forall p1 p2 elem,
          length p1 = 2 -> length p2 = 2 ->
          elem ∈ members_at 2 p1 t -> elem ∈ members_at 2 p2 t -> p1 = p2).
Proof.
  apply (members_stay_in_their_classified_leaf 2 tt example_classifier example_ops).
  - intros S1 bin1 S2 bin2. simpl. destruct (Nat.even bin1); lra.
  - repeat constructor.
Defined.

Lemma size_counts_the_members_witness :
  exists t,
    run_ops 2 example_classifier example_ops (node_new 2) = Some t
    /\ sizes_ok 2 t
    /\ node_size 2 t = leaves_size_sum 2 t.
Proof.
  apply (size_counts_the_members 2 example_classifier example_ops).
  intros S1 bin1 S2 bin2. simpl. destruct (Nat.even bin1); lra.
Defined.

Lemma weighted_bin_is_the_slice_of_the_draw_witness :
  random_weighted_bin LeafNode leaf_total_rate Qmult Qminus (1 # 2) two_bins = Some 1.
Proof.
  apply (weighted_bin_is_the_slice_of_the_draw leaf_total_rate (1 # 2) two_bins 1).
  - repeat constructor; simpl; lra.
  - simpl. lia.
  - right. vm_compute. reflexivity.
  - vm_compute. discriminate.
Defined.

Lemma uniform_bin_depends_on_bin_count_only_witness :
  random_uniform_bin LeafNode (fun _ => 3%Z) two_bins
  = if (0 <? 2)%Z && (3 <=? 2 * 2)%Z then Some (Z.to_nat ((3 - 1) / 2)) else None.
Proof.
  apply (uniform_bin_depends_on_bin_count_only (fun _ => 3%Z) two_bins).
  - simpl. lia.
  - lia.
Defined.

End CatNodesOpsFacts.

(** ** The rate tree: transfer and shift of the bins *)

Module CatNodesShiftFacts.
Import CatNodes CatNodesOps CatNodesShift CatNodesFacts CatNodesOpsFacts.

Section ShiftFacts.
Context {StateT : Type}.
Variable hash_order : gset Z -> list Z.
Hypothesis hash_order_members : forall (s : gset Z) x, x ∈ hash_order s <-> x ∈ s.

Lemma tree_swap_eq {SubCat : Type} (t o : TreeNode SubCat) : tree_swap t o = (o, t).
Proof. by destruct t, o. Qed.

Lemma shift_loop_spec {SubCat : Type} (a : list (TreeNode SubCat)) :
  forall e post, shift_loop (length a) (a ++ e :: post) = e :: a ++ post.
Proof.
  induction a as [|x a IH] using rev_ind; intros e post; [done|].
  rewrite length_app, Nat.add_1_r. cbn [shift_loop]. rewrite tree_swap_eq.
  rewrite <- !app_assoc. cbn [app].
  rewrite !nth_lookup.
  replace (S (length a)) with (length a + 1) by lia.
  rewrite (lookup_app_r a) by lia. rewrite (lookup_app_r a) by lia.
  replace (length a + 1 - length a) with 1 by lia.
  replace (length a - length a) with 0 by lia. cbn [lookup list_lookup default].
  rewrite (insert_app_r_alt a) by lia.
  replace (length a + 1 - length a) with 1 by lia. cbn [insert list_insert].
  rewrite (insert_app_r_alt a) by lia.
  replace (length a - length a) with 0 by lia. cbn [insert list_insert].
  by rewrite IH.
Qed.

Lemma transfer_elems_spec k (S : StateT) (C : Classifier k) :
  rates_nonneg k C ->
  forall es (o : Node k),
    exists o',
      transfer_elems k S C es o = Some o'
      /\ forall path, length path = k ->
           forall x, x ∈ members_at k path o'
                     <-> x ∈ members_at k path o \/ (x ∈ es /\ path = class_path k S C x).
Proof.
  intros Hnn es. induction es as [|e es IH]; intros o.
  - exists o. split; [done|]. intros path _ x. rewrite elem_of_nil. tauto.
  - cbn [transfer_elems].
    destruct (node_add_total k S C 0%Q e o Hnn) as (ok & delta & o1 & Hadd & _).
    rewrite Hadd.
    destruct (node_add_result k S C 0%Q e o ok delta o1 Hadd) as (_ & _ & Hmem).
    destruct (IH o1) as (o' & Hrun & Hmem').
    exists o'. split; [exact Hrun|].
    intros path Hlen x. rewrite (Hmem' path Hlen x), (Hmem path Hlen), elem_of_cons.
    case_decide as Hp.
    + rewrite elem_of_union, elem_of_singleton. subst path. naive_solver.
    + naive_solver.
Qed.

Lemma transfer_cats_spec k (S : StateT) (C : Classifier k) {SubCat : Type}
    (sub_transfer : StateT -> Classifier k -> SubCat -> Node k -> option (SubCat * Node k))
    (M : SubCat -> Z -> Prop) :
  (forall c o,
     exists c' o',
       sub_transfer S C c o = Some (c', o')
       /\ forall path, length path = k ->
            forall x, x ∈ members_at k path o'
                      <-> x ∈ members_at k path o \/ (path = class_path k S C x /\ M c x)) ->
  forall cs o,
    exists o',
      transfer_cats k SubCat sub_transfer S C cs o = Some o'
      /\ forall path, length path = k ->
           forall x, x ∈ members_at k path o'
                     <-> x ∈ members_at k path o
                         \/ (path = class_path k S C x /\ exists c, c ∈ cs /\ M c x).
Proof.
  intros Hsub cs. induction cs as [|c cs IH]; intros o.
  - exists o. split; [done|]. intros path _ x. split; [by left|].
    intros [H|(_ & c & Hc & _)]; [done|]. by apply elem_of_nil in Hc.
  - cbn [transfer_cats].
    destruct (Hsub c o) as (c' & o1 & -> & Hmem).
    destruct (IH o1) as (o' & Hrun & Hmem').
    exists o'. split; [exact Hrun|].
    intros path Hlen x. rewrite (Hmem' path Hlen x), (Hmem path Hlen x).
    split.
    + intros [[H|[Hp HM]]|(Hp & c0 & Hc0 & HM)]; [by left| |].
      * right. split; [done|]. exists c. split; [apply elem_of_cons; by left | done].
      * right. split; [done|]. exists c0. split; [apply elem_of_cons; by right | done].
    + intros [H|(Hp & c0 & Hc0 & HM)]; [by left; left|].
      apply elem_of_cons in Hc0 as [->|Hc0].
      * left. right. done.
      * right. split; [done|]. by exists c0.
Qed.

Lemma node_transfer_spec k (S : StateT) (C : Classifier k) :
  rates_nonneg k C ->
  forall d (src : Node d) (o : Node k),
    exists src' o',
      node_transfer hash_order k d S C src o = Some (src', o')
      /\ forall path, length path = k ->
           forall x, x ∈ members_at k path o'
                     <-> x ∈ members_at k path o
                         \/ (path = class_path k S C x /\ member_of d src x).
Proof.
  intros Hnn d. induction d as [|d IH]; intros src o.
  - cbn [node_transfer]. unfold leaf_transfer.
    destruct (transfer_elems_spec k S C Hnn (hash_order (elems src)) o) as (o' & -> & Hmem).
    eexists _, o'. split; [done|].
    intros path Hlen x. rewrite (Hmem path Hlen x), hash_order_members.
    unfold member_of. cbn [members_at]. split.
    + intros [H|[H Hp]]; [by left|]. right. split; [done|]. by exists [].
    + intros [H|(Hp & p & _ & H)]; [by left|]. by right.
  - change (Node (Datatypes.S d)) with (TreeNode (Node d)) in src.
    change (node_transfer hash_order k (Datatypes.S d) S C src o)
      with (tree_transfer k (Node d) (node_transfer hash_order k d) S C src o).
    unfold tree_transfer.
    destruct (transfer_cats_spec k S C (node_transfer hash_order k d) (member_of d) IH
                (cats src) o) as (o' & -> & Hmem).
    eexists _, o'. split; [done|].
    intros path Hlen x. rewrite (Hmem path Hlen x).
    apply or_iff_compat_l, and_iff_compat_l.
    unfold member_of. split.
    + intros (c & Hc & p & Hp & Hx).
      apply list_elem_of_lookup in Hc as [i Hi].
      exists (i :: p). split; [simpl; by rewrite Hp|].
      cbn [members_at]. by rewrite Hi.
    + intros (p & Hp & Hx). destruct p as [|i p]; [done|].
      cbn [members_at] in Hx.
      destruct (cats src !! i) as [c|] eqn:Hi; [|by apply elem_of_empty in Hx].
      exists c. split; [by eapply list_elem_of_lookup_2|].
      exists p. split; [simpl in Hp; lia | done].
Qed.

Lemma transfer_elems_keeps k (S : StateT) (C : Classifier k) (P : Node k -> Prop) :
  (forall e o ok dl o', node_add k S C 0%Q e o = Some (ok, dl, o') -> P o -> P o') ->
  forall es o o', transfer_elems k S C es o = Some o' -> P o -> P o'.
Proof.
  intros Hadd es. induction es as [|e es IH]; intros o o' Hrun HP.
  - injection Hrun as <-. exact HP.
  - cbn [transfer_elems] in Hrun.
    destruct (node_add k S C 0%Q e o) as [[[ok dl] o1]|] eqn:E; [|discriminate].
    apply (IH o1 o' Hrun). by eapply Hadd.
Qed.

Lemma transfer_cats_keeps k (S : StateT) (C : Classifier k) {SubCat : Type}
    (sub_transfer : StateT -> Classifier k -> SubCat -> Node k -> option (SubCat * Node k))
    (P : Node k -> Prop) :
  (forall c o c' o', sub_transfer S C c o = Some (c', o') -> P o -> P o') ->
  forall cs o o', transfer_cats k SubCat sub_transfer S C cs o = Some o' -> P o -> P o'.
Proof.
  intros Hsub cs. induction cs as [|c cs IH]; intros o o' Hrun HP.
  - injection Hrun as <-. exact HP.
  - cbn [transfer_cats] in Hrun.
    destruct (sub_transfer S C c o) as [[c' o1]|] eqn:E; [|discriminate].
    apply (IH o1 o' Hrun). by eapply Hsub.
Qed.

Lemma node_transfer_keeps k (S : StateT) (C : Classifier k) (P : Node k -> Prop) :
  (forall e o ok dl o', node_add k S C 0%Q e o = Some (ok, dl, o') -> P o -> P o') ->
  forall d (src : Node d) o src' o',
    node_transfer hash_order k d S C src o = Some (src', o') -> P o -> P o'.
Proof.
  intros Hadd d. induction d as [|d IH]; intros src o src' o' Hrun HP.
  - cbn [node_transfer] in Hrun. unfold leaf_transfer in Hrun.
    destruct (transfer_elems k S C (hash_order (elems src)) o) as [o1|] eqn:E; [|discriminate].
    injection Hrun as _ <-. by eapply (transfer_elems_keeps k S C P Hadd).
  - change (Node (Datatypes.S d)) with (TreeNode (Node d)) in src.
    change (tree_transfer k (Node d) (node_transfer hash_order k d) S C src o
            = Some (src', o')) in Hrun.
    unfold tree_transfer in Hrun.
    destruct (transfer_cats k (Node d) (node_transfer hash_order k d) S C (cats src) o)
      as [o1|] eqn:E; [|discriminate].
    injection Hrun as _ <-.
    by eapply (transfer_cats_keeps k S C (node_transfer hash_order k d) P IH).
Qed.

Lemma node_transfer_source k (S : StateT) (C : Classifier k) d (src : Node d) o src' o' :
  node_transfer hash_order k d S C src o = Some (src', o') ->
  (forall x, ~ member_of d src' x)
  /\ node_total_rate d src' = node_total_rate d src.
Proof.
  destruct d as [|d]; intros Hrun.
  - cbn [node_transfer] in Hrun. unfold leaf_transfer in Hrun.
    destruct (transfer_elems k S C (hash_order (elems src)) o) as [o1|]; [|discriminate].
    injection Hrun as <- _. split; [|done].
    intros x (p & _ & Hx). by apply elem_of_empty in Hx.
  - change (Node (Datatypes.S d)) with (TreeNode (Node d)) in src.
    change (tree_transfer k (Node d) (node_transfer hash_order k d) S C src o
            = Some (src', o')) in Hrun.
    unfold tree_transfer in Hrun.
    destruct (transfer_cats k (Node d) (node_transfer hash_order k d) S C (cats src) o)
      as [o1|]; [|discriminate].
    injection Hrun as <- _. split; [|done].
    intros x (p & _ & Hx). destruct p as [|b p]; by apply elem_of_empty in Hx.
Qed.

(** X9. transfer moves every member of a subtree into the target: it
    returns when the target's rates are non-negative, every member of the
    source is then in the leaf of the target its classification leads to,
    next to the members the target had, the source has no member left but
    keeps the total rate it had, and the target keeps the invariants of
    its cached totals and sizes. *)
Theorem transfer_moves_all_members k d (S : StateT) (C : Classifier k)
    (src : Node d) (o : Node k) :
  rates_nonneg k C ->
  exists src' o',
    node_transfer hash_order k d S C src o = Some (src', o')
    /\ (forall x, ~ member_of d src' x)
    /\ node_total_rate d src' = node_total_rate d src
    /\ (forall path, length path = k ->
          forall x, x ∈ members_at k path o'
                    <-> x ∈ members_at k path o
                        \/ (path = class_path k S C x /\ member_of d src x))
    /\ (I1 k o -> I1 k o')
    /\ (sizes_ok k o -> sizes_ok k o')
    /\ (leaves_ok k S C o -> leaves_ok k S C o').
Proof.
  intros Hnn.
  destruct (node_transfer_spec k S C Hnn d src o) as (src' & o' & Hrun & Hmem).
  exists src', o'. split; [exact Hrun|].
  destruct (node_transfer_source k S C d src o src' o' Hrun) as [Hempty Hrate].
  split; [exact Hempty|]. split; [exact Hrate|]. split; [exact Hmem|].
  split; [|split].
  - apply (node_transfer_keeps k S C (I1 k)) with (d := d) (src := src) (src' := src');
      [|exact Hrun].
    intros e o0 ok dl o0' Hadd. by apply (node_add_effect k S C 0%Q e o0 ok dl o0' Hadd).
  - apply (node_transfer_keeps k S C (sizes_ok k)) with (d := d) (src := src) (src' := src');
      [|exact Hrun].
    intros e o0 ok dl o0' Hadd. by apply (node_add_effect k S C 0%Q e o0 ok dl o0' Hadd).
  - apply (node_transfer_keeps k S C (leaves_ok k S C)) with (d := d) (src := src)
                                                              (src' := src'); [|exact Hrun].
    intros e o0 ok dl o0' Hadd. by apply (node_add_leaves k S C 0%Q e o0 ok dl o0' Hadd).
Qed.

Lemma recalc_loop_length d (S : StateT) (C : TreeClassifier (Classifier d)) :
  forall (cs : list (Node d)) i total,
    length (snd (recalc_loop (Node d) (Classifier d) (node_recalc_rates d) S C cs i total))
    = length cs.
Proof.
  intros cs i total. apply Nat.le_antisymm.
  - destruct (decide (length (snd (recalc_loop (Node d) (Classifier d) (node_recalc_rates d)
                                     S C cs i total)) <= length cs)) as [|Hgt]; [done|].
    exfalso.
    assert (is_Some (snd (recalc_loop (Node d) (Classifier d) (node_recalc_rates d)
                            S C cs i total) !! length cs)) as [x Hx]
      by (apply lookup_lt_is_Some; lia).
    rewrite recalc_loop_lookup in Hx. rewrite lookup_ge_None_2 in Hx by lia. done.
  - destruct (decide (length cs
                      <= length (snd (recalc_loop (Node d) (Classifier d)
                                        (node_recalc_rates d) S C cs i total)))) as [|Hgt];
      [done|].
    exfalso.
    assert (is_Some (cs !! length (snd (recalc_loop (Node d) (Classifier d)
                                          (node_recalc_rates d) S C cs i total))))
      as [x Hx] by (apply lookup_lt_is_Some; lia).
    pose proof (recalc_loop_lookup d S C cs i total
                  (length (snd (recalc_loop (Node d) (Classifier d) (node_recalc_rates d)
                                  S C cs i total)))) as Hl.
    rewrite Hx in Hl. rewrite lookup_ge_None_2 in Hl by lia. done.
Qed.

Lemma node_recalc_rates_bins d (S : StateT) (C : TreeClassifier (Classifier d))
    (t : TreeNode (Node d)) :
  length (cats (snd (node_recalc_rates (Datatypes.S d) S C t))) = length (cats t).
Proof.
  rewrite node_recalc_rates_S. unfold tree_recalc_rates.
  pose proof (recalc_loop_length d S C (cats t) 0 0%Q) as Hlen.
  destruct (recalc_loop _ _ _ S C (cats t) 0 0%Q) as [total cs]. exact Hlen.
Qed.

Lemma shifted_lookup {A : Type} (new o : A) (cs : list A) (last b : nat) :
  resize (S last) new (<[last := o]> (new :: cs)) !! b
  = if decide (b < last) then Some (default new ((new :: cs) !! b))
    else if decide (b = last)
         then Some (if decide (last < S (length cs)) then o else new)
         else None.
Proof.
  case_decide as Hlt; [|case_decide as Heq].
  - destruct (decide (b < S (length cs))) as [Hin|Hout].
    + rewrite lookup_resize by (rewrite ?length_insert; simpl; lia).
      rewrite list_lookup_insert_ne by lia.
      destruct (lookup_lt_is_Some_2 (new :: cs) b) as [x Hx]; [simpl; lia|].
      by rewrite Hx.
    + rewrite lookup_resize_new by (rewrite ?length_insert; simpl; lia).
      rewrite (lookup_ge_None_2 (new :: cs)) by (simpl; lia). done.
  - subst b. case_decide as Hin.
    + rewrite lookup_resize by (rewrite ?length_insert; simpl; lia).
      rewrite list_lookup_insert_eq by (simpl; lia). done.
    + rewrite lookup_resize_new by (rewrite ?length_insert; simpl; lia). done.
  - rewrite lookup_resize_old by lia. done.
Qed.

(** X10. shift_and_recalc_rates ages a tree by one bin and loses nobody:
    with C.size() >= 1 and non-negative rates in the last bin it returns,
    the tree has exactly C.size() bins and the same n_elems, and all the
    cached totals have been recomputed from the rates.  The members of
    every old bin b - 1 are in bin b at the same place below it, for
    1 <= b < C.size(); the members of the old bins from C.size() - 1 on
    are in the last bin, C.size() - 1, at the leaf its classifier gives
    them; nobody else is anywhere.  So bin 0 is empty when C.size() >= 2,
    and with C.size() = 1 bin 0 is the last bin and holds the members of
    all the old bins. *)
Theorem shift_moves_every_bin_up (d C_size : nat) (S : StateT)
    (C : TreeClassifier (TreeClassifier (Classifier d)))
    (t : TreeNode (TreeNode (Node d))) :
  0 < C_size ->
  rates_nonneg (Datatypes.S d) (get C S (C_size - 1)) ->
  exists t' : TreeNode (TreeNode (Node d)),
    shift_and_recalc_rates hash_order d C_size S C t = Some t'
    /\ length (cats t') = C_size
    /\ n_elems t' = n_elems t
    /\ I1 (Datatypes.S (Datatypes.S d)) t'
    /\ leaves_ok (Datatypes.S (Datatypes.S d)) S C t'
    /\ (total_rate t' == leaves_rate_sum (Datatypes.S (Datatypes.S d)) S C t')%Q
    /\ (forall b p x,
         length p = Datatypes.S d ->
         x ∈ members_at (Datatypes.S (Datatypes.S d)) (b :: p) t'
         <-> (1 <= b < C_size
              /\ x ∈ members_at (Datatypes.S (Datatypes.S d)) (b - 1 :: p) t)
             \/ (b = C_size - 1
                 /\ p = class_path (Datatypes.S d) S (get C S (C_size - 1)) x
                 /\ exists i c,
                      C_size - 1 <= i /\ cats t !! i = Some c
                      /\ member_of (Datatypes.S d) c x))
    /\ (2 <= C_size ->
        forall p x,
          length p = Datatypes.S d ->
          x ∉ members_at (Datatypes.S (Datatypes.S d)) (0 :: p) t')
    /\ (C_size = 1 ->
        forall p x,
          length p = Datatypes.S d ->
          x ∈ members_at (Datatypes.S (Datatypes.S d)) (0 :: p) t'
          <-> p = class_path (Datatypes.S d) S (get C S 0) x
              /\ exists i c, cats t !! i = Some c /\ member_of (Datatypes.S d) c x).
Proof.
  intros Hpos Hnn. destruct C_size as [|last]; [lia|].
  replace (Datatypes.S last - 1) with last in * by lia.
  unfold shift_and_recalc_rates. cbv zeta.
  rewrite length_app. cbn [length].
  replace (length (cats t) + 1 - 1) with (length (cats t)) by lia.
  rewrite shift_loop_spec, app_nil_r.
  set (new := TreeNode_new (Node d)).
  assert (forall p, members_at (Datatypes.S d) p new = ∅) as Hnew
    by (intros p; apply (members_at_new (Datatypes.S d) p)).
  destruct (transfer_cats_spec (Datatypes.S d) S (get C S last)
              (node_transfer hash_order (Datatypes.S d) (Datatypes.S d))
              (member_of (Datatypes.S d))
              (node_transfer_spec (Datatypes.S d) S (get C S last) Hnn (Datatypes.S d))
              (drop (Datatypes.S last) (new :: cats t)) (nth last (new :: cats t) new))
    as (o & Hrun & Hmem).
  match goal with
  | |- context [match ?e with Some _ => _ | None => _ end] =>
      assert (e = Some o) as -> by exact Hrun
  end.
  set (cs3 := resize (Datatypes.S last) new (<[last := o]> (new :: cats t))).
  set (T := mkTreeNode (total_rate t) (n_elems t) cs3).
  destruct (node_recalc_rates_spec (Datatypes.S (Datatypes.S d)) S C T)
    as (Hfst & HI1 & Hleaves & Hsize & Hmembers).
  exists (snd (node_recalc_rates (Datatypes.S (Datatypes.S d)) S C T)).
  split; [reflexivity|]. split; [|split; [exact Hsize|split; [exact HI1|split; [exact Hleaves|split]]]].
  - etrans; [apply (node_recalc_rates_bins (Datatypes.S d) S C T)|].
    unfold T, cs3. cbn [cats]. by rewrite length_resize.
  - apply (total_is_leaves_rate_sum (Datatypes.S (Datatypes.S d)) S C _ HI1 Hleaves).
  - assert (forall b p x,
              length p = Datatypes.S d ->
              x ∈ members_at (Datatypes.S (Datatypes.S d)) (b :: p)
                    (snd (node_recalc_rates (Datatypes.S (Datatypes.S d)) S C T))
              <-> (1 <= b < Datatypes.S last
                   /\ x ∈ members_at (Datatypes.S (Datatypes.S d)) (b - 1 :: p) t)
                  \/ (b = last
                      /\ p = class_path (Datatypes.S d) S (get C S last) x
                      /\ exists i c,
                           last <= i /\ cats t !! i = Some c
                           /\ member_of (Datatypes.S d) c x)) as Hiff.
    { intros b p x Hp. rewrite (Hmembers (b :: p)).
      change (members_at (Datatypes.S (Datatypes.S d)) (b :: p) T)
        with (match cs3 !! b with
              | Some sub => members_at (Datatypes.S d) p sub
              | None => ∅
              end).
      unfold cs3. rewrite shifted_lookup.
      change (members_at (Datatypes.S (Datatypes.S d)) (b - 1 :: p) t)
        with (match cats t !! (b - 1) with
              | Some sub => members_at (Datatypes.S d) p sub
              | None => ∅
              end).
      assert (forall c : Node (Datatypes.S d),
                (exists i, last <= i /\ cats t !! i = Some c)
                <-> c ∈ drop (Datatypes.S last) (new :: cats t)) as Hdrop.
      { intros c. cbn [drop]. rewrite list_elem_of_lookup. split.
        - intros (i & Hi & Hc). exists (i - last). rewrite lookup_drop.
          by replace (last + (i - last)) with i by lia.
        - intros (j & Hj). rewrite lookup_drop in Hj. exists (last + j). split; [lia | done]. }
      case_decide as Hlt; [|case_decide as Heq].
      + destruct b as [|b'].
        * cbn [lookup list_lookup default]. fold new.
          rewrite Hnew. split; [by intros ?%elem_of_empty|].
          intros [[? _]|[? _]]; lia.
        * change ((new :: cats t) !! Datatypes.S b') with (cats t !! b').
          replace (Datatypes.S b' - 1) with b' by lia.
          destruct (cats t !! b') as [c|]; cbn [default].
          -- split; [intros H; left; split; [lia | done]|].
             intros [[_ H]|[? _]]; [done | lia].
          -- rewrite Hnew. split; [by intros ?%elem_of_empty|].
             intros [[_ H]|[? _]]; [done | lia].
      + subst b. case_decide as Hin.
        * rewrite (Hmem p Hp x).
          assert (x ∈ members_at (Datatypes.S d) p (nth last (new :: cats t) new)
                  <-> 1 <= last < Datatypes.S last
                      /\ x ∈ match cats t !! (last - 1) with
                             | Some sub => members_at (Datatypes.S d) p sub
                             | None => ∅
                             end) as ->.
          { destruct last as [|l'].
            - cbn [nth]. rewrite Hnew.
              split; [by intros ?%elem_of_empty | intros [? _]; lia].
            - cbn [nth]. replace (Datatypes.S l' - 1) with l' by lia.
              rewrite nth_lookup.
              destruct (cats t !! l') as [c|]; cbn [default].
              + split; [intros H; split; [lia | done] | by intros [_ H]].
              + rewrite Hnew.
                split; [by intros ?%elem_of_empty | by intros [_ H]]. }
          apply or_iff_compat_l. split.
          -- intros (Hpath & c & Hc & HM). split; [done|]. split; [done|].
             apply Hdrop in Hc as (i & Hi & Hc). by exists i, c.
          -- intros (_ & Hpath & i & c & Hi & Hc & HM). split; [done|].
             exists c. split; [|done]. apply Hdrop. by exists i.
        * rewrite Hnew. split; [by intros ?%elem_of_empty|].
          intros [[_ H]|(_ & _ & i & c & Hi & Hc & _)].
          -- rewrite lookup_ge_None_2 in H by lia. by apply elem_of_empty in H.
          -- apply lookup_lt_Some in Hc. lia.
      + split; [by intros ?%elem_of_empty|]. intros [[? _]|[? _]]; lia. }
    split; [exact Hiff|]. split.
    + intros Hsz p x Hp Hx. apply (Hiff 0 p x Hp) in Hx as [[? _]|[? _]]; lia.
    + intros Hsz p x Hp. assert (last = 0) as -> by lia. rewrite (Hiff 0 p x Hp). split.
      * intros [[? _]|(_ & Hpath & i & c & _ & Hc & HM)]; [lia|].
        split; [done|]. by exists i, c.
      * intros (Hpath & i & c & Hc & HM). right. split; [done|]. split; [done|].
        exists i, c. split; [lia | done].
Qed.

End ShiftFacts.
(** *** Instances *)

Import Examples MoreExamples.

Lemma transfer_moves_all_members_witness :
  exists src' o',
    node_transfer elements 1 1 tt one_layer_classifier two_bins one_layer_tree
    = Some (src', o')
    /\ (forall x, ~ member_of 1 src' x)
    /\ node_total_rate 1 src' = node_total_rate 1 two_bins
    /\ (forall path, length path = 1 ->
          forall x, x ∈ members_at 1 path o'
                    <-> x ∈ members_at 1 path one_layer_tree
                        \/ (path = class_path 1 tt one_layer_classifier x
                            /\ member_of 1 two_bins x))
    /\ (I1 1 one_layer_tree -> I1 1 o')
    /\ (sizes_ok 1 one_layer_tree -> sizes_ok 1 o')
    /\ (leaves_ok 1 tt one_layer_classifier one_layer_tree
        -> leaves_ok 1 tt one_layer_classifier o').
Proof.
  apply (transfer_moves_all_members elements (fun s x => elem_of_elements s x)
           1 1 tt one_layer_classifier two_bins one_layer_tree).
  intros S bin. simpl. lra.
Defined.

Lemma shift_moves_every_bin_up_witness :
  exists t' : TreeNode (TreeNode (Node 0)),
    shift_and_recalc_rates elements 0 2 tt example_classifier aged_tree = Some t'
    /\ length (cats t') = 2
    /\ n_elems t' = n_elems aged_tree
    /\ I1 2 t'
    /\ leaves_ok 2 tt example_classifier t'
    /\ (total_rate t' == leaves_rate_sum 2 tt example_classifier t')%Q
    /\ (forall b p x,
         length p = 1 ->
         x ∈ members_at 2 (b :: p) t'
         <-> (1 <= b < 2 /\ x ∈ members_at 2 (b - 1 :: p) aged_tree)
             \/ (b = 2 - 1
                 /\ p = class_path 1 tt (get example_classifier tt (2 - 1)) x
                 /\ exists i c,
                      2 - 1 <= i /\ cats aged_tree !! i = Some c /\ member_of 1 c x))
    /\ (2 <= 2 -> forall p x, length p = 1 -> x ∉ members_at 2 (0 :: p) t')
    /\ (2 = 1 ->
        forall p x,
          length p = 1 ->
          x ∈ members_at 2 (0 :: p) t'
          <-> p = class_path 1 tt (get example_classifier tt 0) x
              /\ exists i c, cats aged_tree !! i = Some c /\ member_of 1 c x).
Proof.
  apply (shift_moves_every_bin_up elements (fun s x => elem_of_elements s x)
           0 2 tt example_classifier aged_tree).
  - lia.
  - intros S bin. simpl. lra.
Defined.

End CatNodesShiftFacts.

(** ** The rate tree in double arithmetic *)

Module CatNodesRoundedFacts.
Import CatNodes CatNodesOps CatNodesRounded CatNodesFacts CatNodesOpsFacts.

Section RoundedFacts.
Context {StateT : Type}.

(** *** Rates that do not depend on the state *)

Lemma leaves_ok_same_rates d :
  forall (S1 S2 : StateT) (C1 C2 : Classifier d) (t : Node d),
    same_rates d C1 C2 -> leaves_ok d S1 C1 t -> leaves_ok d S2 C2 t.
Proof.
  induction d as [|d IH]; intros S1 S2 C1 C2 t Hsame Hok.
  - simpl in *. etrans; [exact Hok|]. apply Qmult_comp; [exact Hsame | reflexivity].
  - intros bin sub Hsub. eapply IH; [apply Hsame|]. by apply Hok.
Qed.

Lemma apply_op_leaves_free d (C : Classifier d) (o : @Op StateT) (t t' : Node d) :
  state_free_rates d C ->
  apply_op d C o t = Some t' ->
  (forall S, leaves_ok d S C t) -> forall S, leaves_ok d S C t'.
Proof.
  intros Hfree Hop Hok S.
  apply (leaves_ok_same_rates d (op_state o) S C C t' Hfree).
  destruct o as [st elem|st elem]; simpl in *.
  - destruct (node_add d st C 0%Q elem t) as [[[ok dl] t1]|] eqn:E; [|discriminate].
    injection Hop as <-. by eapply node_add_leaves.
  - destruct (node_remove d st C 0%Q elem t) as [[[ok dl] t1]|] eqn:E; [|discriminate].
    injection Hop as <-. by eapply node_remove_leaves.
Qed.

Lemma run_ops_leaves_free d (C : Classifier d) (ops : list (@Op StateT)) :
  state_free_rates d C ->
  forall t t', run_ops d C ops t = Some t' ->
               (forall S, leaves_ok d S C t) -> forall S, leaves_ok d S C t'.
Proof.
  intros Hfree. induction ops as [|o ops IH]; intros t t' Hrun Hok.
  - injection Hrun as <-. exact Hok.
  - cbn [run_ops] in Hrun.
    destruct (apply_op d C o t) as [t1|] eqn:E; [|discriminate].
    apply (IH t1 t' Hrun). by eapply apply_op_leaves_free.
Qed.

(** *** Trees with the same members *)

Lemma same_members_new d : same_members d (node_new d) (node_new d).
Proof. destruct d; simpl; [done|]. split; [done | constructor]. Qed.

Lemma ensure_bin_Forall2 {A} (R : A -> A -> Prop) (new : A) bin cs1 cs2 :
  R new new -> Forall2 R cs1 cs2 ->
  Forall2 R (ensure_bin A new bin cs1) (ensure_bin A new bin cs2).
Proof.
  intros Hnew Hcs. unfold ensure_bin. rewrite (Forall2_length _ _ _ Hcs).
  case_bool_decide; [|done].
  apply Forall2_app; [done|]. by apply Forall2_replicate.
Qed.

Lemma same_members_bin d (t1 t2 : TreeNode (Node d)) bin :
  Forall2 (same_members d) (cats t1) (cats t2) ->
  Forall2 (same_members d) (ensure_bin (Node d) (node_new d) bin (cats t1))
                           (ensure_bin (Node d) (node_new d) bin (cats t2))
  /\ same_members d (nth bin (ensure_bin (Node d) (node_new d) bin (cats t1)) (node_new d))
                    (nth bin (ensure_bin (Node d) (node_new d) bin (cats t2)) (node_new d)).
Proof.
  intros Hcs.
  assert (Forall2 (same_members d) (ensure_bin (Node d) (node_new d) bin (cats t1))
                                   (ensure_bin (Node d) (node_new d) bin (cats t2))) as H
    by (apply ensure_bin_Forall2; [apply same_members_new | done]).
  split; [exact H|].
  eapply Forall2_lookup_lr; [exact H| |]; apply ensure_bin_nth.
Qed.

Lemma imap_Forall2 {A B} (R : A -> A -> Prop) (l1 l2 : list A) :
  Forall2 R l1 l2 ->
  forall f g : nat -> A -> B,
    (forall i x y, R x y -> f i x = g i y) -> imap f l1 = imap g l2.
Proof.
  induction 1 as [|x y l1 l2 Hxy Hl IH]; intros f g Hfg; [done|].
  cbn [imap]. f_equal; [by apply Hfg|]. apply IH. intros i a b Hab. by apply Hfg.
Qed.

Lemma leaves_rate_sum_same d :
  forall (S : StateT) (C : Classifier d) (t1 t2 : Node d),
    same_members d t1 t2 -> leaves_rate_sum d S C t1 = leaves_rate_sum d S C t2.
Proof.
  induction d as [|d IH]; intros S C t1 t2 Hsame.
  - simpl in *. unfold leaf_size. by rewrite Hsame.
  - destruct Hsame as [_ Hcs]. cbn [leaves_rate_sum]. f_equal.
    apply (imap_Forall2 (same_members d) _ _ Hcs). intros i x y Hxy. by apply IH.
Qed.

(** *** Exact addition

    With [Qplus] for the additions the operations are those of
    [CatNodes]. *)

Lemma node_add_rnd_exact d :
  forall (S : StateT) (C : Classifier d) ret elem (t : Node d),
    node_add_rnd Qplus d S C ret elem t = node_add d S C ret elem t.
Proof.
  induction d as [|d IH]; intros S C ret elem t; [reflexivity|].
  change (tree_add_rnd Qplus (Node d) (Classifier d) (node_new d) (node_add_rnd Qplus d)
            S C ret elem t
          = tree_add (Node d) (Classifier d) (node_new d) (node_add d) S C ret elem t).
  unfold tree_add_rnd, tree_add. cbv zeta. by rewrite IH.
Qed.

Lemma node_remove_rnd_exact d :
  forall (S : StateT) (C : Classifier d) ret elem (t : Node d),
    node_remove_rnd Qplus d S C ret elem t = node_remove d S C ret elem t.
Proof.
  induction d as [|d IH]; intros S C ret elem t; [reflexivity|].
  change (tree_remove_rnd Qplus (Node d) (Classifier d) (node_new d)
            (node_remove_rnd Qplus d) S C ret elem t
          = tree_remove (Node d) (Classifier d) (node_new d) (node_remove d) S C ret elem t).
  unfold tree_remove_rnd, tree_remove. cbv zeta. by rewrite IH.
Qed.

Lemma run_ops_rnd_exact d (C : Classifier d) (ops : list (@Op StateT)) :
  forall t : Node d, run_ops_rnd Qplus d C ops t = run_ops d C ops t.
Proof.
  induction ops as [|o ops IH]; intros t; [reflexivity|].
  cbn [run_ops_rnd run_ops].
  assert (apply_op_rnd Qplus d C o t = apply_op d C o t) as ->.
  { destruct o; simpl; [by rewrite node_add_rnd_exact | by rewrite node_remove_rnd_exact]. }
  destruct (apply_op d C o t); [apply IH | reflexivity].
Qed.

(** *** Rounded additions *)

Section Rounding.
Variable fadd : Q -> Q -> Q.
Variable eps : Q.
Hypothesis fadd_error : forall x y, within eps (fadd x y) (x + y).

Lemma eps_nonneg : (0 <= eps)%Q.
Proof. destruct (fadd_error 0 0) as [H1 H2]. lra. Qed.

Lemma node_add_rnd_S d :
  node_add_rnd (StateT := StateT) fadd (Datatypes.S d)
  = tree_add_rnd fadd (Node d) (Classifier d) (node_new d) (node_add_rnd fadd d).
Proof. reflexivity. Qed.

Lemma node_remove_rnd_S d :
  node_remove_rnd (StateT := StateT) fadd (Datatypes.S d)
  = tree_remove_rnd fadd (Node d) (Classifier d) (node_new d) (node_remove_rnd fadd d).
Proof. reflexivity. Qed.

(** The rounded operations do to the members what the exact ones do,
    with the same result and the same delta. *)
Lemma node_add_rnd_members d :
  forall (S : StateT) (C : Classifier d) ret elem (tr te : Node d),
    same_members d tr te ->
    match node_add d S C ret elem te with
    | Some (ok, dl, te') =>
        exists tr', node_add_rnd fadd d S C ret elem tr = Some (ok, dl, tr')
                    /\ same_members d tr' te'
    | None => node_add_rnd fadd d S C ret elem tr = None
    end.
Proof.
  induction d as [|d IH]; intros S C ret elem tr te Hsame.
  - simpl in *. unfold leaf_add, leaf_add_rnd. rewrite !leaf_insert_unique, Hsame.
    case_bool_decide; eexists; (split; [reflexivity|]); reflexivity.
  - change (TreeNode (Node d)) in tr. change (TreeNode (Node d)) in te.
    change (@TreeClassifier StateT (@Classifier StateT d)) in C.
    destruct Hsame as [Hn Hcs].
    rewrite node_add_S, node_add_rnd_S. unfold tree_add, tree_add_rnd. cbv zeta.
    destruct (same_members_bin d tr te (classify C S elem) Hcs) as [Hall Hnth].
    specialize (IH S (get C S (classify C S elem)) 0%Q elem _ _ Hnth).
    destruct (node_add d S (get C S (classify C S elem)) 0%Q elem
                (nth (classify C S elem)
                   (ensure_bin (Node d) (node_new d) (classify C S elem) (cats te))
                   (node_new d))) as [[[ok dl] sub]|].
    + destruct IH as (subr & -> & Hsub). destruct ok.
      * destruct (Qle_bool 0 dl); [|done].
        eexists. split; [reflexivity|]. split; [simpl; by rewrite Hn|].
        simpl. by apply Forall2_insert.
      * eexists. split; [reflexivity|]. split; [exact Hn|].
        simpl. by apply Forall2_insert.
    + by rewrite IH.
Qed.

Lemma node_remove_rnd_members d :
  forall (S : StateT) (C : Classifier d) ret elem (tr te : Node d),
    same_members d tr te ->
    match node_remove d S C ret elem te with
    | Some (ok, dl, te') =>
        exists tr', node_remove_rnd fadd d S C ret elem tr = Some (ok, dl, tr')
                    /\ same_members d tr' te'
    | None => node_remove_rnd fadd d S C ret elem tr = None
    end.
Proof.
  induction d as [|d IH]; intros S C ret elem tr te Hsame.
  - simpl in *. unfold leaf_remove, leaf_remove_rnd, hash_erase. rewrite Hsame.
    destruct (bool_decide (0 < (if bool_decide (elem ∈ elems te) then 1 else 0)));
      eexists; (split; [reflexivity|]); reflexivity.
  - change (TreeNode (Node d)) in tr. change (TreeNode (Node d)) in te.
    change (@TreeClassifier StateT (@Classifier StateT d)) in C.
    destruct Hsame as [Hn Hcs].
    rewrite node_remove_S, node_remove_rnd_S. unfold tree_remove, tree_remove_rnd. cbv zeta.
    destruct (same_members_bin d tr te (classify C S elem) Hcs) as [Hall Hnth].
    specialize (IH S (get C S (classify C S elem)) 0%Q elem _ _ Hnth).
    destruct (node_remove d S (get C S (classify C S elem)) 0%Q elem
                (nth (classify C S elem)
                   (ensure_bin (Node d) (node_new d) (classify C S elem) (cats te))
                   (node_new d))) as [[[ok dl] sub]|].
    + destruct IH as (subr & -> & Hsub). destruct ok.
      * destruct (Qle_bool dl 0); [|done].
        eexists. split; [reflexivity|]. split; [simpl; by rewrite Hn|].
        simpl. by apply Forall2_insert.
      * eexists. split; [reflexivity|]. split; [exact Hn|].
        simpl. by apply Forall2_insert.
    + by rewrite IH.
Qed.

Lemma drift_within_mono d (b b' : Q) :
  (b <= b')%Q -> forall t : Node d, drift_within d b t -> drift_within d b' t.
Proof.
  intros Hb. induction d as [|d IH]; intros t; [done|].
  intros [[H1 H2] Hall]. split; [split; lra|].
  eapply Forall_impl; [exact Hall|]. exact IH.
Qed.

Lemma drift_within_new d (b : Q) : (0 <= b)%Q -> drift_within d b (node_new d).
Proof.
  intros Hb. destruct d; [done|]. split; [|constructor].
  split; simpl; change (Qsum []) with 0%Q; lra.
Qed.

(** What a layer's rounded update of one bin does to the drift. *)
Lemma layer_update_drift d (t : TreeNode (Node d)) bin (sub' : Node d) (dl b : Q) (k : Z) :
  let cs := ensure_bin (Node d) (node_new d) bin (cats t) in
  node_total_rate d sub' = fadd (node_total_rate d (nth bin cs (node_new d))) dl ->
  (drift_within d b (nth bin cs (node_new d)) -> drift_within d (b + 2 * eps) sub') ->
  drift_within (S d) b t ->
  drift_within (S d) (b + 2 * eps)
    (mkTreeNode (fadd (total_rate t) dl) k (<[bin := sub']> cs)).
Proof.
  intros cs Htot Hsub [[Ht1 Ht2] Hall].
  pose proof eps_nonneg as Heps.
  assert (0 <= b)%Q as Hb by lra.
  assert (Forall (drift_within d b) cs) as Hcs
    by (apply ensure_bin_Forall; [by apply drift_within_new | done]).
  split.
  - pose proof (Qsum_map_insert (node_total_rate d) cs bin _ sub'
                  (ensure_bin_nth (node_new d) bin (cats t))) as H1.
    assert (node_total_rate d (node_new d) == 0)%Q as H0
      by (rewrite node_new_total; reflexivity).
    pose proof (ensure_bin_Qsum (node_total_rate d) (node_new d) bin (cats t) H0) as H2.
    fold cs in H1, H2. rewrite Htot in H1.
    destruct (fadd_error (total_rate t) dl) as [E1 E2].
    destruct (fadd_error (node_total_rate d (nth bin cs (node_new d))) dl) as [E3 E4].
    change (within (b + 2 * eps) (fadd (total_rate t) dl)
                   (Qsum (map (node_total_rate d) (<[bin:=sub']> cs)))).
    split; lra.
  - change (Forall (drift_within d (b + 2 * eps)) (<[bin:=sub']> cs)).
    apply Forall_insert.
    + eapply Forall_impl; [exact Hcs|]. apply drift_within_mono. lra.
    + apply Hsub. rewrite Forall_lookup in Hcs. eapply Hcs. apply ensure_bin_nth.
Qed.

Lemma layer_keep_drift d (t : TreeNode (Node d)) bin (sub' : Node d) (b : Q) :
  let cs := ensure_bin (Node d) (node_new d) bin (cats t) in
  node_total_rate d sub' = node_total_rate d (nth bin cs (node_new d)) ->
  (drift_within d b (nth bin cs (node_new d)) -> drift_within d (b + 2 * eps) sub') ->
  drift_within (S d) b t ->
  drift_within (S d) (b + 2 * eps)
    (mkTreeNode (total_rate t) (n_elems t) (<[bin := sub']> cs)).
Proof.
  intros cs Htot Hsub [[Ht1 Ht2] Hall].
  pose proof eps_nonneg as Heps.
  assert (0 <= b)%Q as Hb by lra.
  assert (Forall (drift_within d b) cs) as Hcs
    by (apply ensure_bin_Forall; [by apply drift_within_new | done]).
  split.
  - pose proof (Qsum_map_insert (node_total_rate d) cs bin _ sub'
                  (ensure_bin_nth (node_new d) bin (cats t))) as H1.
    assert (node_total_rate d (node_new d) == 0)%Q as H0
      by (rewrite node_new_total; reflexivity).
    pose proof (ensure_bin_Qsum (node_total_rate d) (node_new d) bin (cats t) H0) as H2.
    fold cs in H1, H2. rewrite Htot in H1.
    change (within (b + 2 * eps) (total_rate t)
                   (Qsum (map (node_total_rate d) (<[bin:=sub']> cs)))).
    split; lra.
  - change (Forall (drift_within d (b + 2 * eps)) (<[bin:=sub']> cs)).
    apply Forall_insert.
    + eapply Forall_impl; [exact Hcs|]. apply drift_within_mono. lra.
    + apply Hsub. rewrite Forall_lookup in Hcs. eapply Hcs. apply ensure_bin_nth.
Qed.

(** The effect of one rounded [add]: the total of every node on the path
    is the rounded sum of what it was and the delta, and the drift of no
    node grows by more than two rounding errors. *)
Lemma node_add_rnd_effect d :
  forall (S : StateT) (C : Classifier d) ret elem t ok dl t' b,
    node_add_rnd fadd d S C ret elem t = Some (ok, dl, t') ->
    node_total_rate d t' = (if ok then fadd (node_total_rate d t) dl else node_total_rate d t)
    /\ (drift_within d b t -> drift_within d (b + 2 * eps) t').
Proof.
  induction d as [|d IH]; intros S C ret elem t ok dl t' b Hadd.
  - simpl in Hadd. unfold leaf_add_rnd in Hadd. rewrite leaf_insert_unique in Hadd.
    case_bool_decide as Hin; injection Hadd as <- <- <-; simpl; done.
  - change (TreeNode (Node d)) in t.
    change (@TreeClassifier StateT (@Classifier StateT d)) in C.
    rewrite node_add_rnd_S in Hadd. unfold tree_add_rnd in Hadd. cbv zeta in Hadd.
    match type of Hadd with context [nth ?b _ _] => set (bin := b) in * end.
    match type of Hadd with context [nth _ ?l _] => set (cs := l) in * end.
    match type of Hadd with
    | match ?x with _ => _ end = _ => destruct x as [[[ok1 d1] sub]|] eqn:Hsub
    end; [|discriminate].
    destruct (IH _ _ _ _ _ _ _ _ b Hsub) as (Htot & Hdrift).
    destruct ok1; cbv beta iota in Hadd.
    + destruct (Qle_bool 0 d1); [|discriminate].
      injection Hadd as <- <- <-. split; [reflexivity|].
      intros Hinv. by apply layer_update_drift.
    + injection Hadd as <- <- <-. split; [reflexivity|].
      intros Hinv. by apply layer_keep_drift.
Qed.

Lemma node_remove_rnd_effect d :
  forall (S : StateT) (C : Classifier d) ret elem t ok dl t' b,
    node_remove_rnd fadd d S C ret elem t = Some (ok, dl, t') ->
    node_total_rate d t' = (if ok then fadd (node_total_rate d t) dl else node_total_rate d t)
    /\ (drift_within d b t -> drift_within d (b + 2 * eps) t').
Proof.
  induction d as [|d IH]; intros S C ret elem t ok dl t' b Hrem.
  - simpl in Hrem. unfold leaf_remove_rnd, hash_erase in Hrem.
    destruct (bool_decide (0 < (if bool_decide (elem ∈ elems t) then 1 else 0)));
      injection Hrem as <- <- <-; simpl; done.
  - change (TreeNode (Node d)) in t.
    change (@TreeClassifier StateT (@Classifier StateT d)) in C.
    rewrite node_remove_rnd_S in Hrem. unfold tree_remove_rnd in Hrem. cbv zeta in Hrem.
    match type of Hrem with context [nth ?b _ _] => set (bin := b) in * end.
    match type of Hrem with context [nth _ ?l _] => set (cs := l) in * end.
    match type of Hrem with
    | match ?x with _ => _ end = _ => destruct x as [[[ok1 d1] sub]|] eqn:Hsub
    end; [|discriminate].
    destruct (IH _ _ _ _ _ _ _ _ b Hsub) as (Htot & Hdrift).
    destruct ok1; cbv beta iota in Hrem.
    + destruct (Qle_bool d1 0); [|discriminate].
      injection Hrem as <- <- <-. split; [reflexivity|].
      intros Hinv. by apply layer_update_drift.
    + injection Hrem as <- <- <-. split; [reflexivity|].
      intros Hinv. by apply layer_keep_drift.
Qed.

Lemma apply_op_rnd_follows d (C : Classifier d) (o : @Op StateT) (tr te te' : Node d)
    (k b : Q) :
  same_members d tr te ->
  apply_op d C o te = Some te' ->
  within k (node_total_rate d tr) (node_total_rate d te) ->
  drift_within d b tr ->
  exists tr',
    apply_op_rnd fadd d C o tr = Some tr'
    /\ same_members d tr' te'
    /\ within (k + eps) (node_total_rate d tr') (node_total_rate d te')
    /\ drift_within d (b + 2 * eps) tr'.
Proof.
  intros Hsame Hop [Hk1 Hk2] Hdrift. pose proof eps_nonneg as Heps.
  destruct o as [st elem|st elem]; simpl in Hop |- *.
  - pose proof (node_add_rnd_members d st C 0%Q elem tr te Hsame) as Hm.
    destruct (node_add d st C 0%Q elem te) as [[[ok dl] te1]|] eqn:E; [|discriminate].
    injection Hop as <-. destruct Hm as (tr' & Hr & Hsame').
    rewrite Hr. exists tr'. split; [done|]. split; [exact Hsame'|].
    destruct (node_add_effect d st C 0%Q elem te ok dl te1 E) as (Hte & _).
    destruct (node_add_rnd_effect d st C 0%Q elem tr ok dl tr' b Hr) as (Htr & Hd).
    split; [|by apply Hd]. rewrite Htr. destruct ok.
    + destruct (fadd_error (node_total_rate d tr) dl) as [E1 E2]. split; lra.
    + split; lra.
  - pose proof (node_remove_rnd_members d st C 0%Q elem tr te Hsame) as Hm.
    destruct (node_remove d st C 0%Q elem te) as [[[ok dl] te1]|] eqn:E; [|discriminate].
    injection Hop as <-. destruct Hm as (tr' & Hr & Hsame').
    rewrite Hr. exists tr'. split; [done|]. split; [exact Hsame'|].
    destruct (node_remove_effect d st C 0%Q elem te ok dl te1 E) as (Hte & _).
    destruct (node_remove_rnd_effect d st C 0%Q elem tr ok dl tr' b Hr) as (Htr & Hd).
    split; [|by apply Hd]. rewrite Htr. destruct ok.
    + destruct (fadd_error (node_total_rate d tr) dl) as [E1 E2]. split; lra.
    + split; lra.
Qed.

Lemma run_ops_rnd_follows d (C : Classifier d) (ops : list (@Op StateT)) :
  forall (tr te te' : Node d) (k b : Q),
    same_members d tr te ->
    run_ops d C ops te = Some te' ->
    within k (node_total_rate d tr) (node_total_rate d te) ->
    drift_within d b tr ->
    exists tr',
      run_ops_rnd fadd d C ops tr = Some tr'
      /\ same_members d tr' te'
      /\ within (k + Qsum (replicate (length ops) eps))
                (node_total_rate d tr') (node_total_rate d te')
      /\ drift_within d (b + Qsum (replicate (length ops) (2 * eps)%Q)) tr'.
Proof.
  pose proof eps_nonneg as Heps.
  induction ops as [|o ops IH]; intros tr te te' k b Hsame Hrun Hk Hdrift.
  - injection Hrun as <-. exists tr. split; [done|]. split; [exact Hsame|].
    cbn [length replicate]. change (Qsum []) with 0%Q. split.
    + destruct Hk. split; lra.
    + eapply drift_within_mono; [|exact Hdrift]. lra.
  - cbn [run_ops] in Hrun.
    destruct (apply_op d C o te) as [te1|] eqn:E; [|discriminate].
    destruct (apply_op_rnd_follows d C o tr te te1 k b Hsame E Hk Hdrift)
      as (tr1 & Hop & Hsame1 & Hk1 & Hd1).
    destruct (IH tr1 te1 te' _ _ Hsame1 Hrun Hk1 Hd1) as (tr' & Hrun' & Hsame' & Hk' & Hd').
    exists tr'. cbn [run_ops_rnd]. rewrite Hop. split; [exact Hrun'|].
    split; [exact Hsame'|]. cbn [length replicate].
    change (Qsum (eps :: replicate (length ops) eps))
      with (eps + Qsum (replicate (length ops) eps))%Q.
    change (Qsum ((2 * eps)%Q :: replicate (length ops) (2 * eps)%Q))
      with (2 * eps + Qsum (replicate (length ops) (2 * eps)%Q))%Q.
    split.
    + destruct Hk'. split; lra.
    + eapply drift_within_mono; [|exact Hd']. lra.
Qed.

End Rounding.

Lemma Qsum_replicate (n : nat) (x : Q) :
  (Qsum (replicate n x) == x * inject_Z (Z.of_nat n))%Q.
Proof.
  induction n as [|n IH].
  - change (0 == x * 0)%Q. lra.
  - change (x + Qsum (replicate n x) == x * inject_Z (Z.of_nat (S n)))%Q.
    rewrite IH, Nat2Z.inj_succ. unfold Z.succ. rewrite inject_Z_plus. ring.
Qed.

(** C1 (as the code has it).  For a rate tree built from scratch by any
    sequence of [add] and [remove] operations, whatever the states they
    are made in, with non-negative rates.  In exact arithmetic every
    operation returns and every internal node's cached total_rate is the
    sum of its children's total_rate; the root's total_rate is the sum
    over the leaves of per-member rate times leaf size when the rates of
    the classifier do not depend on the state, or when all operations
    were made in one state.  In double arithmetic, each rounded addition
    being within eps of the sum, the same operations return with the same
    members; every internal node's total is within 2 eps times the number
    of operations of the sum of its children's totals, and, under the
    same condition on the rates, the root's total is within eps times the
    number of operations of the sum over the leaves of rate times size. *)
Theorem rate_tree_total_is_sum_of_children
    d (C : Classifier d) (ops : list (@Op StateT)) :
  rates_nonneg d C ->
  let n := inject_Z (Z.of_nat (length ops)) in
  exists t,
    run_ops d C ops (node_new d) = Some t
    /\ I1 d t
    /\ (forall S,
          state_free_rates d C \/ Forall (fun o => op_state o = S) ops ->
          (node_total_rate d t == leaves_rate_sum d S C t)%Q)
    /\ forall (fadd : Q -> Q -> Q) (eps : Q),
         (forall x y, within eps (fadd x y) (x + y)) ->
         exists tr,
           run_ops_rnd fadd d C ops (node_new d) = Some tr
           /\ same_members d tr t
           /\ drift_within d (2 * eps * n) tr
           /\ (forall S,
                 state_free_rates d C \/ Forall (fun o => op_state o = S) ops ->
                 within (eps * n) (node_total_rate d tr) (leaves_rate_sum d S C tr)).
Proof.
  intros Hnn n.
  destruct (run_ops_invariants d C ops Hnn (node_new d)) as (t & Hrun & H1 & _ & H3).
  exists t. split; [exact Hrun|].
  assert (I1 d t) as HI1 by (apply H1, node_new_I1).
  split; [exact HI1|].
  assert (forall S,
            state_free_rates d C \/ Forall (fun o => op_state o = S) ops ->
            (node_total_rate d t == leaves_rate_sum d S C t)%Q) as Hexact.
  { intros S Hcond. apply total_is_leaves_rate_sum; [exact HI1|].
    destruct Hcond as [Hfree|Hall].
    - apply (run_ops_leaves_free d C ops Hfree (node_new d) t Hrun).
      intros S'. apply node_new_leaves_ok.
    - apply H3; [exact Hall | apply node_new_leaves_ok]. }
  split; [exact Hexact|].
  intros fadd eps Herr.
  pose proof (eps_nonneg fadd eps Herr) as Heps.
  destruct (run_ops_rnd_follows fadd eps Herr d C ops (node_new d) (node_new d) t 0 0
              (same_members_new d) Hrun) as (tr & Hrnd & Hsame & [Hk1 Hk2] & Hdrift).
  { split; lra. }
  { apply drift_within_new. lra. }
  exists tr. split; [exact Hrnd|]. split; [exact Hsame|].
  pose proof (Qsum_replicate (length ops) eps) as He.
  pose proof (Qsum_replicate (length ops) (2 * eps)%Q) as He2.
  fold n in He, He2.
  split.
  - eapply drift_within_mono; [|exact Hdrift]. lra.
  - intros S Hcond. specialize (Hexact S Hcond).
    rewrite (leaves_rate_sum_same d S C tr t Hsame).
    split; lra.
Qed.

End RoundedFacts.

(** *** Instances *)

Import Examples MoreExamples.

Lemma grid_add_error x y : within (1 # 1024) (grid_add x y) (x + y).
Proof.
  unfold within, grid_add.
  pose proof (Qfloor_le ((x + y) * 1024)) as Hle.
  pose proof (Qlt_floor ((x + y) * 1024)) as Hlt.
  rewrite inject_Z_plus in Hlt.
  change (inject_Z 1) with 1%Q in Hlt.
  split; lra.
Qed.

Lemma rate_tree_total_is_sum_of_children_witness :
  exists t tr,
    run_ops 2 example_classifier example_ops (node_new 2) = Some t
    /\ I1 2 t
    /\ (node_total_rate 2 t == leaves_rate_sum 2 tt example_classifier t)%Q
    /\ run_ops_rnd grid_add 2 example_classifier example_ops (node_new 2) = Some tr
    /\ same_members 2 tr t
    /\ drift_within 2 (2 * (1 # 1024) * inject_Z (Z.of_nat (length example_ops))) tr
    /\ within ((1 # 1024) * inject_Z (Z.of_nat (length example_ops)))
              (node_total_rate 2 tr) (leaves_rate_sum 2 tt example_classifier tr).
Proof.
  assert (rates_nonneg 2 example_classifier) as Hnn
    by (intros S1 bin1 S2 bin2; simpl; destruct (Nat.even bin1); lra).
  assert (Forall (fun o : @Op unit => op_state o = tt) example_ops) as Hone
    by (repeat constructor).
  destruct (rate_tree_total_is_sum_of_children 2 example_classifier example_ops Hnn)
    as (t & Hrun & HI1 & Hexact & Hrnd).
  destruct (Hrnd grid_add (1 # 1024) grid_add_error) as (tr & Hrr & Hsame & Hdrift & Hroot).
  exists t, tr.
  split; [exact Hrun|]. split; [exact HI1|].
  split; [exact (Hexact tt (or_intror Hone))|].
  split; [exact Hrr|]. split; [exact Hsame|]. split; [exact Hdrift|].
  exact (Hroot tt (or_intror Hone)).
Defined.

(** C1 (the specification as worded fails).  The rate of the single bin
    is 1 when element 1 is added and 2 when element 2 is added: the two
    operations return, the root's total is the sum of its children's
    totals, 3, and it is not the sum over the leaves of rate times size,
    which is 2 for the first state and 4 for the second. *)
Lemma changed_rate_breaks_the_leaf_sum :
  rates_nonneg 1 changing_rates
  /\ exists t,
      run_ops 1 changing_rates changing_ops (node_new 1) = Some t
      /\ I1 1 t
      /\ (node_total_rate 1 t == 3)%Q
      /\ (leaves_rate_sum 1 true changing_rates t == 2)%Q
      /\ (leaves_rate_sum 1 false changing_rates t == 4)%Q
      /\ forall S, ~ (node_total_rate 1 t == leaves_rate_sum 1 S changing_rates t)%Q.
Proof.
  split; [intros S bin; simpl; destruct S; lra|].
  eexists. split; [vm_compute; reflexivity|].
  split; [split; [vm_compute; reflexivity | repeat constructor]|].
  split; [vm_compute; reflexivity|].
  split; [vm_compute; reflexivity|].
  split; [vm_compute; reflexivity|].
  intros [|]; vm_compute; discriminate.
Qed.

End CatNodesRoundedFacts.

(** ** The analyzer: effects of the actions *)

Module AnalyzerOpsFacts.
Import Analyzer AnalyzerFacts.

Lemma net_set_n_entities N i e : n_entities (net_set N i e) = n_entities N.
Proof. reflexivity. Qed.

Lemma net_set_length N i e : length (entities (net_set N i e)) = length (entities N).
Proof. unfold net_set. simpl. apply length_insert. Qed.

(** Writing back an entity with the same follow-set (follower-set) keeps
    the list of all follow-sets (follower-sets) of the network. *)
Lemma net_set_keeps_field {A} (f : Entity -> A) N i e :
  f e = f (net_get N i) ->
  map f (entities (net_set N i e)) = map f (entities N).
Proof.
  intros Hf. unfold net_set, net_get in *. simpl.
  apply list_eq. intros j. rewrite !list_lookup_fmap.
  destruct (decide (j = Z.to_nat i)) as [->|Hne].
  - destruct (entities N !! Z.to_nat i) as [x|] eqn:Hx.
    + rewrite list_lookup_insert_eq by (by eapply lookup_lt_Some). simpl.
      rewrite Hf. by rewrite (nth_lookup_Some _ _ _ _ Hx).
    + rewrite list_insert_ge by (by apply lookup_ge_None). by rewrite Hx.
  - by rewrite list_lookup_insert_ne.
Qed.

(** What handle_follow does to the network when actor and target are two
    different entities of the array. *)
Lemma handle_follow_effect actor target N :
  (0 <= actor)%Z -> (0 <= target)%Z -> actor <> target ->
  Z.to_nat actor < length (entities N) ->
  let r := handle_follow actor target N in
  n_entities (snd r) = n_entities N
  /\ length (entities (snd r)) = length (entities N)
  /\ follow_set (net_get (snd r) actor)
     = (if fst r
        then mkMemPoolVector (location (follow_set (net_get N actor)) ++ [target])
                             (capacity (follow_set (net_get N actor)))
        else follow_set (net_get N actor))
  /\ (forall x, (0 <= x)%Z -> x <> actor ->
        follow_set (net_get (snd r) x) = follow_set (net_get N x)).
Proof.
  intros Ha Ht Hne Hlen. unfold handle_follow, add_if_possible.
  case_bool_decide as Hroom; simpl; [|done].
  set (A' := set_follow_set _ _).
  set (N1 := net_set N actor A').
  destruct (bool_decide _) eqn:Hroom2; simpl.
  - set (T' := set_follower_set _ _).
    assert (follow_set T' = follow_set (net_get N1 target)) as HT by done.
    split; [done|]. split; [by rewrite !length_insert|]. split.
    + rewrite net_get_set_ne by done. unfold N1. by rewrite net_get_set_eq.
    + intros x Hx Hxa. destruct (decide (x = target)) as [->|Hxt].
      * destruct (decide (Z.to_nat target < length (entities N))) as [Hin|Hout].
        -- rewrite net_get_set_eq; [|done|unfold N1; by rewrite net_set_length].
           rewrite HT. unfold N1. by rewrite net_get_set_ne.
        -- unfold net_get, net_set. simpl.
           rewrite !nth_overflow by (rewrite ?length_insert; lia). done.
      * rewrite net_get_set_ne by done. unfold N1. by rewrite net_get_set_ne.
  - set (T' := set_follower_set _ _).
    assert (follow_set T' = follow_set (net_get N1 target)) as HT by done.
    split; [done|]. split; [by rewrite !length_insert|]. split.
    + rewrite net_get_set_ne by done. unfold N1. by rewrite net_get_set_eq.
    + intros x Hx Hxa. destruct (decide (x = target)) as [->|Hxt].
      * destruct (decide (Z.to_nat target < length (entities N))) as [Hin|Hout].
        -- rewrite net_get_set_eq; [|done|unfold N1; by rewrite net_set_length].
           rewrite HT. unfold N1. by rewrite net_get_set_ne.
        -- unfold net_get, net_set. simpl.
           rewrite !nth_overflow by (rewrite ?length_insert; lia). done.
      * rewrite net_get_set_ne by done. unfold N1. by rewrite net_get_set_ne.
Qed.

(** X11. A follow action adds at most one edge, never a self-edge: the
    follow-set of the actor gains the chosen entity exactly when the
    follow is counted in n_follows, in which case the chosen entity is
    neither the actor nor -1; the follow-sets of all other entities and
    the number of entities are as before. *)
Theorem follow_action_adds_at_most_one_edge
    (fsub : Q -> Q -> Q) (categorize : Z -> Z -> CategoryGrouper -> CategoryGrouper)
    (entity n : Z) (t : Q) (st : AnalysisState) :
  let target := fst (choose_entity_to_follow fsub entity n t st) in
  let st' := action_follow_entity fsub categorize entity n t st in
  (0 <= entity)%Z ->
  Z.to_nat entity < length (entities (network st)) ->
  (target = (-1)%Z \/ (0 <= target)%Z) ->
  exists added : bool,
    (added = true -> target <> entity /\ target <> (-1)%Z)
    /\ n_follows (stats st') = (n_follows (stats st) + (if added then 1 else 0))%Z
    /\ location (follow_set (net_get (network st') entity))
       = location (follow_set (net_get (network st) entity))
         ++ (if added then [target] else [])
    /\ (forall x, (0 <= x)%Z -> x <> entity ->
          follow_set (net_get (network st') x) = follow_set (net_get (network st) x))
    /\ n_entities (network st') = n_entities (network st)
    /\ (~ follows (network st) entity entity -> ~ follows (network st') entity entity).
Proof.
  intros target st' Hent Hlen Htgt. subst target st'.
  unfold action_follow_entity.
  destruct (choose_entity_to_follow_frame fsub entity n t st) as (HN & Hs & _).
  destruct (choose_entity_to_follow fsub entity n t st) as [target st1]. simpl in *.
  assert (forall st2,
            network st2 = network st -> stats st2 = stats st ->
            exists added : bool,
              (added = true -> target <> entity /\ target <> (-1)%Z)
              /\ n_follows (stats st2) = (n_follows (stats st) + (if added then 1 else 0))%Z
              /\ location (follow_set (net_get (network st2) entity))
                 = location (follow_set (net_get (network st) entity))
                   ++ (if added then [target] else [])
              /\ (forall x, (0 <= x)%Z -> x <> entity ->
                    follow_set (net_get (network st2) x)
                    = follow_set (net_get (network st) x))
              /\ n_entities (network st2) = n_entities (network st)
              /\ (~ follows (network st) entity entity
                  -> ~ follows (network st2) entity entity)) as Hnull.
  { intros st2 H1 H2. exists false. rewrite H1, H2.
    split; [discriminate|]. split; [lia|]. split; [by rewrite app_nil_r|]. done. }
  destruct (entity =? target)%Z eqn:Heq; [by apply Hnull|].
  destruct (target =? -1)%Z eqn:Hm1; [by apply Hnull|].
  apply Z.eqb_neq in Heq, Hm1. cbn [negb andb].
  destruct Htgt as [Htgt|Htgt]; [contradiction|].
  rewrite HN.
  pose proof (handle_follow_effect entity target (network st) Hent Htgt Heq Hlen) as Heff.
  cbv zeta in Heff.
  destruct (handle_follow entity target (network st)) as [[] N]; [|by apply Hnull].
  simpl in Heff. destruct Heff as (Hn & _ & Hfs & Hother).
  exists true. simpl. rewrite Hs, Hfs. simpl.
  split; [done|]. split; [done|]. split; [done|]. split; [exact Hother|].
  split; [exact Hn|].
  unfold follows. rewrite Hfs. simpl. rewrite elem_of_app, list_elem_of_singleton.
  intros Hno [Hin|Hin]; [by apply Hno | congruence].
Qed.

(** *** Empty categories *)

Lemma entity_search_empty (fsub : Q -> Q -> Q) types rand_num g :
  Forall (fun et => entity_list et = []) types ->
  entity_search fsub types rand_num g = ((-1)%Z, g).
Proof.
  intros Hall. revert rand_num. induction Hall as [|et types Het _ IH]; intros rand_num.
  - reflexivity.
  - simpl. rewrite Het. simpl. rewrite andb_false_r. apply IH.
Qed.

Lemma preferential_search_empty (fsub : Q -> Q -> Q) updating i cats rand_num g :
  Forall (fun C => cat_entities C = []) cats ->
  preferential_search fsub updating i cats rand_num g = ((-1)%Z, g).
Proof.
  intros Hall. revert i rand_num. induction updating as [|p updating IH]; intros i rand_num.
  - reflexivity.
  - simpl.
    assert (cat_entities (nth i cats (mkCategoryEntityList [])) = []) as ->.
    { destruct (cats !! i) as [C|] eqn:HC.
      - rewrite (nth_lookup_Some _ _ _ _ HC). rewrite Forall_lookup in Hall. by eapply Hall.
      - rewrite nth_overflow by (by apply lookup_ge_None). done. }
    simpl. rewrite andb_false_r. apply IH.
Qed.

(** X12. When the lists the follow model selects from are all empty (the
    entity lists of the types for ENTITY_FOLLOW, the categories of the
    follow ranks for PREFERENTIAL_FOLLOW), nothing is selected: the follow
    action draws no integer, adds no edge and leaves network, counters
    and ranks as they were. *)
Theorem empty_categories_give_no_follow
    (fsub : Q -> Q -> Q) (categorize : Z -> Z -> CategoryGrouper -> CategoryGrouper)
    (entity n : Z) (t : Q) (st : AnalysisState) :
  (follow_model (config st) = ENTITY_FOLLOW
   /\ Forall (fun et => entity_list et = []) (entity_types st))
  \/ (follow_model (config st) = PREFERENTIAL_FOLLOW
      /\ Forall (fun C => cat_entities C = []) (categories (follow_ranks st))) ->
  let st' := action_follow_entity fsub categorize entity n t st in
  fst (choose_entity_to_follow fsub entity n t st) = (-1)%Z
  /\ network st' = network st
  /\ stats st' = stats st
  /\ follow_ranks st' = follow_ranks st
  /\ next_ints (rng st') = next_ints (rng st).
Proof.
  intros Hempty st'.
  assert (fst (choose_entity_to_follow fsub entity n t st) = (-1)%Z
          /\ next_ints (rng (snd (choose_entity_to_follow fsub entity n t st)))
             = next_ints (rng st)) as [Hsel Hints].
  { unfold choose_entity_to_follow.
    assert (next_ints (snd (rand_real_not0 (rng st))) = next_ints (rng st)) as Hg
      by (unfold rand_real_not0; by destruct (next_reals (rng st))).
    destruct (rand_real_not0 (rng st)) as [rand_num g]. simpl in Hg.
    destruct Hempty as [[-> Hall]|[-> Hall]].
    - rewrite (entity_search_empty fsub _ _ _ Hall). by split.
    - cbv zeta. destruct (Qeq_bool _ 0); [by split|].
      rewrite (preferential_search_empty fsub _ _ _ _ _ Hall). by split. }
  assert (follow_rejected fsub entity n t st) as Hrej.
  { unfold follow_rejected. destruct (choose_entity_to_follow fsub entity n t st).
    simpl in Hsel. auto. }
  unfold st'. rewrite (rejected_action fsub categorize _ _ _ _ Hrej).
  destruct (choose_entity_to_follow_frame fsub entity n t st) as (HN & Hs & Hr & _).
  auto.
Qed.

(** *** Creation of entities *)

(** X13. The type of a new entity is the first one at which the running
    value of the draw (the draw less the add probabilities of the types
    before it, every subtraction rounded as the doubles round it) is at
    most the type's add probability; when there is no such type, none is
    chosen.  In exact arithmetic this is the first type whose cumulative
    add probability reaches the draw, and no type when the draw is above
    every cumulative sum. *)
Theorem entity_type_is_first_to_reach_the_draw
    (fsub : Q -> Q -> Q) (types : list EntityType) (rand_num : Q) :
  let prob j := prob_add_type (nth j types (mkEntityType 0 0 [])) in
  let cumulative k := Qsum (map prob_add_type (take k types)) in
  match choose_entity_type fsub types 0 rand_num with
  | Some et =>
      et < length types
      /\ (draw_at fsub types et rand_num <= prob et)%Q
      /\ forall j, j < et -> (prob j < draw_at fsub types j rand_num)%Q
  | None => forall j, j < length types -> (prob j < draw_at fsub types j rand_num)%Q
  end
  /\ match choose_entity_type Qminus types 0 rand_num with
     | Some et =>
         et < length types
         /\ (rand_num <= cumulative (S et))%Q
         /\ forall j, j < et -> (cumulative (S j) < rand_num)%Q
     | None => forall j, j < length types -> (cumulative (S j) < rand_num)%Q
     end.
Proof.
  intros prob cumulative. subst prob cumulative. split.
  - assert (forall et0 r,
              match choose_entity_type fsub types et0 r with
              | Some et =>
                  et0 <= et /\ et - et0 < length types
                  /\ (draw_at fsub types (et - et0) r
                      <= prob_add_type (nth (et - et0) types (mkEntityType 0 0 [])))%Q
                  /\ forall j, j < et - et0 ->
                       (prob_add_type (nth j types (mkEntityType 0 0 []))
                        < draw_at fsub types j r)%Q
              | None =>
                  forall j, j < length types ->
                    (prob_add_type (nth j types (mkEntityType 0 0 []))
                     < draw_at fsub types j r)%Q
              end) as Hgen.
    { induction types as [|ty types IH]; intros et0 r; simpl.
      - intros j Hj. lia.
      - destruct (Qle_bool r (prob_add_type ty)) eqn:Hle.
        + apply Qle_bool_iff in Hle. rewrite Nat.sub_diag.
          split; [lia|]. split; [lia|]. split; [exact Hle | intros j Hj; lia].
        + assert (prob_add_type ty < r)%Q as Hlt.
          { apply Qnot_le_lt. intros H. apply Qle_bool_iff in H. congruence. }
          specialize (IH (S et0) (fsub r (prob_add_type ty))).
          destruct (choose_entity_type fsub types (S et0) (fsub r (prob_add_type ty)))
            as [et|].
          * destruct IH as (H1 & H2 & H3 & H4).
            replace (et - et0) with (S (et - S et0)) by lia.
            split; [lia|]. split; [lia|]. split; [exact H3|].
            intros [|j] Hj; [exact Hlt|]. apply H4. lia.
          * intros [|j] Hj; [exact Hlt|]. apply IH. lia. }
    specialize (Hgen 0 rand_num).
    destruct (choose_entity_type fsub types 0 rand_num) as [et|]; [|exact Hgen].
    rewrite Nat.sub_0_r in Hgen. tauto.
  - assert (forall et0 r,
              match choose_entity_type Qminus types et0 r with
              | Some et =>
                  et0 <= et /\ et - et0 < length types
                  /\ (r <= Qsum (map prob_add_type (take (S (et - et0)) types)))%Q
                  /\ forall j, j < et - et0 ->
                       (Qsum (map prob_add_type (take (S j) types)) < r)%Q
              | None =>
                  forall j, j < length types ->
                    (Qsum (map prob_add_type (take (S j) types)) < r)%Q
              end) as Hgen.
    { induction types as [|ty types IH]; intros et0 r; simpl.
      - intros j Hj. lia.
      - destruct (Qle_bool r (prob_add_type ty)) eqn:Hle.
        + apply Qle_bool_iff in Hle. rewrite Nat.sub_diag.
          split; [lia|]. split; [lia|]. split; [|intros j Hj; lia].
          change (r <= prob_add_type ty + 0)%Q. lra.
        + assert (prob_add_type ty < r)%Q as Hlt.
          { apply Qnot_le_lt. intros H. apply Qle_bool_iff in H. congruence. }
          specialize (IH (S et0) (r - prob_add_type ty)%Q).
          destruct (choose_entity_type Qminus types (S et0) (r - prob_add_type ty)%Q)
            as [et|].
          * destruct IH as (H1 & H2 & H3 & H4).
            replace (et - et0) with (S (et - S et0)) by lia.
            split; [lia|]. split; [lia|]. split.
            -- change (r <= prob_add_type ty
                            + Qsum (map prob_add_type (take (S (et - S et0)) types)))%Q. lra.
            -- intros [|j] Hj.
               ++ change (prob_add_type ty + 0 < r)%Q. lra.
               ++ specialize (H4 j ltac:(lia)).
                  change (prob_add_type ty
                          + Qsum (map prob_add_type (take (S j) types)) < r)%Q.
                  lra.
          * intros [|j] Hj.
            -- change (prob_add_type ty + 0 < r)%Q. lra.
            -- specialize (IH j ltac:(lia)).
               change (prob_add_type ty + Qsum (map prob_add_type (take (S j) types)) < r)%Q.
               lra. }
    specialize (Hgen 0 rand_num).
    destruct (choose_entity_type Qminus types 0 rand_num) as [et|]; [|exact Hgen].
    rewrite Nat.sub_0_r in Hgen. tauto.
Qed.

Lemma handle_follow_n_entities actor target N :
  n_entities (snd (handle_follow actor target N)) = n_entities N.
Proof.
  unfold handle_follow. destruct (add_if_possible _ target) as [[] v]; [|done].
  by destruct (add_if_possible _ actor).
Qed.

Lemma action_follow_entity_keeps_count
    (fsub : Q -> Q -> Q) (categorize : Z -> Z -> CategoryGrouper -> CategoryGrouper) entity n t st :
  let st' := action_follow_entity fsub categorize entity n t st in
  n_entities (network st') = n_entities (network st)
  /\ config st' = config st
  /\ entity_types st' = entity_types st.
Proof.
  unfold action_follow_entity.
  destruct (choose_entity_to_follow_frame fsub entity n t st) as (HN & _ & _ & Hc & He & _).
  destruct (choose_entity_to_follow fsub entity n t st) as [target st1]. simpl in *.
  destruct (negb (entity =? target)%Z && negb (target =? -1)%Z); [|by rewrite HN].
  pose proof (handle_follow_n_entities entity target (network st1)) as Hn.
  destruct (handle_follow entity target (network st1)) as [[] N]; simpl in *.
  - by rewrite Hn, HN.
  - by rewrite HN.
Qed.

Section Creation.
Variable fsub : Q -> Q -> Q.
Variable categorize : Z -> Z -> CategoryGrouper -> CategoryGrouper.

Lemma action_create_entity_count creation_time index st :
  let st' := action_create_entity fsub categorize creation_time index st in
  n_entities (network st') = (n_entities (network st) + 1)%Z
  /\ config st' = config st.
Proof.
  unfold action_create_entity.
  destruct (rand_real_not0 _) as [rand_num g]. cbv zeta.
  match goal with
  | |- context [if use_barabasi (config ?s2) then _ else _] => set (st2 := s2)
  end.
  assert (n_entities (network st2) = n_entities (network st) /\ config st2 = config st)
    as [Hn2 Hc2].
  { unfold st2. destruct (choose_entity_type _ _ 0 rand_num); simpl; done. }
  destruct (use_barabasi (config st2)).
  - destruct (action_follow_entity_keeps_count fsub categorize index index creation_time st2)
      as (Hn & Hc & _).
    simpl. rewrite Hn, Hc, Hn2, Hc2. done.
  - simpl. by rewrite Hn2, Hc2.
Qed.

(** X14. Creating an entity always raises the number of entities by one,
    also when the draw is above every cumulative add probability: then,
    without the Barabasi option, the new entity is entered in no type
    list and in no follow rank.  set_initial_entities raises the number
    of entities by initial_entities. *)
Theorem created_entities_are_counted (creation_time : Q) (index : Z) (st : AnalysisState) :
  n_entities (network (action_create_entity fsub categorize creation_time index st))
  = (n_entities (network st) + 1)%Z
  /\ (choose_entity_type fsub (entity_types st) 0 (fst (rand_real_not0 (rng st))) = None ->
      use_barabasi (config st) = false ->
      entity_types (action_create_entity fsub categorize creation_time index st) = entity_types st
      /\ follow_ranks (action_create_entity fsub categorize creation_time index st)
         = follow_ranks st)
  /\ n_entities (network (set_initial_entities fsub categorize st))
     = (n_entities (network st) + Z.max 0 (initial_entities (config st)))%Z.
Proof.
  split; [apply action_create_entity_count|]. split.
  - unfold action_create_entity. simpl.
    destruct (rand_real_not0 (rng st)) as [rand_num g]. simpl.
    intros -> Hb. simpl. rewrite Hb. done.
  - unfold set_initial_entities.
    replace (Z.max 0 (initial_entities (config st)))
      with (Z.of_nat (length (seq 0 (Z.to_nat (initial_entities (config st))))))
      by (rewrite length_seq; lia).
    generalize (seq 0 (Z.to_nat (initial_entities (config st)))). intros l.
    revert st. induction l as [|i l IH]; intros st.
    + simpl. lia.
    + cbn [fold_left length]. rewrite IH.
      destruct (action_create_entity_count 0 (Z.of_nat i) st) as [-> _]. lia.
Qed.

End Creation.

(** *** Time *)


(** *** Retweets *)

Lemma push_to_audience_keeps_edges entity entity_retweeted t n N :
  let N' := push_to_audience entity entity_retweeted t n N in
  map follow_set (entities N') = map follow_set (entities N)
  /\ map follower_set (entities N') = map follower_set (entities N)
  /\ n_entities N' = n_entities N.
Proof.
  unfold push_to_audience. generalize (seq 0 (Z.to_nat n)). intros l.
  revert N. induction l as [|i l IH]; intros N; [done|].
  cbn [fold_left]. destruct (IH (net_set N (follow_i N entity i)
      (set_retweets (net_get N (follow_i N entity i))
         (retweets_add (mkRetweet entity_retweeted t)
            (retweets (net_get N (follow_i N entity i))))))) as (H1 & H2 & H3).
  cbv zeta. rewrite H1, H2, H3.
  split; [by apply net_set_keeps_field|]. split; [by apply net_set_keeps_field | done].
Qed.

(** X16. A retweet action never changes an edge: every follow-set and
    every follower-set of the network is as before, and so is the number
    of entities; n_retweets is raised by one exactly when a source was
    selected (entity_retweeted is not -1), and no other counter moves. *)
Theorem retweet_changes_no_edge (entity : Z) (t : Q) (st : AnalysisState) :
  let st' := action_retweet entity t st in
  let selected := negb (fst (choose_entity_retweeted entity t st) =? -1)%Z in
  map follow_set (entities (network st')) = map follow_set (entities (network st))
  /\ map follower_set (entities (network st')) = map follower_set (entities (network st))
  /\ n_entities (network st') = n_entities (network st)
  /\ n_retweets_total (stats st')
     = (n_retweets_total (stats st) + (if selected then 1 else 0))%Z
  /\ n_follows (stats st') = n_follows (stats st)
  /\ n_tweets_total (stats st') = n_tweets_total (stats st)
  /\ n_steps (stats st') = n_steps (stats st).
Proof.
  intros st' selected. subst st' selected. unfold action_retweet.
  assert (network (snd (choose_entity_retweeted entity t st)) = network st
          /\ stats (snd (choose_entity_retweeted entity t st)) = stats st) as [HN Hs].
  { unfold choose_entity_retweeted. destruct (rand_real_not0 (rng st)) as [r g].
    destruct (Qlt_bool r (1 # 2)).
    - destruct (negb _); [destruct (rand_int _ g)|]; done.
    - destruct (check_recent _) as [rt|]; [destruct (Qlt_bool _ _)|]; done. }
  destruct (choose_entity_retweeted entity t st) as [src st1]. simpl in *.
  destruct (src =? -1)%Z; cbn [negb].
  - rewrite HN, Hs. repeat split; lia.
  - destruct (push_to_audience_keeps_edges entity src t
                (n_following (network st1) entity) (network st1)) as (H1 & H2 & H3).
    cbv zeta in H1, H2, H3. cbv zeta.
    unfold set_stats, set_network.
    cbn [network stats n_retweets_total set_n_retweets_total n_follows n_tweets_total n_steps].
    rewrite !net_set_keeps_field by done. rewrite net_set_n_entities.
    rewrite H1, H2, H3, HN, Hs. done.
Qed.

(** X17. An entity that follows nobody and whose most recent retweet, if
    there is one, is 2880 minutes old or older, retweets nothing, whatever
    the draw: network and counters are as before and no integer is
    drawn. *)
Theorem nothing_to_retweet (entity : Z) (t : Q) (st : AnalysisState) :
  location (follow_set (net_get (network st) entity)) = [] ->
  match check_recent (retweets (net_get (network st) entity)) with
  | Some retweet => (2880 <= t - time retweet)%Q
  | None => True
  end ->
  let st' := action_retweet entity t st in
  fst (choose_entity_retweeted entity t st) = (-1)%Z
  /\ network st' = network st
  /\ stats st' = stats st
  /\ next_ints (rng st') = next_ints (rng st).
Proof.
  intros Hfs Hstale st'. subst st'. unfold action_retweet.
  assert (fst (choose_entity_retweeted entity t st) = (-1)%Z
          /\ network (snd (choose_entity_retweeted entity t st)) = network st
          /\ stats (snd (choose_entity_retweeted entity t st)) = stats st
          /\ next_ints (rng (snd (choose_entity_retweeted entity t st)))
             = next_ints (rng st)) as (Hsel & HN & Hs & Hi).
  { unfold choose_entity_retweeted.
    assert (next_ints (snd (rand_real_not0 (rng st))) = next_ints (rng st)) as Hg
      by (unfold rand_real_not0; by destruct (next_reals (rng st))).
    destruct (rand_real_not0 (rng st)) as [r g]. simpl in Hg.
    destruct (Qlt_bool r (1 # 2)).
    - unfold mpv_size. rewrite Hfs. simpl. done.
    - destruct (check_recent _) as [rt|]; [|done].
      assert (Qlt_bool (t - time rt) 2880 = false) as ->; [|done].
      apply not_true_is_false. rewrite Qlt_bool_iff. by apply Qle_not_lt. }
  destruct (choose_entity_retweeted entity t st) as [src st1]. simpl in *.
  subst src. simpl. done.
Qed.

(** *** The number of entities along the simulation *)

Lemma step_time_frame (TIME_CAT_FREQ : Q) (log : Q -> Q) n st :
  network (step_time TIME_CAT_FREQ log n st) = network st
  /\ config (step_time TIME_CAT_FREQ log n st) = config st.
Proof.
  unfold step_time. cbv zeta.
  destruct (use_random_increment (config st) =? 1)%Z;
    [destruct (rand_real_not0 (rng st)) as [r g]|];
    match goal with
    | |- context [if (?a <? ?b)%Z then set_last_entity_ID _ _ else _] => destruct (a <? b)%Z
    end;
    match goal with
    | |- context [if ?c then output_summary_stats ?s else _] => destruct c
    end; done.
Qed.

Lemma action_tweet_frame (categorize : Z -> Z -> CategoryGrouper -> CategoryGrouper) entity st :
  n_entities (network (action_tweet categorize entity st)) = n_entities (network st)
  /\ config (action_tweet categorize entity st) = config st.
Proof. done. Qed.

Lemma action_retweet_frame entity t st :
  n_entities (network (action_retweet entity t st)) = n_entities (network st)
  /\ config (action_retweet entity t st) = config st.
Proof.
  unfold action_retweet.
  assert (network (snd (choose_entity_retweeted entity t st)) = network st
          /\ config (snd (choose_entity_retweeted entity t st)) = config st) as [HN Hc].
  { unfold choose_entity_retweeted. destruct (rand_real_not0 (rng st)) as [r g].
    destruct (Qlt_bool r (1 # 2)).
    - destruct (negb _); [destruct (rand_int _ g)|]; done.
    - destruct (check_recent _) as [rt|]; [destruct (Qlt_bool _ _)|]; done. }
  destruct (choose_entity_retweeted entity t st) as [src st1]. simpl in *.
  destruct (src =? -1)%Z; cbn [negb].
  - by rewrite HN, Hc.
  - destruct (push_to_audience_keeps_edges entity src t
                (n_following (network st1) entity) (network st1)) as (_ & _ & H3).
    cbv zeta in H3. cbv zeta.
    unfold set_stats, set_network. cbn [network config].
    rewrite net_set_n_entities, H3, HN. done.
Qed.

Section Simulation.
Variable fsub : Q -> Q -> Q.
Variable categorize : Z -> Z -> CategoryGrouper -> CategoryGrouper.
Variable analyzer_select_entity : AnalysisState -> SelectionType -> Z * AnalysisState.
Variable analyzer_rate_update : AnalysisState -> AnalysisState.
Variable TIME_CAT_FREQ : Q.
Variable log : Q -> Q.

(** What is asked of the two routines declared in analyzer.h: selecting
    an entity and updating the rates neither create entities nor touch
    the configuration. *)
Hypothesis select_keeps_count :
  forall st ty,
    n_entities (network (snd (analyzer_select_entity st ty))) = n_entities (network st)
    /\ config (snd (analyzer_select_entity st ty)) = config st.
Hypothesis rate_update_keeps_count :
  forall st,
    n_entities (network (analyzer_rate_update st)) = n_entities (network st)
    /\ config (analyzer_rate_update st) = config st.

Let step := step_analysis fsub categorize analyzer_select_entity analyzer_rate_update
                          TIME_CAT_FREQ log.
Let run := run_network_simulation fsub categorize analyzer_select_entity analyzer_rate_update
                                  TIME_CAT_FREQ log.

Lemma step_analysis_count st :
  config (step st) = config st
  /\ (n_entities (network (step st)) = n_entities (network st)
      \/ n_entities (network (step st)) = (n_entities (network st) + 1)%Z).
Proof.
  unfold step, step_analysis.
  destruct (rand_real_not0 (rng st)) as [u_1 g1].
  destruct (rand_real_not0 g1) as [rand_num g2].
  cbv zeta.
  match goal with
  | |- context [analyzer_rate_update ?s] =>
      destruct (rate_update_keeps_count s) as [-> ->]
  end.
  match goal with
  | |- context [step_time _ _ ?n ?s] =>
      set (s1 := s); set (n1 := n);
      destruct (step_time_frame TIME_CAT_FREQ log n1 s1) as [HN1 Hc1]
  end.
  change (config (step_time TIME_CAT_FREQ log n1 s1) = config st
          /\ (n_entities (network (step_time TIME_CAT_FREQ log n1 s1))
              = n_entities (network st)
              \/ n_entities (network (step_time TIME_CAT_FREQ log n1 s1))
                 = (n_entities (network st) + 1)%Z)).
  rewrite HN1, Hc1. clear HN1 Hc1. subst s1 n1.
  destruct (Qle_bool (u_1 - prob_add _) ZEROTOL).
  { destruct (action_create_entity_count fsub categorize (sim_time (set_rng st g2))
                (n_entities (network (set_rng st g2))) (set_rng st g2)) as [-> ->].
    split; [done | by right]. }
  destruct (Qle_bool (u_1 - (prob_add _ + prob_follow _)) ZEROTOL).
  { pose proof (select_keeps_count (set_rng st g2) FOLLOW_SELECT) as [HN Hc].
    destruct (analyzer_select_entity (set_rng st g2) FOLLOW_SELECT) as [entity sta].
    simpl in HN, Hc.
    destruct (action_follow_entity_keeps_count fsub categorize entity
                (n_entities (network (set_rng st g2))) (sim_time sta) sta) as (-> & -> & _).
    rewrite HN, Hc. split; [done | by left]. }
  destruct (Qle_bool (u_1 - (prob_add _ + prob_follow _ + prob_tweet _)) ZEROTOL).
  { pose proof (select_keeps_count (set_rng st g2) TWEET_SELECT) as [HN Hc].
    destruct (analyzer_select_entity (set_rng st g2) TWEET_SELECT) as [entity sta].
    simpl in HN, Hc. cbv zeta. unfold set_stats. cbn [network config].
    destruct (action_tweet_frame categorize entity sta) as [-> ->].
    rewrite HN, Hc. split; [done | by left]. }
  destruct (Qle_bool (u_1 - (prob_add _ + prob_follow _ + prob_tweet _ + prob_norm _)) ZEROTOL).
  { pose proof (select_keeps_count (set_rng st g2) RETWEET_SELECT) as [HN Hc].
    destruct (analyzer_select_entity (set_rng st g2) RETWEET_SELECT) as [entity sta].
    simpl in HN, Hc.
    destruct (action_retweet_frame entity (sim_time sta) sta) as [-> ->].
    rewrite HN, Hc. split; [done | by left]. }
  split; [done | by left].
Qed.

(** X18. The simulation never outgrows the network it was given room for:
    a step leaves the configuration as it is and creates at most one
    entity, a step made under the loop condition keeps the number of
    entities within max_entities, and so does the whole loop whenever it
    started within it; the number of entities never goes down. *)
Theorem simulation_stays_within_max_entities fuel ctrl k st :
  (n_entities (network st) <= max_entities (config st))%Z ->
  (config (step st) = config st
   /\ (n_entities (network st) <= n_entities (network (step st))
       <= n_entities (network st) + 1)%Z)
  /\ (loop_condition (ctrl k) st = true ->
      (n_entities (network (step st)) <= max_entities (config (step st)))%Z)
  /\ (forall st', run fuel ctrl k st = Some st' ->
        config st' = config st
        /\ (n_entities (network st) <= n_entities (network st')
            <= max_entities (config st))%Z).
Proof.
  intros Hmax. split; [|split].
  - destruct (step_analysis_count st) as [Hc [Hn|Hn]]; split; try done; lia.
  - intros Hcond. unfold loop_condition in Hcond.
    apply andb_true_iff in Hcond as [Hcond _].
    apply andb_true_iff in Hcond as [_ Hlt]. apply Z.ltb_lt in Hlt.
    destruct (step_analysis_count st) as [-> [Hn|Hn]]; lia.
  - revert k st Hmax. induction fuel as [|fuel IH]; intros k st Hmax st' Hrun;
      unfold run in Hrun; simpl in Hrun;
      destruct (loop_condition (ctrl k) st) eqn:Hcond; try discriminate.
    + injection Hrun as <-. split; [done | lia].
    + unfold loop_condition in Hcond.
      apply andb_true_iff in Hcond as [Hcond _].
      apply andb_true_iff in Hcond as [_ Hlt]. apply Z.ltb_lt in Hlt.
      destruct (step_analysis_count st) as [Hc Hn].
      apply IH in Hrun as [Hc' Hn']; fold step; [|rewrite Hc; destruct Hn; lia].
      fold step in Hc', Hn'. rewrite Hc in Hc', Hn'.
      split; [done|]. destruct Hn; lia.
    + injection Hrun as <-. split; [done | lia].
Qed.

End Simulation.

(** X19. When the target's follower-set has room, handle_follow keeps the
    two representations of the edges in agreement: a follow it reports
    is recorded at both ends (the target in the actor's follow-set, the
    actor in the target's follower-set), and a follow it refuses leaves
    the network as it was. *)
Theorem follow_with_room_records_both_ends (actor target : Z) (N : Network) :
  (0 <= actor < n_entities N)%Z -> (0 <= target < n_entities N)%Z ->
  (n_entities N <= Z.of_nat (length (entities N)))%Z ->
  actor <> target ->
  length (location (follower_set (net_get N target)))
  < capacity (follower_set (net_get N target)) ->
  edge_symmetry N ->
  let r := handle_follow actor target N in
  edge_symmetry (snd r)
  /\ (fst r = true -> follows (snd r) actor target /\ followed_by (snd r) target actor)
  /\ (fst r = false -> snd r = N).
Proof.
  intros Ha Ht Hlen Hne Hroom Hsym r. split; [|split].
  - by apply handle_follow_keeps_symmetry.
  - subst r. unfold handle_follow, add_if_possible.
    case_bool_decide as Hfs; [|discriminate].
    set (A' := set_follow_set _ _).
    assert (net_get (net_set N actor A') target = net_get N target) as HT
      by (apply net_get_set_ne; lia).
    rewrite HT. rewrite bool_decide_eq_true_2 by exact Hroom.
    set (T' := set_follower_set _ _). intros _. cbn [snd].
    unfold follows, followed_by. split.
    + rewrite net_get_set_ne by lia.
      rewrite net_get_set_eq by lia.
      unfold A'. simpl. rewrite elem_of_app, list_elem_of_singleton. by right.
    + rewrite net_get_set_eq by (rewrite ?net_set_length; lia).
      unfold T'. simpl. rewrite elem_of_app, list_elem_of_singleton. by right.
  - intros Hf. subst r. by rewrite (handle_follow_refused _ _ _ Hf).
Qed.

(** *** Instances *)

Import Examples MoreExamples.

Lemma two_entities_symmetric : edge_symmetry two_entities.
Proof.
  intros a b _ _. unfold follows, followed_by, net_get, two_entities. simpl.
  destruct (Z.to_nat a) as [|[|[|na]]]; destruct (Z.to_nat b) as [|[|[|nb]]]; simpl;
    rewrite ?elem_of_nil; tauto.
Qed.

Lemma follow_with_room_records_both_ends_witness :
  let r := handle_follow 0 1 two_entities in
  edge_symmetry (snd r)
  /\ (fst r = true -> follows (snd r) 0 1 /\ followed_by (snd r) 1 0)
  /\ (fst r = false -> snd r = two_entities).
Proof.
  apply (follow_with_room_records_both_ends 0 1 two_entities).
  - simpl. lia.
  - simpl. lia.
  - simpl. lia.
  - lia.
  - simpl. lia.
  - apply two_entities_symmetric.
Defined.

Lemma simulation_stays_within_max_entities_witness :
  let st := short_run_state in
  let step := step_analysis Qminus categorize_id select_first rate_update_id month log_zero in
  let run :=
    run_network_simulation Qminus categorize_id select_first rate_update_id month log_zero in
  (config (step st) = config st
   /\ (n_entities (network st) <= n_entities (network (step st))
       <= n_entities (network st) + 1)%Z)
  /\ (n_entities (network (step st)) <= max_entities (config (step st)))%Z
  /\ exists st',
       run 5 no_interrupt 0 st = Some st'
       /\ config st' = config st
       /\ (n_entities (network st) <= n_entities (network st')
           <= max_entities (config st))%Z.
Proof.
  intros st step run.
  destruct (simulation_stays_within_max_entities Qminus categorize_id select_first
              rate_update_id month log_zero
              (fun st ty => conj eq_refl eq_refl) (fun st => conj eq_refl eq_refl)
              5 no_interrupt 0 short_run_state) as (Hstep & Hcond & Hrun).
  { simpl. lia. }
  split; [exact Hstep|]. split; [apply Hcond; vm_compute; reflexivity|].
  destruct (run_network_simulation Qminus categorize_id select_first rate_update_id month
              log_zero 5 no_interrupt 0 short_run_state) as [st'|] eqn:E.
  - exists st'. split; [exact E|]. apply Hrun. reflexivity.
  - vm_compute in E. discriminate.
Defined.

Lemma entity_type_is_first_to_reach_the_draw_witness :
  let types := [mkEntityType (3 # 8) 1 []; mkEntityType (1 # 2) 1 []] in
  let prob j := prob_add_type (nth j types (mkEntityType 0 0 [])) in
  let cumulative k := Qsum (map prob_add_type (take k types)) in
  match choose_entity_type coarse_sub types 0 1 with
  | Some et =>
      et < length types
      /\ (draw_at coarse_sub types et 1 <= prob et)%Q
      /\ forall j, j < et -> (prob j < draw_at coarse_sub types j 1)%Q
  | None => forall j, j < length types -> (prob j < draw_at coarse_sub types j 1)%Q
  end
  /\ match choose_entity_type Qminus types 0 1 with
     | Some et =>
         et < length types
         /\ (1 <= cumulative (S et))%Q
         /\ forall j, j < et -> (cumulative (S j) < 1)%Q
     | None => forall j, j < length types -> (cumulative (S j) < 1)%Q
     end.
Proof.
  apply (entity_type_is_first_to_reach_the_draw coarse_sub
           [mkEntityType (3 # 8) 1 []; mkEntityType (1 # 2) 1 []] 1).
Defined.

Lemma created_entities_are_counted_witness :
  let st := example_state RANDOM_FOLLOW two_entities follow_B in
  n_entities (network (action_create_entity Qminus categorize_id 0 2 st))
  = (n_entities (network st) + 1)%Z
  /\ (choose_entity_type Qminus (entity_types st) 0 (fst (rand_real_not0 (rng st))) = None ->
      use_barabasi (config st) = false ->
      entity_types (action_create_entity Qminus categorize_id 0 2 st) = entity_types st
      /\ follow_ranks (action_create_entity Qminus categorize_id 0 2 st) = follow_ranks st)
  /\ n_entities (network (set_initial_entities Qminus categorize_id st))
     = (n_entities (network st) + Z.max 0 (initial_entities (config st)))%Z.
Proof.
  apply (created_entities_are_counted Qminus categorize_id 0 2
           (example_state RANDOM_FOLLOW two_entities follow_B)).
Defined.

Lemma follow_action_adds_at_most_one_edge_witness :
  let st := example_state RANDOM_FOLLOW two_entities follow_B in
  let target := fst (choose_entity_to_follow Qminus 0 2 0 st) in
  let st' := action_follow_entity Qminus categorize_id 0 2 0 st in
  exists added : bool,
    (added = true -> target <> 0%Z /\ target <> (-1)%Z)
    /\ n_follows (stats st') = (n_follows (stats st) + (if added then 1 else 0))%Z
    /\ location (follow_set (net_get (network st') 0))
       = location (follow_set (net_get (network st) 0)) ++ (if added then [target] else [])
    /\ (forall x, (0 <= x)%Z -> x <> 0%Z ->
          follow_set (net_get (network st') x) = follow_set (net_get (network st) x))
    /\ n_entities (network st') = n_entities (network st)
    /\ (~ follows (network st) 0 0 -> ~ follows (network st') 0 0).
Proof.
  apply (follow_action_adds_at_most_one_edge Qminus categorize_id 0 2 0
           (example_state RANDOM_FOLLOW two_entities follow_B)).
  - lia.
  - simpl. lia.
  - right. vm_compute. discriminate.
Defined.

Lemma empty_categories_give_no_follow_witness :
  let st' := action_follow_entity Qminus categorize_id 0 2 0 unlisted_state in
  fst (choose_entity_to_follow Qminus 0 2 0 unlisted_state) = (-1)%Z
  /\ network st' = network unlisted_state
  /\ stats st' = stats unlisted_state
  /\ follow_ranks st' = follow_ranks unlisted_state
  /\ next_ints (rng st') = next_ints (rng unlisted_state).
Proof.
  apply (empty_categories_give_no_follow Qminus categorize_id 0 2 0 unlisted_state).
  left. split; [reflexivity|]. repeat constructor.
Defined.


Lemma nothing_to_retweet_witness :
  let st := example_state RANDOM_FOLLOW two_entities follow_B in
  let st' := action_retweet 0 5 st in
  fst (choose_entity_retweeted 0 5 st) = (-1)%Z
  /\ network st' = network st
  /\ stats st' = stats st
  /\ next_ints (rng st') = next_ints (rng st).
Proof.
  apply (nothing_to_retweet 0 5 (example_state RANDOM_FOLLOW two_entities follow_B)).
  - reflexivity.
  - vm_compute. exact I.
Defined.

End AnalyzerOpsFacts.

(** ** The tweet bank: rates and repeated checks *)

Module TweetBankOpsFacts.
Import CatNodes TweetBank TweetBankOps.

Lemma fold_left_Qplus {A} (f : A -> Q) (l : list A) (acc : Q) :
  (fold_left (fun a x => a + f x) l acc == acc + Qsum (map f l))%Q.
Proof.
  revert acc. induction l as [|x l IH]; intros acc; simpl.
  - unfold Qsum; simpl. lra.
  - rewrite IH. change (acc + f x + Qsum (map f l) == acc + (f x + Qsum (map f l)))%Q. lra.
Qed.

Lemma fold_left_Zplus {A} (f : A -> Z) (l : list A) (acc : Z) :
  fold_left (fun a x => a + f x)%Z l acc = (acc + foldr Z.add 0 (map f l))%Z.
Proof.
  revert acc. induction l as [|x l IH]; intros acc; simpl; [lia|]. rewrite IH. lia.
Qed.

Lemma Qsum_bind {A B} (g : B -> Q) (h : A -> list B) (l : list A) :
  (Qsum (map g (l ≫= h)) == Qsum (map (fun x => Qsum (map g (h x))) l))%Q.
Proof.
  induction l as [|x l IH].
  - reflexivity.
  - rewrite bind_cons, map_app, Qsum_app, IH. reflexivity.
Qed.

Lemma Zsum_bind {A B} (g : B -> Z) (h : A -> list B) (l : list A) :
  foldr Z.add 0%Z (map g (l ≫= h))
  = foldr Z.add 0%Z (map (fun x => foldr Z.add 0%Z (map g (h x))) l).
Proof.
  induction l as [|x l IH]; [done|].
  rewrite bind_cons, map_app, foldr_app. simpl. rewrite <- IH.
  generalize (map g (h x)). intros l1. induction l1 as [|y l1 IH1]; simpl; lia.
Qed.

Lemma Qsum_map_ext {A} (f g : A -> Q) (l : list A) :
  Forall (fun x => (f x == g x)%Q) l -> (Qsum (map f l) == Qsum (map g l))%Q.
Proof.
  induction 1 as [|x l Hx _ IH]; [reflexivity|].
  change (f x + Qsum (map f l) == g x + Qsum (map g l))%Q. lra.
Qed.

(** X20. For a tweeter whose follower set keeps the invariants of the
    rate tree (cached totals and sizes are the sums over the children),
    get_rate passes its debug check and returns the cached total rate of
    the follower set, the same for every age bin. *)
Theorem get_rate_is_the_follower_total
    (follower_set_of : Z -> FollowerSet) (tweet : Tweet) (bin : Z) :
  let followers := follower_set_of (id_tweeter tweet) in
  I1 3 followers -> sizes_ok 3 followers ->
  exists rates,
    get_rate follower_set_of tweet bin = Some rates
    /\ (rates == total_rate followers)%Q.
Proof.
  intros followers HI1 Hsz. unfold get_rate. fold followers.
  destruct HI1 as [Ht3 Hall3]. destruct Hsz as [Hn3 Hsall3].
  simpl in Ht3, Hn3.
  assert (fold_left (fun n pref_cat => (n + leaf_size pref_cat)%Z) (pref_cats followers) 0%Z
          = n_elems followers) as ->.
  { rewrite fold_left_Zplus, Z.add_0_l. unfold pref_cats. rewrite Zsum_bind. rewrite Hn3.
    f_equal. apply map_ext_Forall. eapply Forall_impl; [exact Hsall3|].
    intros lang [Hn2 Hsall2]. simpl in Hn2. rewrite Zsum_bind. rewrite Hn2.
    f_equal. apply map_ext_Forall. eapply Forall_impl; [exact Hsall2|].
    intros dist [Hn1 _]. simpl in Hn1. by rewrite Hn1. }
  rewrite Z.eqb_refl. eexists. split; [reflexivity|].
  rewrite fold_left_Qplus. unfold pref_cats. rewrite Qsum_bind, Ht3, Qplus_0_l.
  apply Qsum_map_ext. eapply Forall_impl; [exact Hall3|].
  intros lang [Ht2 Hall2]. simpl in Ht2. rewrite Qsum_bind, Ht2.
  apply Qsum_map_ext. eapply Forall_impl; [exact Hall2|].
  intros dist [Ht1 _]. simpl in Ht1. rewrite Ht1. reflexivity.
Qed.

Section ChecksFacts.
Variable get_cat_threshold : Z -> Q.
Variable get_rate_of : Tweet -> Z -> Q.

Let check := check get_cat_threshold get_rate_of.

(** What one check does to the entry of a tweet [id] of the bank. *)
Lemma check_effect time id' id tree ok tree' :
  check time id' tree = Some (ok, tree') ->
  n_bins tree' = n_bins tree
  /\ (id' <> id -> elements tree' !! id = elements tree !! id)
  /\ (ok = true -> tree' = tree)
  /\ (id' = id -> ok = false ->
      exists t rate,
        elements tree !! id = Some (t, rate)
        /\ (elements tree' !! id = None
            \/ exists t' rate',
                 elements tree' !! id = Some (t', rate')
                 /\ retweet_time_bin t' = (retweet_time_bin t + 1)%Z
                 /\ (retweet_time_bin t + 1 < n_bins tree)%Z)).
Proof.
  unfold check, TweetBank.check.
  destruct (elements tree !! id') as [[t rate]|] eqn:Hid; [|discriminate].
  destruct (Analyzer.Qlt_bool (retweet_next_rebin_time t) time).
  - cbv zeta. unfold set_data at 1. rewrite Hid.
    cbn [n_bins retweet_time_bin set_retweet_time_bin].
    destruct (n_bins tree <=? retweet_time_bin t + 1)%Z eqn:Hbin.
    + intros Heq. injection Heq as <- <-.
      unfold remove, set_data. rewrite Hid. cbn [elements]. rewrite lookup_insert_eq.
      cbn [elements n_bins]. split; [done|]. split; [|split; [discriminate|]].
      * intros Hne. rewrite lookup_delete_ne by done. by rewrite lookup_insert_ne.
      * intros <- _. exists t, rate. split; [done|]. left. apply lookup_delete_eq.
    + apply Z.leb_gt in Hbin. intros Heq. injection Heq as <- <-.
      unfold replace_rate, set_data. rewrite Hid. cbn [elements]. rewrite lookup_insert_eq.
      cbn [elements]. rewrite lookup_insert_eq. cbn [elements n_bins].
      split; [done|]. split; [|split; [discriminate|]].
      * intros Hne. by rewrite !lookup_insert_ne.
      * intros <- _. exists t, rate. split; [done|]. right.
        eexists _, _. rewrite lookup_insert_eq. split; [reflexivity|]. split; [done | lia].
  - intros Heq. injection Heq as <- <-.
    split; [done|]. split; [done|]. split; [done | discriminate].
Qed.

Lemma check_absent time id tree : elements tree !! id = None -> check time id tree = None.
Proof. intros H. unfold check, TweetBank.check. by rewrite H. Qed.

Lemma failed_checks_cons id r results :
  failed_checks id (r :: results)
  = (if decide (r = (id, Some false)) then 1 else 0) + failed_checks id results.
Proof.
  unfold failed_checks. destruct (decide (r = (id, Some false))) as [->|Hne].
  - by rewrite filter_cons_True.
  - by rewrite filter_cons_False.
Qed.

Lemma failed_checks_bound id checks :
  forall tree,
    let results := fst (run_checks get_cat_threshold get_rate_of checks tree) in
    match elements tree !! id with
    | None => failed_checks id results = 0
    | Some (t, _) =>
        failed_checks id results <= Z.to_nat (Z.max 1 (n_bins tree - retweet_time_bin t))
    end.
Proof.
  induction checks as [|[time id'] checks IH]; intros tree results; subst results.
  - simpl. destruct (elements tree !! id) as [[t r]|]; [|done].
    unfold failed_checks. simpl. lia.
  - cbn [run_checks]. fold check.
    destruct (check time id' tree) as [[ok tree1]|] eqn:Hcheck.
    + specialize (IH tree1). cbv zeta in IH.
      destruct (run_checks _ _ checks tree1) as [results tree'] eqn:Hrun.
      cbn [fst] in *. rewrite failed_checks_cons.
      destruct (check_effect time id' id tree ok tree1 Hcheck) as (Hn & Hother & Hsame & Hself).
      destruct (decide ((id', Some ok) = (id, Some false))) as [Heq|Hne].
      * injection Heq as -> ->.
        destruct (Hself eq_refl eq_refl) as (t & rate & Hid & Hres). rewrite Hid.
        destruct Hres as [Hgone|(t' & rate' & Hid' & Hbin & Hlt)].
        -- rewrite Hgone in IH. lia.
        -- rewrite Hid', Hbin, Hn in IH. lia.
      * destruct ok.
        -- rewrite (Hsame eq_refl) in IH. exact IH.
        -- assert (id' <> id) as Hid' by congruence.
           rewrite (Hother Hid'), Hn in IH. exact IH.
    + specialize (IH tree). cbv zeta in IH.
      destruct (run_checks _ _ checks tree) as [results tree'] eqn:Hrun.
      cbn [fst] in *. rewrite failed_checks_cons.
      rewrite decide_False by congruence. exact IH.
Qed.

(** X21. Lazy aging cannot stall on one tweet: in any run of checks, of
    any candidates at any times, the checks of a tweet that is in bin [b]
    return false at most n_bins - b times (once when b is already past
    the bins); each of them moves the tweet one bin up or evicts it. *)
Theorem failed_checks_are_bounded id checks tree t rate :
  elements tree !! id = Some (t, rate) ->
  failed_checks id (fst (run_checks get_cat_threshold get_rate_of checks tree))
  <= Z.to_nat (Z.max 1 (n_bins tree - retweet_time_bin t)).
Proof.
  intros Hid. pose proof (failed_checks_bound id checks tree) as H.
  cbv zeta in H. by rewrite Hid in H.
Qed.

End ChecksFacts.

(** *** Instances *)

Import Examples MoreExamples.

Lemma get_rate_is_the_follower_total_witness :
  exists rates,
    get_rate (fun _ => small_followers) old_tweet 2 = Some rates
    /\ (rates == total_rate small_followers)%Q.
Proof.
  apply (get_rate_is_the_follower_total (fun _ => small_followers) old_tweet 2).
  - repeat split; repeat constructor; vm_compute; reflexivity.
  - repeat split; repeat constructor; vm_compute; reflexivity.
Defined.

Lemma failed_checks_are_bounded_witness :
  failed_checks 8 (fst (run_checks thresholds constant_rate some_checks small_bank))
  <= Z.to_nat (Z.max 1 (n_bins small_bank - retweet_time_bin young_tweet)).
Proof.
  apply (failed_checks_are_bounded thresholds constant_rate 8 some_checks small_bank
           young_tweet (1 # 2)%Q).
  vm_compute. reflexivity.
Defined.

End TweetBankOpsFacts.
